(** * Payment settlement engine: ledger model and verified properties

    A shallow embedding of the settlement core of the agent-credit
    protocol: the persistence layer (db/index.ts), the vault engine
    (vault/index.ts), the permission gate (compliance/index.ts,
    [runPermissionChecks] and [screenAddress]), the signer (mpc/index.ts),
    credit-limit adjustment (core/agent.ts) and the payment orchestrator
    (core/payment.ts); around it, key generation and shard verification
    (mpc/index.ts), lender positions (vault/index.ts), KYA, underwriting,
    risk scoring and surveillance (compliance/index.ts), merchant
    registration (core/merchant.ts), the credit line (core/payment.ts),
    the scheduled jobs (core/scheduler.ts) and the read routes of the
    payments router (api/payments.ts).

    Modelling conventions.
    - The model of the whole engine carries a JavaScript [number]
      (SQLite REAL) as an exact rational [Qc].  It settles which
      statements run, in which order and on which operands, and its
      theorems are stated in terms of the operations the code performs.
      A division by zero, which in the code yields NaN or an infinity,
      is kept away by a hypothesis or a guard of the code, or modelled
      by what the code then does (the NOT NULL failure in
      [Vault.burn_positions], the exception in [Credit.getCreditLine]).
    - What the code computes on amounts is repeated on IEEE doubles in
      the module [Doubles], on Rocq's primitive [float]; the properties
      that depend on rounding are stated and evaluated there.
    - The SQLite store is an explicit record [DB.t]; every prepared
      statement is a function on it.  Of the timestamps, [created_at]
      is a function from the primary key to the second of the insert,
      given to the queries that sort by it; [updated_at] is not
      modelled, [settled_at] only as "set or not".  The constraints of
      the schema that the modelled statements can hit (PRIMARY KEY,
      UNIQUE, NOT NULL, FOREIGN KEY with [PRAGMA foreign_keys = ON]) are
      checked by the statements' models.
    - A function that can throw returns an [outcome] together with the
      store it leaves behind, so mutations made before a throw stay visible.
    - Calls that leave the process (uuid, AES, the chain provider, the
      ECDSA library) are parameters, collected in [Payment.Env] and in the
      section variables of [Mpc]. *)

From Stdlib Require Import QArith Qcanon Qround Lqa ZArith String Ascii.
From Stdlib Require PrimFloat Uint63 FloatClass.
From stdpp Require Import gmap strings list numbers.

Local Open Scope Qc_scope.

(** ** JavaScript helpers *)
Module Js.

(** Truthiness of an optional string: [undefined] and [""] are falsy. *)
Definition truthy (s : option string) : bool :=
  match s with
  | Some s => negb (bool_decide (s = ""%string))
  | None => false
  end.

(** [s || null] *)
Definition or_null (s : option string) : option string :=
  if truthy s then s else None.

(** [Math.min] on two numbers. *)
Definition Math_min (a b : Qc) : Qc := if decide (a ≤ b) then a else b.

(** A property of a response object: left out, [null], or a value. *)
Inductive field (A : Type) : Type :=
| Absent
| Null
| Present (a : A).
Arguments Absent {A}.
Arguments Null {A}.
Arguments Present {A} a.

(** A nullable column read into a response property. *)
Definition of_column {A} (c : option A) : field A :=
  match c with Some a => Present a | None => Null end.

Definition lower_ascii (c : ascii) : ascii :=
  let n := nat_of_ascii c in
  if ((65 <=? n)%nat && (n <=? 90)%nat)%bool then ascii_of_nat (n + 32) else c.

(** [String.prototype.toLowerCase] on ASCII text (addresses are hex). *)
Fixpoint toLowerCase (s : string) : string :=
  match s with
  | EmptyString => EmptyString
  | String c r => String (lower_ascii c) (toLowerCase r)
  end.

End Js.

(** ** Errors and outcomes *)

Inductive Constraint := PrimaryKey | UniqueKey | ForeignKey | NotNull.

(** The exceptions the modelled code can raise.  The source throws plain
    [Error] objects told apart by their message; each constructor stands
    for one message template (or one library exception). *)
Inductive Error :=
| AgentNotFound (agentId : string)            (* `Agent ${id} not found` *)
| AgentExists (wallet : string)               (* `Agent with wallet ${w} already exists` *)
| VaultNotInitialized                         (* "Vault not initialized" *)
| InsufficientVaultLiquidity (wanted available : Qc)
                                              (* `Insufficient vault liquidity: ...` *)
| VaultLiquidityError (inner : Error)         (* `Vault liquidity error: ${error.message}` *)
| InsufficientShares (sharesToBurn : Qc)      (* `Insufficient shares: could not burn ...` *)
| NoOutstandingBalance                        (* "No outstanding balance to repay" *)
| TransactionFailedOnchain (txHash : string)  (* `Transaction failed onchain: ${txHash}` *)
| LimitBelowUsage (used : Qc)                 (* `Cannot set limit below current usage` *)
| LimitAboveMax (max : Qc)                    (* `Limit cannot exceed $${MAX}` *)
| ChainNotRegistered                          (* `Chain ${chainId} not registered...` *)
| SqliteError (c : Constraint)                (* better-sqlite3 constraint failure *)
| ReferenceError (name : string)              (* unresolvable identifier *)
| SyntaxError                                 (* BigInt() on a non-hex string *)
| DecipherError                               (* node crypto failure while decrypting *)
| ProviderError                               (* rejection of the chain provider *)
| SignerError.                                (* exception of the ECDSA library *)

Inductive outcome (A : Type) : Type :=
| Returned (a : A)
| Threw (e : Error).
Arguments Returned {A} a.
Arguments Threw {A} e.

(** ** The store (db/index.ts) *)
Module DB.

Inductive AgentStatus := agent_active | agent_suspended | agent_delinquent | agent_closed.
Inductive KYAStatus := kya_pending | kya_approved | kya_rejected | kya_review.
Inductive MerchantStatus := merchant_active | merchant_suspended | merchant_blocked.
Inductive TransactionStatus :=
| tx_pending_approval | tx_approved | tx_signing | tx_broadcasting
| tx_confirmed | tx_failed | tx_rejected.
Inductive TransactionType := agent_to_merchant | agent_to_agent | repayment.

#[global] Instance AgentStatus_eq_dec : EqDecision AgentStatus.
Proof. solve_decision. Defined.
#[global] Instance KYAStatus_eq_dec : EqDecision KYAStatus.
Proof. solve_decision. Defined.
#[global] Instance MerchantStatus_eq_dec : EqDecision MerchantStatus.
Proof. solve_decision. Defined.
#[global] Instance TransactionStatus_eq_dec : EqDecision TransactionStatus.
Proof. solve_decision. Defined.

(** Why a gate of the verdict failed; one constructor per message
    pushed onto [failureReasons]. *)
Inductive FailureReason :=
| InsufficientCredit (requested available : Qc)
| RecipientSanctioned (address source : string)
| MerchantNotFound (merchantId : string)
| MerchantNotActive (merchantId : string) (st : MerchantStatus)
| MerchantFailedSanctions (merchantId : string)
| RecipientAgentNotFoundOrInactive (agentId : string)
| KyaNotApproved (st : KYAStatus)
| AgentNotActive (st : AgentStatus)
| RiskScoreExceeds (score : Z).

Record PermissionCheckResult := {
  creditCheck : bool;
  sanctionsCheck : bool;
  merchantCheck : bool;
  kyaCheck : bool;
  riskCheck : bool;
  allPassed : bool;
  failureReasons : list FailureReason;
}.

(** Table [agents]; the primary key is the key of the map. *)
Record AgentRow := {
  wallet_address : string;
  owner_address : string;
  credit_limit_usdc : Qc;
  used_credit_usdc : Qc;
  status : AgentStatus;
  kya_status : KYAStatus;
  risk_score : Z;
  mpc_public_key : string;
  mpc_server_shard_enc : string;
}.

Definition set_used_credit (u : Qc) (a : AgentRow) : AgentRow :=
  {| wallet_address := wallet_address a; owner_address := owner_address a;
     credit_limit_usdc := credit_limit_usdc a; used_credit_usdc := u;
     status := status a; kya_status := kya_status a; risk_score := risk_score a;
     mpc_public_key := mpc_public_key a;
     mpc_server_shard_enc := mpc_server_shard_enc a |}.

Definition set_credit_limit (l : Qc) (a : AgentRow) : AgentRow :=
  {| wallet_address := wallet_address a; owner_address := owner_address a;
     credit_limit_usdc := l; used_credit_usdc := used_credit_usdc a;
     status := status a; kya_status := kya_status a; risk_score := risk_score a;
     mpc_public_key := mpc_public_key a;
     mpc_server_shard_enc := mpc_server_shard_enc a |}.

Definition set_agent_status (s : AgentStatus) (a : AgentRow) : AgentRow :=
  {| wallet_address := wallet_address a; owner_address := owner_address a;
     credit_limit_usdc := credit_limit_usdc a; used_credit_usdc := used_credit_usdc a;
     status := s; kya_status := kya_status a; risk_score := risk_score a;
     mpc_public_key := mpc_public_key a;
     mpc_server_shard_enc := mpc_server_shard_enc a |}.

(** Table [merchants]. *)
Record MerchantRow := {
  merchant_wallet : string;
  merchant_status : MerchantStatus;
  fee_bps : Z;
  sanctions_clean : Z;
}.

(** Table [transactions]. *)
Record TxRow := {
  tx_id : string;
  tx_agent_id : string;
  merchant_id : option string;
  recipient_agent_id : option string;
  amount_usdc : Qc;
  fee_usdc : Qc;
  net_amount_usdc : Qc;
  tx_status : TransactionStatus;
  tx_type : TransactionType;
  tx_hash : option string;
  recipient_address : string;
  memo : option string;
  permission_checks : PermissionCheckResult;
  idempotency_key : string;
  settled_at : bool;
}.

Definition set_tx_status (s : TransactionStatus) (settle : bool) (r : TxRow) : TxRow :=
  {| tx_id := tx_id r; tx_agent_id := tx_agent_id r; merchant_id := merchant_id r;
     recipient_agent_id := recipient_agent_id r; amount_usdc := amount_usdc r;
     fee_usdc := fee_usdc r; net_amount_usdc := net_amount_usdc r;
     tx_status := s; tx_type := tx_type r; tx_hash := tx_hash r;
     recipient_address := recipient_address r; memo := memo r;
     permission_checks := permission_checks r;
     idempotency_key := idempotency_key r;
     settled_at := if settle then true else settled_at r |}.

Definition set_tx_hash (h : string) (r : TxRow) : TxRow :=
  {| tx_id := tx_id r; tx_agent_id := tx_agent_id r; merchant_id := merchant_id r;
     recipient_agent_id := recipient_agent_id r; amount_usdc := amount_usdc r;
     fee_usdc := fee_usdc r; net_amount_usdc := net_amount_usdc r;
     tx_status := tx_status r; tx_type := tx_type r; tx_hash := Some h;
     recipient_address := recipient_address r; memo := memo r;
     permission_checks := permission_checks r;
     idempotency_key := idempotency_key r; settled_at := settled_at r |}.

(** Table [repayments]. *)
Record RepaymentRow := {
  repayment_id : string;
  repayment_agent_id : string;
  repayment_amount_usdc : Qc;
  repayment_tx_hash : string;
}.

(** Table [vault] (the single row with [id = 1]). *)
Record VaultRow := {
  total_deposits_usdc : Qc;
  total_lent_usdc : Qc;
  total_fees_earned_usdc : Qc;
  total_shares : Qc;
}.

(** Table [lender_positions]. *)
Record PositionRow := {
  position_id : string;
  lender_address : string;
  deposited_usdc : Qc;
  shares_owned : Qc;
  earned_yield_usdc : Qc;
  deposit_tx_hash : string;
}.

(** The whole store.  [transactions] and [repayments] are in insertion
    order, [lender_positions] holds the last insert first;
    [sanctioned_addresses] maps an address to its source. *)
Record t := {
  agents : gmap string AgentRow;
  merchants : gmap string MerchantRow;
  transactions : list TxRow;
  repayments : list RepaymentRow;
  vault : option VaultRow;
  lender_positions : list PositionRow;
  sanctioned_addresses : gmap string string;
}.

Definition with_agents (f : gmap string AgentRow → gmap string AgentRow) (d : t) : t :=
  {| agents := f (agents d); merchants := merchants d;
     transactions := transactions d; repayments := repayments d;
     vault := vault d; lender_positions := lender_positions d;
     sanctioned_addresses := sanctioned_addresses d |}.

Definition with_transactions (f : list TxRow → list TxRow) (d : t) : t :=
  {| agents := agents d; merchants := merchants d;
     transactions := f (transactions d); repayments := repayments d;
     vault := vault d; lender_positions := lender_positions d;
     sanctioned_addresses := sanctioned_addresses d |}.

Definition with_repayments (f : list RepaymentRow → list RepaymentRow) (d : t) : t :=
  {| agents := agents d; merchants := merchants d;
     transactions := transactions d; repayments := f (repayments d);
     vault := vault d; lender_positions := lender_positions d;
     sanctioned_addresses := sanctioned_addresses d |}.

Definition with_vault (f : VaultRow → VaultRow) (d : t) : t :=
  {| agents := agents d; merchants := merchants d;
     transactions := transactions d; repayments := repayments d;
     vault := f <$> vault d; lender_positions := lender_positions d;
     sanctioned_addresses := sanctioned_addresses d |}.

Definition with_positions (f : list PositionRow → list PositionRow) (d : t) : t :=
  {| agents := agents d; merchants := merchants d;
     transactions := transactions d; repayments := repayments d;
     vault := vault d; lender_positions := f (lender_positions d);
     sanctioned_addresses := sanctioned_addresses d |}.

Definition with_sanctioned (f : gmap string string → gmap string string) (d : t) : t :=
  {| agents := agents d; merchants := merchants d;
     transactions := transactions d; repayments := repayments d;
     vault := vault d; lender_positions := lender_positions d;
     sanctioned_addresses := f (sanctioned_addresses d) |}.

(** *** agentQueries *)

(** [INSERT INTO agents (id, wallet_address, name, owner_address,
    credit_limit_usdc, mpc_public_key, mpc_server_shard_enc, kya_status)
    VALUES (..., 'pending')]: [id] PRIMARY KEY, [wallet_address] UNIQUE;
    usage, status and risk score take their defaults 0, 'active', 50. *)
Definition agentQueries_create (id wallet owner : string) (creditLimit : Qc)
    (publicKey serverShard : string) (d : t) : outcome unit * t :=
  if bool_decide (is_Some (agents d !! id))
  then (Threw (SqliteError PrimaryKey), d)
  else if bool_decide (map_Exists (λ _ a, wallet_address a = wallet) (agents d))
  then (Threw (SqliteError UniqueKey), d)
  else (Returned (),
        with_agents
          (insert id {| wallet_address := wallet; owner_address := owner;
                        credit_limit_usdc := creditLimit; used_credit_usdc := 0;
                        status := agent_active; kya_status := kya_pending;
                        risk_score := 50; mpc_public_key := publicKey;
                        mpc_server_shard_enc := serverShard |}) d).

(** [SELECT * FROM agents WHERE wallet_address = ?]: is there a row? *)
Definition agentQueries_getByWallet (wallet : string) (d : t) : bool :=
  bool_decide (map_Exists (λ _ a, wallet_address a = wallet) (agents d)).

(** [SELECT * FROM agents WHERE id = ?] *)
Definition agentQueries_getById (id : string) (d : t) : option AgentRow :=
  agents d !! id.

(** [UPDATE agents SET used_credit_usdc = ? ... WHERE id = ?] *)
Definition agentQueries_updateCredit (used : Qc) (id : string) : t → t :=
  with_agents (alter (set_used_credit used) id).

(** [UPDATE agents SET status = ? ... WHERE id = ?] *)
Definition agentQueries_updateStatus (s : AgentStatus) (id : string) : t → t :=
  with_agents (alter (set_agent_status s) id).

(** [UPDATE agents SET credit_limit_usdc = ? ... WHERE id = ?]
    (prepared inline by [adjustCreditLimit]) *)
Definition agents_updateLimit (l : Qc) (id : string) : t → t :=
  with_agents (alter (set_credit_limit l) id).

(** *** merchantQueries *)

Definition merchantQueries_getById (id : string) (d : t) : option MerchantRow :=
  merchants d !! id.

(** *** txQueries *)

(** [SELECT * FROM transactions WHERE id = ?] *)
Definition txQueries_getById (id : string) (d : t) : option TxRow :=
  List.find (λ r, bool_decide (tx_id r = id)) (transactions d).

(** [SELECT * FROM transactions WHERE idempotency_key = ?] *)
Definition txQueries_getByIdempotencyKey (key : string) (d : t) : option TxRow :=
  List.find (λ r, bool_decide (idempotency_key r = key)) (transactions d).

(** A nullable reference is satisfied by NULL or by an existing parent. *)
Definition fk_ok {V} (ref : option string) (parent : gmap string V) : bool :=
  match ref with
  | None => true
  | Some k => bool_decide (is_Some (parent !! k))
  end.

(** [INSERT INTO transactions (...) VALUES (...)].  The row keys are
    checked while the row is written ([id] PRIMARY KEY, then
    [idempotency_key] UNIQUE), the references ([agent_id],
    [merchant_id], [recipient_agent_id]) when the statement ends. *)
Definition txQueries_create (r : TxRow) (d : t) : outcome unit * t :=
  if existsb (λ r', bool_decide (tx_id r' = tx_id r)) (transactions d)
  then (Threw (SqliteError PrimaryKey), d)
  else if existsb (λ r', bool_decide (idempotency_key r' = idempotency_key r))
                  (transactions d)
  then (Threw (SqliteError UniqueKey), d)
  else if negb (fk_ok (Some (tx_agent_id r)) (agents d)
                && fk_ok (merchant_id r) (merchants d)
                && fk_ok (recipient_agent_id r) (agents d))
  then (Threw (SqliteError ForeignKey), d)
  else (Returned (), with_transactions (λ l, l ++ [r]) d).

(** [UPDATE transactions SET status = ?, settled_at = CASE WHEN ? =
    'confirmed' THEN datetime('now') ELSE settled_at END WHERE id = ?];
    both status parameters are always passed the same value. *)
Definition txQueries_updateStatus (s : TransactionStatus) (id : string) : t → t :=
  with_transactions
    (map (λ r, if bool_decide (tx_id r = id)
               then set_tx_status s (bool_decide (s = tx_confirmed)) r else r)).

(** [UPDATE transactions SET tx_hash = ? WHERE id = ?] *)
Definition txQueries_updateTxHash (h : string) (id : string) : t → t :=
  with_transactions
    (map (λ r, if bool_decide (tx_id r = id) then set_tx_hash h r else r)).

(** *** repaymentQueries *)

(** [INSERT INTO repayments (...)]: [id] PRIMARY KEY, [agent_id]
    REFERENCES agents. *)
Definition repaymentQueries_create (r : RepaymentRow) (d : t) : outcome unit * t :=
  if existsb (λ r', bool_decide (repayment_id r' = repayment_id r)) (repayments d)
  then (Threw (SqliteError PrimaryKey), d)
  else if negb (fk_ok (Some (repayment_agent_id r)) (agents d))
  then (Threw (SqliteError ForeignKey), d)
  else (Returned (), with_repayments (λ l, l ++ [r]) d).

(** *** vaultQueries *)

Definition vaultQueries_get (d : t) : option VaultRow := vault d.

Definition vaultQueries_updateDeposit (amount shares : Qc) : t → t :=
  with_vault (λ v,
    {| total_deposits_usdc := total_deposits_usdc v + amount;
       total_lent_usdc := total_lent_usdc v;
       total_fees_earned_usdc := total_fees_earned_usdc v;
       total_shares := total_shares v + shares |}).

Definition vaultQueries_updateLent (amount : Qc) : t → t :=
  with_vault (λ v,
    {| total_deposits_usdc := total_deposits_usdc v;
       total_lent_usdc := total_lent_usdc v + amount;
       total_fees_earned_usdc := total_fees_earned_usdc v;
       total_shares := total_shares v |}).

Definition vaultQueries_addFees (fees deposits : Qc) : t → t :=
  with_vault (λ v,
    {| total_deposits_usdc := total_deposits_usdc v + deposits;
       total_lent_usdc := total_lent_usdc v;
       total_fees_earned_usdc := total_fees_earned_usdc v + fees;
       total_shares := total_shares v |}).

Definition vaultQueries_updateWithdraw (amount shares : Qc) : t → t :=
  with_vault (λ v,
    {| total_deposits_usdc := total_deposits_usdc v - amount;
       total_lent_usdc := total_lent_usdc v;
       total_fees_earned_usdc := total_fees_earned_usdc v;
       total_shares := total_shares v - shares |}).

Definition vaultQueries_returnLent (amount : Qc) : t → t :=
  with_vault (λ v,
    {| total_deposits_usdc := total_deposits_usdc v;
       total_lent_usdc := total_lent_usdc v - amount;
       total_fees_earned_usdc := total_fees_earned_usdc v;
       total_shares := total_shares v |}).

(** *** lenderQueries *)

(** [INSERT INTO lender_positions (...)]: [id] PRIMARY KEY;
    [earned_yield_usdc] takes its default 0. *)
Definition lenderQueries_create (id lender : string) (amount shares : Qc)
    (txHash : string) (d : t) : outcome unit * t :=
  if existsb (λ p, bool_decide (position_id p = id)) (lender_positions d)
  then (Threw (SqliteError PrimaryKey), d)
  else (Returned (),
        with_positions
          (cons {| position_id := id; lender_address := lender;
                   deposited_usdc := amount; shares_owned := shares;
                   earned_yield_usdc := 0; deposit_tx_hash := txHash |}) d).

(** [ORDER BY created_at DESC].  The column [created_at] is filled by
    [DEFAULT (datetime('now'))], to the second, and never updated; it is
    kept apart from the row records, as a function [created_at] from the
    primary key to the second of the insert.  [rows] come in insertion
    order; SQLite puts the later seconds first and leaves the rows of
    one second in insertion order. *)
Fixpoint insert_desc {A} (key : A → Z) (x : A) (sorted : list A) : list A :=
  match sorted with
  | [] => [x]
  | y :: rest =>
      if (key x <? key y)%Z then y :: insert_desc key x rest else x :: sorted
  end.

Definition order_by_desc {A} (key : A → Z) (rows : list A) : list A :=
  foldr (insert_desc key) [] rows.

(** [SELECT * FROM lender_positions WHERE lender_address = ? ORDER BY
    created_at DESC]; [lender_positions] holds the last insert first. *)
Definition lenderQueries_getByAddress (created_at : string → Z) (lender : string)
    (d : t) : list PositionRow :=
  order_by_desc (λ p, created_at (position_id p))
    (rev (List.filter (λ p, bool_decide (lender_address p = lender))
            (lender_positions d))).

(** [UPDATE lender_positions SET shares_owned = shares_owned - ?,
    earned_yield_usdc = earned_yield_usdc + ? WHERE id = ?] *)
Definition lenderQueries_updateShares (burned yield : Qc) (id : string) : t → t :=
  with_positions
    (map (λ p, if bool_decide (position_id p = id)
               then {| position_id := position_id p;
                       lender_address := lender_address p;
                       deposited_usdc := deposited_usdc p;
                       shares_owned := shares_owned p - burned;
                       earned_yield_usdc := earned_yield_usdc p + yield;
                       deposit_tx_hash := deposit_tx_hash p |}
               else p)).

(** *** sanctionsQueries *)

(** [SELECT * FROM sanctioned_addresses WHERE address = ?]; the result
    is the row's [source]. *)
Definition sanctionsQueries_check (address : string) (d : t) : option string :=
  sanctioned_addresses d !! address.

(** [INSERT OR IGNORE INTO sanctioned_addresses (address, source)] *)
Definition sanctionsQueries_add (address source : string) : t → t :=
  with_sanctioned (λ m, match m !! address with
                        | Some _ => m
                        | None => <[address := source]> m
                        end).

End DB.

(** ** The vault engine (vault/index.ts) *)
Module Vault.
Import DB.

(** The [Vault] view returned by [getVaultState]. *)
Record Vault := {
  totalDepositsUsdc : Qc;
  totalLentUsdc : Qc;
  availableLiquidityUsdc : Qc;
  totalFeesEarnedUsdc : Qc;
  currentApyBps : Z;
  totalShares : Qc;
}.

(** [Math.round]: the nearest integer, halves rounded up. *)
Definition Math_round (q : Qc) : Z := Qfloor (q + Q2Qc (1 # 2)).

Definition calculateAPY (totalFeesEarned totalDeposits : Qc) : Z :=
  if decide (totalDeposits = 0) then 0%Z
  else
    let rawYield := totalFeesEarned / totalDeposits in
    Math_round (rawYield * Qc_of_Z 10000).

Definition getVaultState (d : DB.t) : outcome Vault :=
  match vaultQueries_get d with
  | None => Threw VaultNotInitialized
  | Some raw =>
      let totalDeposits := total_deposits_usdc raw in
      let totalLent := total_lent_usdc raw in
      Returned
        {| totalDepositsUsdc := totalDeposits;
           totalLentUsdc := totalLent;
           availableLiquidityUsdc := totalDeposits - totalLent;
           totalFeesEarnedUsdc := total_fees_earned_usdc raw;
           currentApyBps := calculateAPY (total_fees_earned_usdc raw) totalDeposits;
           totalShares := total_shares raw |}
  end.

Definition getSharePrice (d : DB.t) : outcome Qc :=
  match getVaultState d with
  | Threw e => Threw e
  | Returned vault =>
      if decide (totalShares vault = 0) then Returned 1
      else Returned (totalDepositsUsdc vault / totalShares vault)
  end.

(** [processDeposit]; [positionId] is the value [uuid()] yields.  The
    position insert and the vault update run in one store transaction:
    when the insert throws nothing is kept. *)
Definition processDeposit (positionId : string)
    (lenderAddress : string) (amountUsdc : Qc) (depositTxHash : string)
    (d : DB.t) : outcome PositionRow * DB.t :=
  match getSharePrice d with
  | Threw e => (Threw e, d)
  | Returned sharePrice =>
      let sharesIssued := amountUsdc / sharePrice in
      match lenderQueries_create positionId (Js.toLowerCase lenderAddress)
              amountUsdc sharesIssued depositTxHash d with
      | (Threw e, _) => (Threw e, d)
      | (Returned _, d1) =>
          (Returned {| position_id := positionId;
                       lender_address := Js.toLowerCase lenderAddress;
                       deposited_usdc := amountUsdc;
                       shares_owned := sharesIssued;
                       earned_yield_usdc := 0;
                       deposit_tx_hash := depositTxHash |},
           vaultQueries_updateDeposit amountUsdc sharesIssued d1)
      end
  end.

(** The [for (const pos of positions)] loop of [processWithdrawal],
    threading [remainingShares], [totalOriginalValue] and the store.  At
    a position without shares [burnFromThis] is 0 and [originalValue] is
    0 / 0, NaN: SQLite binds NaN as NULL, [earned_yield_usdc + NULL] is
    NULL, and the UPDATE fails on the column's NOT NULL. *)
Fixpoint burn_positions (sharePrice : Qc) (positions : list PositionRow)
    (remainingShares totalOriginalValue : Qc) (d : DB.t)
    : outcome (Qc * Qc) * DB.t :=
  match positions with
  | [] => (Returned (remainingShares, totalOriginalValue), d)
  | pos :: rest =>
      if decide (remainingShares ≤ 0)
      then (Returned (remainingShares, totalOriginalValue), d)
      else if decide (shares_owned pos = 0) then (Threw (SqliteError NotNull), d)
      else
        let burnFromThis := Js.Math_min (shares_owned pos) remainingShares in
        let originalValue := burnFromThis / shares_owned pos * deposited_usdc pos in
        let yieldForThis := burnFromThis * sharePrice - originalValue in
        burn_positions sharePrice rest
          (remainingShares - burnFromThis)
          (totalOriginalValue + originalValue)
          (lenderQueries_updateShares burnFromThis yieldForThis (position_id pos) d)
  end.

Record WithdrawalResult := { amountUsdc : Qc; yieldEarned : Qc }.

(** [processWithdrawal]; the loop, the share check and the vault update
    run in one store transaction: a throw among them keeps nothing. *)
Definition processWithdrawal (created_at : string → Z) (lenderAddress : string)
    (sharesToBurn : Qc) (d : DB.t) : outcome WithdrawalResult * DB.t :=
  match getVaultState d, getSharePrice d with
  | Threw e, _ | _, Threw e => (Threw e, d)
  | Returned vault, Returned sharePrice =>
      let amountUsdc := sharesToBurn * sharePrice in
      if decide (availableLiquidityUsdc vault < amountUsdc)
      then (Threw (InsufficientVaultLiquidity amountUsdc (availableLiquidityUsdc vault)), d)
      else
        let positions :=
          lenderQueries_getByAddress created_at (Js.toLowerCase lenderAddress) d in
        match burn_positions sharePrice positions sharesToBurn 0 d with
        | (Threw e, _) => (Threw e, d)
        | (Returned (remainingShares, totalOriginalValue), d1) =>
            if decide (Q2Qc (1 # 1000) < remainingShares)
            then (Threw (InsufficientShares sharesToBurn), d)
            else
              (Returned {| amountUsdc := amountUsdc;
                           yieldEarned := amountUsdc - totalOriginalValue |},
               vaultQueries_updateWithdraw amountUsdc sharesToBurn d1)
        end
  end.

Definition processFeeIntoVault (feeUsdc : Qc) (d : DB.t) : DB.t :=
  if decide (feeUsdc ≤ 0) then d
  else vaultQueries_addFees feeUsdc feeUsdc d.

Definition reserveLiquidity (amountUsdc : Qc) (d : DB.t) : outcome unit * DB.t :=
  match getVaultState d with
  | Threw e => (Threw e, d)
  | Returned vault =>
      if decide (availableLiquidityUsdc vault < amountUsdc)
      then (Threw (InsufficientVaultLiquidity amountUsdc (availableLiquidityUsdc vault)), d)
      else (Returned (), vaultQueries_updateLent amountUsdc d)
  end.

Definition returnLiquidity (amountUsdc : Qc) (d : DB.t) : DB.t :=
  vaultQueries_returnLent amountUsdc d.

End Vault.

(** ** The permission gate (compliance/index.ts) *)
Module Compliance.
Import DB.

(** The [Agent] view of types/index.ts that the orchestrator builds
    from an [agents] row. *)
Record Agent := {
  id : string;
  walletAddress : string;
  creditLimitUsdc : Qc;
  usedCreditUsdc : Qc;
  availableCreditUsdc : Qc;
  agentStatus : AgentStatus;
  kyaStatus : KYAStatus;
  riskScore : Z;
  mpcPublicKey : string;
}.

Definition KNOWN_MIXER_CONTRACTS : list string :=
  map Js.toLowerCase
    [ "0xd90e2f925da726b50c4ed8d0fb90ad053324f31b";
      "0x722122df12d4e14e13ac3b6895a86e84145b6967";
      "0xdd4c48c0b24039969fc16d1cdf626eab821d3384";
      "0xd4b88df4d29f5cedd6857912842cff3b20c8cfa3";
      "0xfd8610d20aa15b7b2e3be39b396a1bc3516c7144" ]%string.

Definition KNOWN_SANCTIONED_ENTITIES : list string :=
  map Js.toLowerCase
    [ "0x8589427373d6d84e98730d7795d8f6f8731fda16";
      "0xd882cfc20f52f2599d84b8e8d58c7fb62cfe344b";
      "0x7f367cc41522ce07553e823bf3be79a889debe1b" ]%string.

(** [Array.prototype.includes] on strings. *)
Definition includes (l : list string) (s : string) : bool :=
  existsb (λ x, bool_decide (x = s)) l.

Record Screening := { isSanctioned : bool; source : option string }.

(** [screenAddress]: the local table, then the built-in lists.  A hit
    in the entity list is cached in the local table. *)
Definition screenAddress (address : string) (d : DB.t) : Screening * DB.t :=
  let normalizedAddress := Js.toLowerCase address in
  match sanctionsQueries_check normalizedAddress d with
  | Some src => ({| isSanctioned := true; source := Some src |}, d)
  | None =>
      if includes KNOWN_SANCTIONED_ENTITIES normalizedAddress
      then ({| isSanctioned := true; source := Some "ofac-sdn"%string |},
            sanctionsQueries_add normalizedAddress "ofac-sdn" d)
      else if includes KNOWN_MIXER_CONTRACTS normalizedAddress
      then ({| isSanctioned := true; source := Some "mixer-list"%string |}, d)
      else ({| isSanctioned := false; source := None |}, d)
  end.

(** Gate 1: [amountUsdc <= creditLimitUsdc - usedCreditUsdc]. *)
Definition credit_gate (agent : Agent) (amountUsdc : Qc) : bool * list FailureReason :=
  let availableCredit := creditLimitUsdc agent - usedCreditUsdc agent in
  if decide (amountUsdc ≤ availableCredit) then (true, [])
  else (false, [InsufficientCredit amountUsdc availableCredit]).

(** Gate 2. *)
Definition sanctions_gate (recipientAddress : string) (s : Screening)
    : bool * list FailureReason :=
  if negb (isSanctioned s) then (true, [])
  else (false, [RecipientSanctioned recipientAddress (default ""%string (source s))]).

(** Gate 3: the named merchant, else the named recipient agent, else a
    direct address payment, which is allowed. *)
Definition merchant_gate (merchantId recipientAgentId : option string) (d : DB.t)
    : bool * list FailureReason :=
  match Js.or_null merchantId, Js.or_null recipientAgentId with
  | Some mid, _ =>
      match merchantQueries_getById mid d with
      | None => (false, [MerchantNotFound mid])
      | Some merchant =>
          if bool_decide (merchant_status merchant = merchant_active)
             && negb (sanctions_clean merchant =? 0)%Z
          then (true, [])
          else if negb (bool_decide (merchant_status merchant = merchant_active))
          then (false, [MerchantNotActive mid (merchant_status merchant)])
          else (false, [MerchantFailedSanctions mid])
      end
  | None, Some rid =>
      match agentQueries_getById rid d with
      | Some recipientAgent =>
          if bool_decide (status recipientAgent = agent_active) then (true, [])
          else (false, [RecipientAgentNotFoundOrInactive rid])
      | None => (false, [RecipientAgentNotFoundOrInactive rid])
      end
  | None, None => (true, [])
  end.

(** Gate 4. *)
Definition kya_gate (agent : Agent) : bool * list FailureReason :=
  if bool_decide (kyaStatus agent = kya_approved) then (true, [])
  else (false, [KyaNotApproved (kyaStatus agent)]).

(** Gate 5. *)
Definition risk_gate (agent : Agent) : bool * list FailureReason :=
  if bool_decide (agentStatus agent = agent_active) && (riskScore agent <=? 70)%Z
  then (true, [])
  else if negb (bool_decide (agentStatus agent = agent_active))
  then (false, [AgentNotActive (agentStatus agent)])
  else (false, [RiskScoreExceeds (riskScore agent)]).

Definition runPermissionChecks (agent : Agent) (recipientAddress : string)
    (amountUsdc : Qc) (merchantId recipientAgentId : option string)
    (d : DB.t) : PermissionCheckResult * DB.t :=
  let credit := credit_gate agent amountUsdc in
  let '(recipientSanctions, d1) := screenAddress recipientAddress d in
  let sanctions := sanctions_gate recipientAddress recipientSanctions in
  let merchant := merchant_gate merchantId recipientAgentId d1 in
  let kya := kya_gate agent in
  let risk := risk_gate agent in
  ({| creditCheck := credit.1;
      sanctionsCheck := sanctions.1;
      merchantCheck := merchant.1;
      kyaCheck := kya.1;
      riskCheck := risk.1;
      allPassed := credit.1 && sanctions.1 && merchant.1 && kya.1 && risk.1;
      failureReasons := credit.2 ++ sanctions.2 ++ merchant.2 ++ kya.2 ++ risk.2 |},
   d1).

End Compliance.

(** ** The signer (mpc/index.ts) *)
Module Mpc.

(** The order [n] of the secp256k1 group ([secp256k1.CURVE.n]). *)
Definition n : Z :=
  0xFFFFFFFFFFFFFFFFFFFFFFFFFFFFFFFEBAAEDCE6AF48A03BBFD25E8CD0364141%Z.

Definition hex_digit (c : ascii) : option Z :=
  let k := Z.of_nat (nat_of_ascii c) in
  if ((48 <=? k) && (k <=? 57))%Z then Some (k - 48)%Z
  else if ((97 <=? k) && (k <=? 102))%Z then Some (k - 87)%Z
  else if ((65 <=? k) && (k <=? 70))%Z then Some (k - 55)%Z
  else None.

Fixpoint hex_digits (s : string) (acc : Z) : option Z :=
  match s with
  | EmptyString => Some acc
  | String c r =>
      match hex_digit c with
      | Some d => hex_digits r (16 * acc + d)%Z
      | None => None
      end
  end.

(** White space as [BigInt] sees it (WhiteSpace and LineTerminator of
    ECMAScript), on the UTF-8 bytes of a string: the one-byte characters
    U+0009 to U+000D and U+0020, *)
Definition ws_byte (c : ascii) : bool :=
  let k := Z.of_nat (nat_of_ascii c) in
  ((9 <=? k) && (k <=? 13) || (k =? 32))%Z.

(** the two bytes of U+00A0, *)
Definition ws_bytes2 (c1 c2 : ascii) : bool :=
  let k1 := Z.of_nat (nat_of_ascii c1) in
  let k2 := Z.of_nat (nat_of_ascii c2) in
  ((k1 =? 194) && (k2 =? 160))%Z.

(** and the three bytes of U+1680, U+2000 to U+200A, U+2028, U+2029,
    U+202F, U+205F, U+3000 and U+FEFF. *)
Definition ws_bytes3 (c1 c2 c3 : ascii) : bool :=
  let k1 := Z.of_nat (nat_of_ascii c1) in
  let k2 := Z.of_nat (nat_of_ascii c2) in
  let k3 := Z.of_nat (nat_of_ascii c3) in
  ((k1 =? 225) && (k2 =? 154) && (k3 =? 128)
   || (k1 =? 226) && (k2 =? 128)
      && ((128 <=? k3) && (k3 <=? 138) || (k3 =? 168) || (k3 =? 169) || (k3 =? 175))
   || (k1 =? 226) && (k2 =? 129) && (k3 =? 159)
   || (k1 =? 227) && (k2 =? 128) && (k3 =? 128)
   || (k1 =? 239) && (k2 =? 187) && (k3 =? 191))%Z.

(** The string is white space throughout. *)
Fixpoint all_ws (s : string) : bool :=
  match s with
  | EmptyString => true
  | String c1 r1 =>
      if ws_byte c1 then all_ws r1
      else
        match r1 with
        | EmptyString => false
        | String c2 r2 =>
            if ws_bytes2 c1 c2 then all_ws r2
            else
              match r2 with
              | EmptyString => false
              | String c3 r3 => if ws_bytes3 c1 c2 c3 then all_ws r3 else false
              end
        end
  end.

(** The string without the white space at its end. *)
Fixpoint trimEnd (s : string) : string :=
  match s with
  | EmptyString => EmptyString
  | String c r => if all_ws s then EmptyString else String c (trimEnd r)
  end.

(** [BigInt("0x" + s)]: [BigInt] trims white space (after the prefix
    only the white space at the end of [s] can be trimmed) and reads a
    non-empty run of hex digits; [None] stands for the SyntaxError on
    anything else. *)
Definition BigInt_hex (s : string) : option Z :=
  match trimEnd s with
  | EmptyString => None
  | t => hex_digits t 0
  end.

(** [mod(a, b)]: the remainder of [%] (sign of the dividend) made
    non-negative. *)
Definition mod_ (a b : Z) : Z :=
  let result := Z.rem a b in
  if (0 <=? result)%Z then result else (result + b)%Z.

(** [hexToBytes] strips a leading "0x" before decoding. *)
Definition strip0x (hex : string) : string :=
  match hex with
  | String "0" (String "x" rest) => rest
  | _ => hex
  end.

(** What [secp256k1.signAsync] resolves to. *)
Record EcdsaSignature := { sig_r : Z; sig_s : Z; sig_recovery : option Z }.

(** What [signWithMPC] resolves to ([r], [s] before their hex
    rendering; [signature] is their concatenation with [v]). *)
Record MpcSignature := { r : Z; s : Z; v : Z }.

Section Signer.

(** [decryptShard], AES-256-CBC under the hashed key; [None] when
    node's crypto throws. *)
Variable decryptShard : string → string → option string.

(** [secp256k1.signAsync(msgBytes, keyBytes, {lowS})] on the message
    digest (hex) and the 32-byte big-endian key (as its integer);
    [None] when the library throws. *)
Variable signAsync : string → Z → bool → option EcdsaSignature.

Definition signWithMPC (messageHash encryptedServerShard encryptionKey
    agentShardHex : string) : outcome MpcSignature :=
  match decryptShard encryptedServerShard encryptionKey with
  | None => Threw DecipherError
  | Some serverShardHex =>
      match BigInt_hex serverShardHex with
      | None => Threw SyntaxError
      | Some serverShardBig =>
          match BigInt_hex agentShardHex with
          | None => Threw SyntaxError
          | Some agentShardBig =>
              let fullKeyBig := mod_ (serverShardBig + agentShardBig) n in
              match signAsync (strip0x messageHash) fullKeyBig true with
              | None => Threw SignerError
              | Some sig =>
                  Returned {| r := sig_r sig; s := sig_s sig;
                              v := 27 + default 0%Z (sig_recovery sig) |}
              end
          end
      end
  end.

End Signer.

End Mpc.

(** ** The payment orchestrator (core/payment.ts) *)
Module Payment.
Import DB.

Record PaymentRequest := {
  agentId : string;
  recipientAddress : string;
  amountUsdc : Qc;
  memo : option string;
  merchantId : option string;
  recipientAgentId : option string;
  agentPartialSignature : option string;
  idempotencyKey : string;
}.

Record PaymentResult := {
  transactionId : string;
  status : TransactionStatus;
  permissionChecks : PermissionCheckResult;
  feeUsdc : Qc;
  netAmountUsdc : Qc;
  mpcSignatureId : Js.field string;
  txHash : Js.field string;
  awaitingAgentSignature : Js.field bool;
}.

(** What [chain.transferUsdcMPC] resolves to. *)
Record ChainTransferResult := { result_txHash : string; result_confirmed : bool }.

(** The provider registered for "base": one without a
    [transferUsdcMPC] method (simulation), or the live one, whose
    method gets the reconstructed key (as its integer), the recipient
    and the amount; [None] when its promise rejects. *)
Inductive ChainProvider :=
| SimulatedChain
| LiveChain (transferUsdcMPC : Z → string → Qc → option ChainTransferResult).

(** Everything [processPayment] reads from outside the store. *)
Record Env := {
  uuid : string;                                (* the value of [uuid()] *)
  MERCHANT_FEE_BPS : Qc;                        (* [config.MERCHANT_FEE_BPS] *)
  MPC_ENCRYPTION_KEY : string;                  (* [config.MPC_ENCRYPTION_KEY] *)
  decrypt : string → string → option string;    (* the inline AES decryption *)
  getChain_base : option ChainProvider;         (* [getChain("base")] *)
  simulated_hash : string;                      (* the sha256 of simulation mode *)
}.

(** What [signTransaction] resolves to. *)
Record SignTransactionResult := { signatureId : string }.

(** Evaluation of an identifier that no declaration in scope binds:
    neither an import, a parameter, a [const]/[let]/[function] of an
    enclosing scope, nor a global. *)
Definition unresolvable {A} (name : string) : outcome A :=
  Threw (ReferenceError name).

Definition mapAgent (agentId : string) (raw : AgentRow) : Compliance.Agent :=
  {| Compliance.id := agentId;
     Compliance.walletAddress := wallet_address raw;
     Compliance.creditLimitUsdc := credit_limit_usdc raw;
     Compliance.usedCreditUsdc := used_credit_usdc raw;
     Compliance.availableCreditUsdc := credit_limit_usdc raw - used_credit_usdc raw;
     Compliance.agentStatus := DB.status raw;
     Compliance.kyaStatus := kya_status raw;
     Compliance.riskScore := risk_score raw;
     Compliance.mpcPublicKey := mpc_public_key raw |}.

(** [((serverBig + agentBig) % n + n) % n] *)
Definition reconstruct (serverBig agentBig : Z) : Z :=
  Z.rem (Z.rem (serverBig + agentBig) Mpc.n + Mpc.n) Mpc.n.

(** The body of the [try] block of [processPayment] (steps 9 to 11),
    entered with the transaction in state "signing".  The digest built
    by [createTransactionHash] is not used afterwards and is left out.
    The object returned on confirmation reads [signResult], which
    nothing in scope declares. *)
Definition sign_and_settle (E : Env) (req : PaymentRequest) (agentRaw : AgentRow)
    (txId : string) (permChecks : PermissionCheckResult)
    (feeUsdc netAmountUsdc : Qc) (d : DB.t) : outcome PaymentResult * DB.t :=
  if negb (Js.truthy (agentPartialSignature req)) then
    (Returned {| transactionId := txId; status := tx_signing;
                 permissionChecks := permChecks;
                 feeUsdc := feeUsdc; netAmountUsdc := netAmountUsdc;
                 mpcSignatureId := Js.Absent; txHash := Js.Absent;
                 awaitingAgentSignature := Js.Present true |},
     txQueries_updateStatus tx_signing txId d)
  else
    let d := txQueries_updateStatus tx_signing txId d in
    match decrypt E (mpc_server_shard_enc agentRaw) (MPC_ENCRYPTION_KEY E) with
    | None => (Threw DecipherError, d)
    | Some serverShardHex =>
    match Mpc.BigInt_hex serverShardHex,
          Mpc.BigInt_hex (default ""%string (agentPartialSignature req)) with
    | None, _ | _, None => (Threw SyntaxError, d)
    | Some serverBig, Some agentBig =>
    let fullKeyBig := reconstruct serverBig agentBig in
    let d := txQueries_updateStatus tx_broadcasting txId d in
    match getChain_base E with
    | None => (Threw ChainNotRegistered, d)
    | Some chain =>
    let broadcast : outcome string :=
      match chain with
      | LiveChain transferUsdcMPC =>
          match transferUsdcMPC fullKeyBig (recipientAddress req) netAmountUsdc with
          | None => Threw ProviderError
          | Some result =>
              if negb (result_confirmed result)
              then Threw (TransactionFailedOnchain (result_txHash result))
              else Returned (result_txHash result)
          end
      | SimulatedChain => Returned (simulated_hash E)
      end in
    match broadcast with
    | Threw e => (Threw e, d)
    | Returned hash =>
    let d := txQueries_updateTxHash hash txId d in
    let d := txQueries_updateStatus tx_confirmed txId d in
    let d := Vault.processFeeIntoVault feeUsdc d in
    match unresolvable "signResult" with
    | Threw e => (Threw e, d)
    | Returned signResult =>
        (Returned {| transactionId := txId; status := tx_confirmed;
                     permissionChecks := permChecks;
                     feeUsdc := feeUsdc; netAmountUsdc := netAmountUsdc;
                     mpcSignatureId := Js.Present (signatureId signResult);
                     txHash := Js.Present hash;
                     awaitingAgentSignature := Js.Absent |}, d)
    end end end end end.

(** The [catch] block: mark the transaction failed, return the
    reserved liquidity, write back the usage read at the start. *)
Definition rollback (agent : Compliance.Agent) (req : PaymentRequest)
    (txId : string) (netAmountUsdc : Qc) (d : DB.t) : DB.t :=
  let d := txQueries_updateStatus tx_failed txId d in
  let d := Vault.returnLiquidity netAmountUsdc d in
  agentQueries_updateCredit (Compliance.usedCreditUsdc agent) (agentId req) d.

(** The response of the idempotency gate. *)
Definition snapshot (existing : TxRow) : PaymentResult :=
  {| transactionId := tx_id existing; status := tx_status existing;
     permissionChecks := permission_checks existing;
     feeUsdc := fee_usdc existing; netAmountUsdc := net_amount_usdc existing;
     mpcSignatureId := Js.Absent;
     txHash := Js.of_column (tx_hash existing);
     awaitingAgentSignature := Js.Absent |}.

(** What steps 2 to 8 hand over to the [try] block. *)
Record Reservation := {
  agentRaw : AgentRow;
  permChecks : PermissionCheckResult;
  reservedFeeUsdc : Qc;
  reservedNetUsdc : Qc;
}.

(** How steps 1 to 8 end: with the response or the exception of an
    early exit, or with liquidity reserved and credit debited. *)
Inductive admission :=
| Early (o : outcome PaymentResult)
| Reserved (c : Reservation).

(** Step 3: the merchant's rate when the named merchant exists, else
    the configured default. *)
Definition feeBps (E : Env) (req : PaymentRequest) (d : DB.t) : Qc :=
  match Js.or_null (merchantId req) with
  | Some mid =>
      match merchantQueries_getById mid d with
      | Some merchant => Qc_of_Z (fee_bps merchant)
      | None => MERCHANT_FEE_BPS E
      end
  | None => MERCHANT_FEE_BPS E
  end.

(** The row written by step 5. *)
Definition new_transaction (E : Env) (req : PaymentRequest)
    (permChecks : PermissionCheckResult) (feeUsdc netAmountUsdc : Qc) : TxRow :=
  {| tx_id := uuid E; tx_agent_id := agentId req;
     merchant_id := Js.or_null (merchantId req);
     recipient_agent_id := Js.or_null (recipientAgentId req);
     amount_usdc := amountUsdc req; fee_usdc := feeUsdc;
     net_amount_usdc := netAmountUsdc;
     tx_status := if allPassed permChecks then tx_approved else tx_rejected;
     tx_type := if Js.truthy (recipientAgentId req)
                then agent_to_agent else agent_to_merchant;
     tx_hash := None;
     recipient_address := recipientAddress req;
     DB.memo := Js.or_null (memo req);
     permission_checks := permChecks;
     idempotency_key := idempotencyKey req;
     settled_at := false |}.

(** Steps 1 to 8 of [processPayment]. *)
Definition authorize (E : Env) (req : PaymentRequest) (d : DB.t) : admission * DB.t :=
  (* 1. idempotency check *)
  match txQueries_getByIdempotencyKey (idempotencyKey req) d with
  | Some existing => (Early (Returned (snapshot existing)), d)
  | None =>
  (* 2. load agent *)
  match agentQueries_getById (agentId req) d with
  | None => (Early (Threw (AgentNotFound (agentId req))), d)
  | Some agentRaw =>
  let agent := mapAgent (agentId req) agentRaw in
  (* 3. fees *)
  let feeUsdc := amountUsdc req * feeBps E req d / Qc_of_Z 10000 in
  let netAmountUsdc := amountUsdc req - feeUsdc in
  (* 4. permission checks *)
  let '(permChecks, d) :=
    Compliance.runPermissionChecks agent (recipientAddress req) (amountUsdc req)
      (merchantId req) (recipientAgentId req) d in
  (* 5. transaction record *)
  let txId := uuid E in
  match txQueries_create (new_transaction E req permChecks feeUsdc netAmountUsdc) d with
  | (Threw e, d) => (Early (Threw e), d)
  | (Returned _, d) =>
  (* 6. rejection *)
  if negb (allPassed permChecks) then
    (Early (Returned {| transactionId := txId; status := tx_rejected;
                        permissionChecks := permChecks;
                        feeUsdc := feeUsdc; netAmountUsdc := netAmountUsdc;
                        mpcSignatureId := Js.Absent; txHash := Js.Absent;
                        awaitingAgentSignature := Js.Absent |}), d)
  else
  (* 7. reserve liquidity *)
  match Vault.reserveLiquidity netAmountUsdc d with
  | (Threw error, d) =>
      (Early (Threw (VaultLiquidityError error)),
       txQueries_updateStatus tx_failed txId d)
  | (Returned _, d) =>
  (* 8. used credit *)
  let newUsedCredit := Compliance.usedCreditUsdc agent + amountUsdc req in
  let d := agentQueries_updateCredit newUsedCredit (agentId req) d in
  (Reserved {| agentRaw := agentRaw; permChecks := permChecks;
               reservedFeeUsdc := feeUsdc; reservedNetUsdc := netAmountUsdc |}, d)
  end end end end.

(** [processPayment]: steps 1 to 8, then the [try] block with its
    [catch]. *)
Definition processPayment (E : Env) (req : PaymentRequest) (d : DB.t)
    : outcome PaymentResult * DB.t :=
  match authorize E req d with
  | (Early o, d) => (o, d)
  | (Reserved c, d) =>
      let agent := mapAgent (agentId req) (agentRaw c) in
      let txId := uuid E in
      (* 9. signing *)
      let d := txQueries_updateStatus tx_signing txId d in
      match sign_and_settle E req (agentRaw c) txId (permChecks c)
              (reservedFeeUsdc c) (reservedNetUsdc c) d with
      | (Threw error, d) =>
          (Threw error, rollback agent req txId (reservedNetUsdc c) d)
      | (Returned result, d) => (Returned result, d)
      end
  end.

Record RepaymentResult := {
  repaymentId : string;
  repaidUsdc : Qc;          (* [amountUsdc] of the result *)
  newBalance : Qc;
}.

(** [processRepayment]; [repaymentId] is the value [uuid()] yields.
    The four statements inside [db.transaction] are kept or dropped
    together. *)
Definition processRepayment (repaymentId : string) (agentId : string)
    (amountUsdc : Qc) (txHash : string) (d : DB.t)
    : outcome RepaymentResult * DB.t :=
  match agentQueries_getById agentId d with
  | None => (Threw (AgentNotFound agentId), d)
  | Some agent =>
      let actualRepayment := Js.Math_min amountUsdc (used_credit_usdc agent) in
      if decide (actualRepayment ≤ 0) then (Threw NoOutstandingBalance, d)
      else
        match repaymentQueries_create
                {| repayment_id := repaymentId; repayment_agent_id := agentId;
                   repayment_amount_usdc := actualRepayment;
                   repayment_tx_hash := txHash |} d with
        | (Threw e, _) => (Threw e, d)
        | (Returned _, d1) =>
            let newUsedCredit := used_credit_usdc agent - actualRepayment in
            let d2 := agentQueries_updateCredit newUsedCredit agentId d1 in
            let d3 := Vault.returnLiquidity actualRepayment d2 in
            let d4 :=
              if bool_decide (DB.status agent = agent_delinquent)
                 && bool_decide (newUsedCredit = 0)
              then agentQueries_updateStatus agent_active agentId d3
              else d3 in
            (Returned {| repaymentId := repaymentId;
                         repaidUsdc := actualRepayment;
                         newBalance := used_credit_usdc agent - actualRepayment |},
             d4)
        end
  end.

End Payment.

(** ** Agent management (core/agent.ts) *)
Module AgentAdmin.
Import DB.

(** [adjustCreditLimit]; [MAX_CREDIT_LIMIT_USDC] is the configured
    maximum. *)
Definition adjustCreditLimit (MAX_CREDIT_LIMIT_USDC : Qc)
    (agentId : string) (newLimitUsdc : Qc) (d : DB.t)
    : outcome Compliance.Agent * DB.t :=
  match agentQueries_getById agentId d with
  | None => (Threw (AgentNotFound agentId), d)
  | Some agent =>
      if decide (newLimitUsdc < used_credit_usdc agent)
      then (Threw (LimitBelowUsage (used_credit_usdc agent)), d)
      else if decide (MAX_CREDIT_LIMIT_USDC < newLimitUsdc)
      then (Threw (LimitAboveMax MAX_CREDIT_LIMIT_USDC), d)
      else
        let d1 := agents_updateLimit newLimitUsdc agentId d in
        match agentQueries_getById agentId d1 with
        | Some raw => (Returned (Payment.mapAgent agentId raw), d1)
        | None => (Threw (AgentNotFound agentId), d1)   (* not reached *)
        end
  end.

(** What [generateMPCKeyPair] resolves to, as far as the stored row
    goes. *)
Record MPCKeys := { publicKey : string; serverShard : string; ethAddress : string }.

(** Everything [registerAgent] reads from outside the store. *)
Record RegisterEnv := {
  mpcKeys : MPCKeys;                     (* [generateMPCKeyPair(...)] *)
  agentUuid : string;                    (* the value of [uuid()] *)
  DEFAULT_CREDIT_LIMIT_USDC : Qc;
  MAX_CREDIT_LIMIT_USDC : Qc;
  canFund : bool;    (* the "base" provider has [sendGasEth] and [transferUsdc] *)
}.

(** [requestedCreditLimit || config.DEFAULT_CREDIT_LIMIT_USDC] *)
Definition or_default (requested : option Qc) (dflt : Qc) : Qc :=
  match requested with
  | Some r => if decide (r = 0) then dflt else r
  | None => dflt
  end.

(** [registerAgent], as far as agents and vault go: the duplicate check,
    the credit limit, the agent row, and the funding step, which reserves
    the whole credit limit when the provider can fund and swallows every
    exception.  The API key row and the KYA started in the background are
    left out; they touch neither limit, usage nor vault. *)
Definition registerAgent (E : RegisterEnv) (ownerAddress : string)
    (requestedCreditLimit : option Qc) (d : DB.t) : outcome string * DB.t :=
  let walletAddress := ethAddress (mpcKeys E) in
  if agentQueries_getByWallet walletAddress d
  then (Threw (AgentExists walletAddress), d)
  else
    let creditLimit :=
      Js.Math_min (or_default requestedCreditLimit (DEFAULT_CREDIT_LIMIT_USDC E))
                  (MAX_CREDIT_LIMIT_USDC E) in
    match agentQueries_create (agentUuid E) walletAddress
            (Js.toLowerCase ownerAddress) creditLimit
            (publicKey (mpcKeys E)) (serverShard (mpcKeys E)) d with
    | (Threw e, _) => (Threw e, d)
    | (Returned _, d1) =>
        (Returned (agentUuid E),
         if canFund E then (Vault.reserveLiquidity creditLimit d1).2 else d1)
    end.

End AgentAdmin.

(** ** The entry points (api/payments.ts, api/vault.ts) and the ledger
    operations behind them *)
Module Api.

(** One state-changing call.  The first five are the POST routes; the
    routers parse the body with [PaymentRequestSchema],
    [RepaymentRequestSchema], [LendRequestSchema], [WithdrawRequestSchema]
    and [RegisterAgentSchema], whose amounts are [z.number().positive()]
    (the requested limit is optional and at most 100000).  The others
    are the ledger functions that only the core calls. *)
Inductive Request :=
| PostPayment (E : Payment.Env) (req : Payment.PaymentRequest)
| PostRepay (repaymentId agentId : string) (amountUsdc : Qc) (txHash : string)
| PostDeposit (positionId lenderAddress : string) (amountUsdc : Qc) (txHash : string)
| PostWithdraw (created_at : string → Z) (lenderAddress : string) (sharesAmount : Qc)
| PostAgent (E : AgentAdmin.RegisterEnv) (ownerAddress : string)
    (requestedCreditLimitUsdc : option Qc)
| AdjustLimit (maxLimit : Qc) (agentId : string) (newLimitUsdc : Qc)
| InjectFee (feeUsdc : Qc)
| ReserveLiquidity (amountUsdc : Qc)
| ReturnLiquidity (amountUsdc : Qc).

(** [z.number().positive().max(100000).optional()] *)
Definition valid_requested_limit (requested : option Qc) : bool :=
  match requested with
  | Some r => bool_decide (0 < r) && bool_decide (r ≤ Qc_of_Z 100000)
  | None => true
  end.

(** The store after a call.  A body that fails its schema is answered
    with 400 before the core is entered. *)
Definition handle (r : Request) (d : DB.t) : DB.t :=
  match r with
  | PostPayment E req =>
      if decide (0 < Payment.amountUsdc req) then (Payment.processPayment E req d).2
      else d
  | PostRepay rid agentId amount txHash =>
      if decide (0 < amount) then (Payment.processRepayment rid agentId amount txHash d).2
      else d
  | PostDeposit pid lender amount txHash =>
      if decide (0 < amount) then (Vault.processDeposit pid lender amount txHash d).2
      else d
  | PostWithdraw created_at lender shares =>
      if decide (0 < shares)
      then (Vault.processWithdrawal created_at lender shares d).2
      else d
  | PostAgent E owner requested =>
      if valid_requested_limit requested
      then (AgentAdmin.registerAgent E owner requested d).2
      else d
  | AdjustLimit maxLimit agentId newLimit =>
      (AgentAdmin.adjustCreditLimit maxLimit agentId newLimit d).2
  | InjectFee fee => Vault.processFeeIntoVault fee d
  | ReserveLiquidity amount => (Vault.reserveLiquidity amount d).2
  | ReturnLiquidity amount => Vault.returnLiquidity amount d
  end.

(** The store after a sequence of calls, one after the other. *)
Definition run (rs : list Request) (d : DB.t) : DB.t :=
  fold_left (λ d r, handle r d) rs d.

End Api.

(** ** The properties under study *)

(** The vault invariant of the specification. *)
Definition vault_inv (d : DB.t) : Prop :=
  ∀ v, DB.vault d = Some v →
    0 ≤ DB.total_lent_usdc v ∧ DB.total_lent_usdc v ≤ DB.total_deposits_usdc v.

(** The not-found errors of the code: [`Agent ${id} not found`]. *)
Definition is_not_found (e : Error) : bool :=
  match e with
  | AgentNotFound _ => true
  | _ => false
  end.

(** A shard in the range [1, n-1]. *)
Definition shard_in_range (k : Z) : Prop := (1 ≤ k ≤ Mpc.n - 1)%Z.

(** ** Concrete data: Scenario A of the specification and its variants *)
Module Scenario.
Import DB.
Local Open Scope string_scope.

Definition agent1 : AgentRow :=
  {| wallet_address := "0xaaaaaaaaaaaaaaaaaaaaaaaaaaaaaaaaaaaaaaaa";
     owner_address := "0xbbbbbbbbbbbbbbbbbbbbbbbbbbbbbbbbbbbbbbbb";
     credit_limit_usdc := Qc_of_Z 1000; used_credit_usdc := 0;
     DB.status := agent_active; kya_status := kya_approved; risk_score := 50;
     mpc_public_key := "02ab"; mpc_server_shard_enc := "00:ff" |}.

Definition merchant1 : MerchantRow :=
  {| merchant_wallet := "0x1111111111111111111111111111111111111111";
     merchant_status := merchant_active; fee_bps := 150; sanctions_clean := 1 |}.

(** The vault as [migrate] creates it. *)
Definition vault_empty : VaultRow :=
  {| total_deposits_usdc := 0; total_lent_usdc := 0;
     total_fees_earned_usdc := 0; total_shares := 0 |}.

(** One agent, one merchant, an empty vault. *)
Definition db_init : DB.t :=
  {| agents := {[ "agent-1" := agent1 ]}; merchants := {[ "m-1" := merchant1 ]};
     transactions := []; repayments := []; vault := Some vault_empty;
     lender_positions := []; sanctioned_addresses := ∅ |}.

(** The vault after a deposit of 50000 at price 1. *)
Definition vault_funded : VaultRow :=
  {| total_deposits_usdc := Qc_of_Z 50000; total_lent_usdc := 0;
     total_fees_earned_usdc := 0; total_shares := Qc_of_Z 50000 |}.

Definition db_funded : DB.t :=
  {| agents := {[ "agent-1" := agent1 ]}; merchants := {[ "m-1" := merchant1 ]};
     transactions := []; repayments := []; vault := Some vault_funded;
     lender_positions := []; sanctioned_addresses := ∅ |}.

(** The agent owing 100 and marked delinquent, over the funded vault. *)
Definition agent_owing : AgentRow :=
  set_used_credit (Qc_of_Z 100) (set_agent_status agent_delinquent agent1).

Definition db_owing : DB.t :=
  with_agents (λ _, {[ "agent-1" := agent_owing ]}) db_funded.

(** A live provider that answers every transfer with [confirmed]. *)
Definition env (confirmed : bool) : Payment.Env :=
  {| Payment.uuid := "tx-1"; Payment.MERCHANT_FEE_BPS := Qc_of_Z 150;
     Payment.MPC_ENCRYPTION_KEY := "k";
     Payment.decrypt := λ _ _, Some "05";
     Payment.getChain_base :=
       Some (Payment.LiveChain
               (λ _ _ _, Some {| Payment.result_txHash := "0xabc";
                                 Payment.result_confirmed := confirmed |}));
     Payment.simulated_hash := "0x51" |}.

(** Scenario A: 100 to the merchant charging 150 bps; [shard] is the
    agent's shard, when supplied. *)
Definition request (merchant : string) (shard : option string) : Payment.PaymentRequest :=
  {| Payment.agentId := "agent-1";
     Payment.recipientAddress := "0x1111111111111111111111111111111111111111";
     Payment.amountUsdc := Qc_of_Z 100; Payment.memo := None;
     Payment.merchantId := Some merchant; Payment.recipientAgentId := None;
     Payment.agentPartialSignature := shard;
     Payment.idempotencyKey := "idem-1" |}.

End Scenario.

(** A lender deposits 50000; the agent spends 100 at 150 bps without yet
    supplying its shard (the request stays in "signing"); the agent then
    repays the 100 it owes. *)
Definition spend_then_repay : list Api.Request :=
  [ Api.PostDeposit "pos-1" "0xC0FFEE" (Qc_of_Z 50000) "0xd1";
    Api.PostPayment (Scenario.env true) (Scenario.request "m-1" None);
    Api.PostRepay "rep-1" "agent-1" (Qc_of_Z 100) "0x7e" ]%string.

(** Two stores that differ at most in the sanctions cache. *)
Definition same_ledger (d d' : DB.t) : Prop :=
  DB.agents d' = DB.agents d ∧ DB.merchants d' = DB.merchants d
  ∧ DB.transactions d' = DB.transactions d ∧ DB.repayments d' = DB.repayments d
  ∧ DB.vault d' = DB.vault d ∧ DB.lender_positions d' = DB.lender_positions d.

(** The agent row after the debit of step 8. *)
Definition debited (a : DB.AgentRow) (amount : Qc) : DB.AgentRow :=
  DB.set_used_credit (DB.used_credit_usdc a + amount) a.

(** The vault row with [net] more lent out. *)
Definition lent_more (v : DB.VaultRow) (net : Qc) : DB.VaultRow :=
  {| DB.total_deposits_usdc := DB.total_deposits_usdc v;
     DB.total_lent_usdc := DB.total_lent_usdc v + net;
     DB.total_fees_earned_usdc := DB.total_fees_earned_usdc v;
     DB.total_shares := DB.total_shares v |}.

(** The agent row a repayment of [actualRepaid] leaves behind: usage
    lowered, and the status back to active when a delinquent agent
    reaches a zero balance. *)
Definition repaid_agent (a : DB.AgentRow) (actualRepaid : Qc) : DB.AgentRow :=
  let a1 := DB.set_used_credit (DB.used_credit_usdc a - actualRepaid) a in
  if bool_decide (DB.status a = DB.agent_delinquent)
     && bool_decide (DB.used_credit_usdc a - actualRepaid = 0)
  then DB.set_agent_status DB.agent_active a1 else a1.

(** The verdict on a spend naming the unknown merchant [mid]. *)
Definition unknown_merchant_verdict (mid : string) (pc : DB.PermissionCheckResult) : Prop :=
  DB.merchantCheck pc = false ∧ DB.allPassed pc = false
  ∧ DB.MerchantNotFound mid ∈ DB.failureReasons pc.

(** ** Key generation and shard verification (mpc/index.ts) *)
Module MpcKeys.

(** The digit [d] (0 to 15) in lower-case hexadecimal. *)
Definition digit_char (d : Z) : ascii :=
  if (d <? 10)%Z then ascii_of_nat (Z.to_nat (48 + d))
  else ascii_of_nat (Z.to_nat (87 + d)).

(** The hexadecimal digits of [k > 0] put before [rest], least
    significant digit first; [fuel] bounds the number of digits. *)
Fixpoint toString16_aux (fuel : nat) (k : Z) (rest : string) : string :=
  match fuel with
  | O => rest
  | S f =>
      let rest' := String (digit_char (k mod 16)) rest in
      if (k / 16 =? 0)%Z then rest' else toString16_aux f (k / 16) rest'
  end.

(** [n.toString(16)] on a bigint. *)
Definition toString16 (k : Z) : string :=
  if (k <? 0)%Z
  then String "-" (toString16_aux (S (Z.to_nat (Z.log2 (- k)))) (- k) "")
  else toString16_aux (S (Z.to_nat (Z.log2 k))) k "".

(** [s.padStart(len, "0")] *)
Definition padStart0 (len : nat) (s : string) : string :=
  String.append (string_of_list_ascii (repeat "0"%char (len - String.length s))) s.

(** [bigIntToHex]: [n.toString(16).padStart(64, "0")] *)
Definition bigIntToHex (k : Z) : string := padStart0 64 (toString16 k).

(** What [generateMPCKeyPair] resolves to. *)
Record MPCKeyPair := {
  publicKey : string;
  serverShard : string;
  agentShard : string;
  _ethAddress : string;
  _publicKeyUncompressed : string;
}.

Inductive KeyError :=
| InvalidPrivateKey      (* exception of [secp256k1.getPublicKey] *)
| VerificationFailed.    (* "MPC key generation verification failed" *)

Section Keys.

(** The library calls: [getPublicKey key compressed] is the hex of
    [secp256k1.getPublicKey], [None] when it throws; [encryptShard shard
    key iv] is AES-256-CBC under the random [iv]; [decryptShard] is
    [None] when decryption throws; [deriveEthAddress] is the keccak
    address of an uncompressed public key. *)
Variable getPublicKey : Z → bool → option string.
Variable encryptShard : string → string → string → string.
Variable decryptShard : string → string → option string.
Variable deriveEthAddress : string → string.

(** [generateMPCKeyPair]; [fullKeyBig] and [serverShardBig] are the
    integers of the two 32-byte keys that [randomPrivateKey] yields (the
    hex of the 32 server-shard bytes is [bigIntToHex serverShardBig]),
    [iv] the random initialisation vector of [encryptShard]. *)
Definition generateMPCKeyPair (fullKeyBig serverShardBig : Z) (iv : string)
    (encryptionKey : string) : KeyError + MPCKeyPair :=
  let agentShardBig := Mpc.mod_ (fullKeyBig - serverShardBig) Mpc.n in
  let agentShardHex := bigIntToHex agentShardBig in
  match getPublicKey fullKeyBig false, getPublicKey fullKeyBig true with
  | None, _ | _, None => inl InvalidPrivateKey
  | Some publicKeyUncompressed, Some publicKeyCompressed =>
      let reconstructed := Mpc.mod_ (serverShardBig + agentShardBig) Mpc.n in
      if negb (reconstructed =? fullKeyBig)%Z then inl VerificationFailed
      else
        let serverShardEncrypted :=
          encryptShard (bigIntToHex serverShardBig) encryptionKey iv in
        inr {| publicKey := publicKeyCompressed;
               serverShard := serverShardEncrypted;
               agentShard := agentShardHex;
               _ethAddress := deriveEthAddress publicKeyUncompressed;
               _publicKeyUncompressed := publicKeyUncompressed |}
  end.

(** [verifyAgentShard]: every exception inside the [try] gives [false]. *)
Definition verifyAgentShard (agentShardHex encryptedServerShard encryptionKey
    expectedPubKeyHex : string) : bool :=
  match decryptShard encryptedServerShard encryptionKey with
  | None => false
  | Some serverShardHex =>
      match Mpc.BigInt_hex serverShardHex, Mpc.BigInt_hex agentShardHex with
      | Some serverShardBig, Some agentShardBig =>
          let fullKeyBig := Mpc.mod_ (serverShardBig + agentShardBig) Mpc.n in
          match getPublicKey fullKeyBig true with
          | Some derivedPubKey => bool_decide (derivedPubKey = expectedPubKeyHex)
          | None => false
          end
      | _, _ => false
      end
  end.

End Keys.
End MpcKeys.

(** ** Lender positions at market value (vault/index.ts) *)
Module Lender.
Import DB.



End Lender.


(** ** Concrete data: a funded vault with one lender *)
Module VaultScenario.
Import DB.
Local Open Scope string_scope.

Definition position1 : PositionRow :=
  {| position_id := "pos-1"; lender_address := "0xc0ffee";
     deposited_usdc := Qc_of_Z 50000; shares_owned := Qc_of_Z 50000;
     earned_yield_usdc := 0; deposit_tx_hash := "0xd1" |}.

(** The funded vault of [Scenario], with the position behind its shares. *)
Definition db_lender : DB.t :=
  {| agents := agents Scenario.db_funded; merchants := merchants Scenario.db_funded;
     transactions := []; repayments := []; vault := Some Scenario.vault_funded;
     lender_positions := [position1]; sanctioned_addresses := ∅ |}.

End VaultScenario.

(** ** Know-your-agent, underwriting, risk scoring and surveillance
    (compliance/index.ts) *)
Module Kya.

(** What the public RPC answers while one wallet is analysed; [None]
    is a rejected promise. *)
Record Rpc := {
  viem : bool;                        (* the dynamic imports resolve *)
  getCode : option (option string);   (* [undefined] or the code *)
  getBalance : option Z;              (* wei *)
  balanceOf : option Z;               (* USDC base units *)
  getTransactionCount : option Z;
}.

Record WalletAnalysis := {
  address : string;
  chain : string;
  firstTxDate : option string;
  walletAgeDays : Qc;
  totalTxCount : Z;
  inboundTxCount : Z;
  outboundTxCount : Z;
  uniqueCounterparties : Z;
  totalVolumeUsd : Qc;
  hasInteractedWithDeFi : bool;
  hasInteractedWithBridges : bool;
  hasInteractedWithMixers : bool;
  isContract : bool;
  ethBalance : Qc;
  usdcBalance : Qc;
  tokenCount : Z;
  nftCount : Z;
  riskFlags : list string;
}.

(** The fields of [walletData] that the [try] block of [analyzeWallet]
    assigns, in the order it assigns them: [isContract], [ethBalance],
    [usdcBalance], the transaction count.  A rejection keeps what was
    assigned before it; a failed USDC read is swallowed on its own. *)
Definition fetch (r : Rpc) : bool * Qc * Qc * Z :=
  if negb (viem r) then (false, 0, 0, 0%Z)
  else
    match getCode r with
    | None => (false, 0, 0, 0%Z)
    | Some code =>
        let isContract :=
          match code with
          | Some c => negb (bool_decide (c = "0x"%string))
          | None => false
          end in
        match getBalance r with
        | None => (isContract, 0, 0, 0%Z)
        | Some ethBal =>
            let ethBalance := Qc_of_Z ethBal / Qc_of_Z (10 ^ 18) in
            let usdcBalance :=
              match balanceOf r with
              | Some usdcBal => Qc_of_Z usdcBal / Qc_of_Z (10 ^ 6)
              | None => 0
              end in
            match getTransactionCount r with
            | None => (isContract, ethBalance, usdcBalance, 0%Z)
            | Some nonce => (isContract, ethBalance, usdcBalance, nonce)
            end
        end
    end.

(** [cond && flags.push(flag)] *)
Definition flag_if (cond : bool) (flag : string) : list string :=
  if cond then [flag] else [].

(** [analyzeWallet]; [r] is what the RPC answers for the address. *)
Definition analyzeWallet (address : string) (chain : string) (r : Rpc)
    : WalletAnalysis :=
  let normalizedAddress := Js.toLowerCase address in
  let '(isContract, ethBalance, usdcBalance, nonce) := fetch r in
  let walletAgeDays : Qc := 0 in
  let totalTxCount := nonce in
  let hasInteractedWithMixers := false in
  let totalVolumeUsd : Qc := 0 in
  let riskFlags :=
    flag_if isContract "IS_CONTRACT"
    ++ flag_if (totalTxCount =? 0)%Z "VIRGIN_WALLET"
    ++ flag_if (bool_decide (walletAgeDays < 1)) "BRAND_NEW_WALLET"
    ++ flag_if hasInteractedWithMixers "MIXER_INTERACTION"
    ++ flag_if (bool_decide (Qc_of_Z 100000 < totalVolumeUsd)
                && bool_decide (walletAgeDays < Qc_of_Z 7))
         "HIGH_VOLUME_NEW_WALLET" in
  {| address := normalizedAddress; chain := chain;
     firstTxDate := None; walletAgeDays := walletAgeDays;
     totalTxCount := totalTxCount; inboundTxCount := 0;
     outboundTxCount := nonce; uniqueCounterparties := 0;
     totalVolumeUsd := totalVolumeUsd;
     hasInteractedWithDeFi := false; hasInteractedWithBridges := false;
     hasInteractedWithMixers := hasInteractedWithMixers;
     isContract := isContract; ethBalance := ethBalance;
     usdcBalance := usdcBalance; tokenCount := 0; nftCount := 0;
     riskFlags := riskFlags |}.

Inductive Tier := tier_new | tier_basic | tier_verified | tier_premium.

#[global] Instance Tier_eq_dec : EqDecision Tier.
Proof. solve_decision. Defined.

Record KYACheck := {
  name : string;
  passed : bool;
  weight : Z;
  score : Z;
}.

(** The sentences pushed onto [reviewReasons], one constructor per
    template. *)
Inductive ReviewReason :=
| OwnerOnSanctionsList
| AgentOnSanctionsList
| OwnerWalletAge (days : Qc)
| OwnerTxCount (count : Z)
| OwnerMixerInteraction
| OwnerZeroHistory
| InvalidAddress
| PossibleSybil (agents : nat).

Record KYAResult := {
  status : DB.KYAStatus;
  kyaScore : Z;                  (* [score] *)
  tier : Tier;
  creditRecommendation : Qc;
  checks : list KYACheck;
  flags : list string;
  reviewReasons : list ReviewReason;
}.


Definition set_kya_status (s : DB.KYAStatus) (a : DB.AgentRow) : DB.AgentRow :=
  {| DB.wallet_address := DB.wallet_address a; DB.owner_address := DB.owner_address a;
     DB.credit_limit_usdc := DB.credit_limit_usdc a;
     DB.used_credit_usdc := DB.used_credit_usdc a;
     DB.status := DB.status a; DB.kya_status := s; DB.risk_score := DB.risk_score a;
     DB.mpc_public_key := DB.mpc_public_key a;
     DB.mpc_server_shard_enc := DB.mpc_server_shard_enc a |}.

Definition set_risk_score (r : Z) (a : DB.AgentRow) : DB.AgentRow :=
  {| DB.wallet_address := DB.wallet_address a; DB.owner_address := DB.owner_address a;
     DB.credit_limit_usdc := DB.credit_limit_usdc a;
     DB.used_credit_usdc := DB.used_credit_usdc a;
     DB.status := DB.status a; DB.kya_status := DB.kya_status a; DB.risk_score := r;
     DB.mpc_public_key := DB.mpc_public_key a;
     DB.mpc_server_shard_enc := DB.mpc_server_shard_enc a |}.

(** [UPDATE agents SET kya_status = ? ... WHERE id = ?] *)
Definition agentQueries_updateKYA (s : DB.KYAStatus) (id : string) : DB.t → DB.t :=
  DB.with_agents (alter (set_kya_status s) id).

(** [UPDATE agents SET risk_score = ? ... WHERE id = ?] *)
Definition agentQueries_updateRiskScore (r : Z) (id : string) : DB.t → DB.t :=
  DB.with_agents (alter (set_risk_score r) id).

Fixpoint all_hex (s : string) : bool :=
  match s with
  | EmptyString => true
  | String c r => bool_decide (is_Some (Mpc.hex_digit c)) && all_hex r
  end.

(** [/^0x[a-fA-F0-9]{40}$/.test(s)] *)
Definition is_address (s : string) : bool :=
  match s with
  | String "0" (String "x" rest) => (String.length rest =? 40)%nat && all_hex rest
  | _ => false
  end.

(** The four scoring steps of check 3; each yields the points it adds
    to [walletScore], the flags and the review reasons it pushes. *)
Definition age_score (days : Qc) : Z * list string * list ReviewReason :=
  if decide (Qc_of_Z 365 ≤ days) then (7%Z, [], [])
  else if decide (Qc_of_Z 90 ≤ days) then (5%Z, [], [])
  else if decide (Qc_of_Z 30 ≤ days) then (3%Z, [], [])
  else if decide (Qc_of_Z 7 ≤ days) then (1%Z, [], [])
  else (0%Z, ["NEW_OWNER_WALLET"%string], [OwnerWalletAge days]).

Definition tx_score (count : Z) : Z * list string * list ReviewReason :=
  if (100 <=? count)%Z then (5%Z, [], [])
  else if (20 <=? count)%Z then (3%Z, [], [])
  else if (5 <=? count)%Z then (1%Z, [], [])
  else (0%Z, ["LOW_TX_HISTORY"%string], [OwnerTxCount count]).

Definition balance_score (totalBalanceUsd : Qc) : Z * list string * list ReviewReason :=
  if decide (Qc_of_Z 10000 ≤ totalBalanceUsd) then (5%Z, [], [])
  else if decide (Qc_of_Z 1000 ≤ totalBalanceUsd) then (3%Z, [], [])
  else if decide (Qc_of_Z 100 ≤ totalBalanceUsd) then (1%Z, [], [])
  else (0%Z, ["LOW_BALANCE"%string], []).

Definition counterparty_score (n : Z) : Z :=
  if (20 <=? n)%Z then 3%Z else if (5 <=? n)%Z then 1%Z else 0%Z.

(** [checks.reduce((sum, c) => sum + c.f, 0)] *)
Definition sum_checks (f : KYACheck → Z) (checks : list KYACheck) : Z :=
  fold_left (λ sum c, sum + f c)%Z checks 0%Z.

(** [performKYA]; [rpc] is what the RPC answers for each address. *)
Definition performKYA (rpc : string → Rpc) (agentId ownerAddress walletAddress : string)
    (d : DB.t) : KYAResult * DB.t :=
  (* check 1: owner wallet sanctions *)
  let '(ownerScreen, d) := Compliance.screenAddress ownerAddress d in
  let ownerSanctioned := Compliance.isSanctioned ownerScreen in
  let checks :=
    [ {| name := "owner_sanctions"; passed := negb ownerSanctioned; weight := 25;
         score := if ownerSanctioned then 0 else 25 |} ] in
  if ownerSanctioned then
    let d := agentQueries_updateKYA DB.kya_rejected agentId d in
    let d := agentQueries_updateRiskScore 100 agentId d in
    ({| status := DB.kya_rejected; kyaScore := 0; tier := tier_new;
        creditRecommendation := 0; checks := checks;
        flags := ["OWNER_SANCTIONED"%string]; reviewReasons := [OwnerOnSanctionsList] |}, d)
  else
  (* check 2: agent wallet sanctions *)
  let '(agentScreen, d) := Compliance.screenAddress walletAddress d in
  let agentSanctioned := Compliance.isSanctioned agentScreen in
  let checks :=
    (checks ++
     [ {| name := "agent_sanctions"; passed := negb agentSanctioned; weight := 25;
          score := if agentSanctioned then 0 else 25 |} ])%list in
  if agentSanctioned then
    let d := agentQueries_updateKYA DB.kya_rejected agentId d in
    let d := agentQueries_updateRiskScore 100 agentId d in
    ({| status := DB.kya_rejected; kyaScore := 0; tier := tier_new;
        creditRecommendation := 0; checks := checks;
        flags := ["AGENT_SANCTIONED"%string]; reviewReasons := [AgentOnSanctionsList] |}, d)
  else
  (* check 3: owner wallet analysis *)
  let ownerAnalysis := analyzeWallet ownerAddress "base" (rpc ownerAddress) in
  let age := age_score (walletAgeDays ownerAnalysis) in
  let txs := tx_score (totalTxCount ownerAnalysis) in
  let totalBalanceUsd :=
    ethBalance ownerAnalysis * Qc_of_Z 2500 + usdcBalance ownerAnalysis in
  let balance := balance_score totalBalanceUsd in
  let walletScore :=
    (age.1.1 + txs.1.1 + balance.1.1
     + counterparty_score (uniqueCounterparties ownerAnalysis))%Z in
  let mixer := Compliance.includes (riskFlags ownerAnalysis) "MIXER_INTERACTION" in
  let virgin := Compliance.includes (riskFlags ownerAnalysis) "VIRGIN_WALLET" in
  let walletScore := if mixer then 0%Z else walletScore in
  let flags :=
    (age.1.2 ++ txs.1.2 ++ balance.1.2
     ++ flag_if mixer "MIXER_EXPOSURE" ++ flag_if virgin "VIRGIN_OWNER_WALLET")%list in
  let reviewReasons :=
    (age.2 ++ txs.2 ++ balance.2
     ++ (if mixer then [OwnerMixerInteraction] else [])
     ++ (if virgin then [OwnerZeroHistory] else []))%list in
  let checks :=
    (checks ++
     [ {| name := "owner_wallet_analysis"; passed := (5 <=? walletScore)%Z;
          weight := 20; score := walletScore |} ])%list in
  (* check 4: address validity *)
  let isValidAddress := is_address ownerAddress && is_address walletAddress in
  let isZeroAddress :=
    bool_decide (ownerAddress = "0x0000000000000000000000000000000000000000"%string) in
  let isBurnAddress :=
    bool_decide (Js.toLowerCase ownerAddress
                 = "0x000000000000000000000000000000000000dead"%string) in
  let addressOk := isValidAddress && negb isZeroAddress && negb isBurnAddress in
  let addressScore := if addressOk then 10%Z else 0%Z in
  let flags := (flags ++ flag_if (negb addressOk) "INVALID_ADDRESS")%list in
  let reviewReasons :=
    (reviewReasons ++ (if addressOk then [] else [InvalidAddress]))%list in
  let checks :=
    (checks ++
     [ {| name := "address_validity"; passed := (addressScore =? 10)%Z;
          weight := 10; score := addressScore |} ])%list in
  (* check 5: sybil detection; [agentQueries] has no [getByOwner], so
     the optional call yields [undefined] and the list is empty *)
  let existingAgents : list DB.AgentRow := [] in
  let count := length existingAgents in
  let sybilScore :=
    if (10 <? count)%nat then 2%Z else if (5 <? count)%nat then 5%Z else 10%Z in
  let flags :=
    (flags ++ (if (10 <? count)%nat then ["HIGH_AGENT_COUNT"%string]
               else if (5 <? count)%nat then ["MULTIPLE_AGENTS"%string] else []))%list in
  let reviewReasons :=
    (reviewReasons ++ (if (10 <? count)%nat then [PossibleSybil count] else []))%list in
  let checks :=
    (checks ++
     [ {| name := "sybil_detection"; passed := (5 <=? sybilScore)%Z;
          weight := 10; score := sybilScore |} ])%list in
  (* check 6: jurisdiction *)
  let geoScore := 10%Z in
  let checks :=
    (checks ++
     [ {| name := "jurisdiction_check"; passed := true;
          weight := 10; score := geoScore |} ])%list in
  (* aggregate *)
  let totalScore := sum_checks score checks in
  let totalWeight := sum_checks weight checks in
  let normalizedScore :=
    Vault.Math_round (Qc_of_Z totalScore / Qc_of_Z totalWeight * Qc_of_Z 100) in
  let '(tier, creditRecommendation, status) :=
    if (80 <=? normalizedScore)%Z
    then (tier_verified, Qc_of_Z 1000, DB.kya_approved)
    else if (60 <=? normalizedScore)%Z
    then (tier_basic, Qc_of_Z 100, DB.kya_approved)
    else if (40 <=? normalizedScore)%Z
    then (tier_new, Qc_of_Z 10,
          if (2 <? length flags)%nat then DB.kya_review else DB.kya_approved)
    else (tier_new, 0, DB.kya_review) in
  (* hard overrides *)
  let '(status, creditRecommendation) :=
    if Compliance.includes flags "MIXER_EXPOSURE"
    then (DB.kya_review, 0) else (status, creditRecommendation) in
  let '(status, creditRecommendation) :=
    if Compliance.includes flags "OWNER_SANCTIONED"
       || Compliance.includes flags "AGENT_SANCTIONED"
    then (DB.kya_rejected, 0) else (status, creditRecommendation) in
  let d := agentQueries_updateKYA status agentId d in
  let d := agentQueries_updateRiskScore (100 - normalizedScore) agentId d in
  ({| status := status; kyaScore := normalizedScore; tier := tier;
      creditRecommendation := creditRecommendation; checks := checks;
      flags := flags; reviewReasons := reviewReasons |}, d).


(** *** Credit underwriting *)

Inductive Impact := impact_positive | impact_negative | impact_neutral.

Record UnderwritingFactor := {
  factorName : string;
  impact : Impact;
  factorWeight : Z;
}.

Record TransactionHistory := {
  totalTx : Qc;
  totalVolume : Qc;
  totalRepaid : Qc;
  totalBorrowed : Qc;
  delinquentCount : Qc;
  accountAgeDays : Qc;
}.

(** The sentences pushed onto [conditions]. *)
Inductive Condition :=
| ReducedForPoorHistory
| NewAgentMinimum
| BlockedMixerExposure
| CappedSuspectedSybil.

Record UnderwritingDecision := {
  approved : bool;
  creditLimit : Z;
  decisionTier : Tier;
  riskScore : Z;
  factors : list UnderwritingFactor;
  conditions : list Condition;
}.

(** [Math.max] on two numbers. *)
Definition Math_max (a b : Qc) : Qc := if decide (a ≤ b) then b else a.

(** [tierCaps[tier]] *)
Definition tierCaps (t : Tier) : Qc :=
  match t with
  | tier_new => Qc_of_Z 50
  | tier_basic => Qc_of_Z 500
  | tier_verified => Qc_of_Z 5000
  | tier_premium => Qc_of_Z 50000
  end.

(** [x || fallback] on a number; [0] is falsy. *)
Definition or_number (x fallback : Qc) : Qc := if decide (x = 0) then fallback else x.

(** The limit adjustment from the history (factor 3) with the
    conditions it pushes. *)
Definition history_limit (creditLimit : Qc) (h : TransactionHistory)
    : Qc * list Condition :=
  let repaymentRatio :=
    if decide (0 < totalBorrowed h) then totalRepaid h / totalBorrowed h else 0 in
  if bool_decide (Q2Qc (95 # 100) ≤ repaymentRatio)
     && bool_decide (delinquentCount h = 0)
     && bool_decide (Qc_of_Z 20 ≤ totalTx h)
  then
    if decide (Qc_of_Z 90 ≤ accountAgeDays h)
    then (Js.Math_min (creditLimit * Qc_of_Z 4) (Qc_of_Z 50000), [])
    else if decide (Qc_of_Z 30 ≤ accountAgeDays h)
    then (Js.Math_min (creditLimit * Qc_of_Z 2) (Qc_of_Z 25000), [])
    else (Js.Math_min (creditLimit * Q2Qc (3 # 2)) (Qc_of_Z 10000), [])
  else if bool_decide (Q2Qc (8 # 10) ≤ repaymentRatio)
          && bool_decide (delinquentCount h ≤ 1)
  then (Js.Math_min (creditLimit * Q2Qc (3 # 2)) (Qc_of_Z 10000), [])
  else if bool_decide (repaymentRatio < Q2Qc (1 # 2))
          || bool_decide (Qc_of_Z 3 ≤ delinquentCount h)
  then (Math_max (creditLimit * Q2Qc (1 # 4)) 0, [ReducedForPoorHistory])
  else (creditLimit, []).

(** The factors pushed for a history. *)
Definition history_factors (h : TransactionHistory) : list UnderwritingFactor :=
  let repaymentRatio :=
    if decide (0 < totalBorrowed h) then totalRepaid h / totalBorrowed h else 0 in
  [ {| factorName := "Repayment Ratio";
       impact := if decide (Q2Qc (95 # 100) ≤ repaymentRatio) then impact_positive
                 else if decide (Q2Qc (8 # 10) ≤ repaymentRatio) then impact_neutral
                 else impact_negative;
       factorWeight := 25 |};
    {| factorName := "Transaction Volume";
       impact := if decide (Qc_of_Z 50 ≤ totalTx h) then impact_positive
                 else if decide (Qc_of_Z 10 ≤ totalTx h) then impact_neutral
                 else impact_negative;
       factorWeight := 10 |};
    {| factorName := "Delinquencies";
       impact := if decide (delinquentCount h = 0) then impact_positive
                 else impact_negative;
       factorWeight := 10 |};
    {| factorName := "Account Age";
       impact := if decide (Qc_of_Z 90 ≤ accountAgeDays h) then impact_positive
                 else if decide (Qc_of_Z 30 ≤ accountAgeDays h) then impact_neutral
                 else impact_negative;
       factorWeight := 5 |} ].

(** [underwriteAgent]; the rendered [value] of a factor is left out. *)
Definition underwriteAgent (agentId : string) (kyaResult : KYAResult)
    (transactionHistory : option TransactionHistory) : UnderwritingDecision :=
  let creditLimit := creditRecommendation kyaResult in
  let factors :=
    [ {| factorName := "KYA Score";
         impact := if (60 <=? kyaScore kyaResult)%Z then impact_positive
                   else if (40 <=? kyaScore kyaResult)%Z then impact_neutral
                   else impact_negative;
         factorWeight := 30 |};
      {| factorName := "Agent Tier";
         impact := if bool_decide (tier kyaResult = tier_premium) then impact_positive
                   else if bool_decide (tier kyaResult = tier_new) then impact_negative
                   else impact_neutral;
         factorWeight := 20 |} ] in
  let '(creditLimit, factors, conditions) :=
    match transactionHistory with
    | Some h =>
        let '(limit, conds) := history_limit creditLimit h in
        (limit, factors ++ history_factors h, conds)
    | None =>
        (creditLimit,
         factors ++ [ {| factorName := "Transaction History";
                         impact := impact_negative; factorWeight := 25 |} ],
         [NewAgentMinimum])
    end in
  let hasFlags := negb (length (flags kyaResult) =? 0)%nat in
  let mixer := hasFlags && Compliance.includes (flags kyaResult) "MIXER_EXPOSURE" in
  let sybil := hasFlags && Compliance.includes (flags kyaResult) "HIGH_AGENT_COUNT" in
  let factors :=
    if hasFlags
    then factors ++ [ {| factorName := "Risk Flags"; impact := impact_negative;
                         factorWeight := 10 |} ]
    else factors in
  let creditLimit := if mixer then 0 else creditLimit in
  let conditions := conditions ++ (if mixer then [BlockedMixerExposure] else []) in
  let creditLimit := if sybil then Js.Math_min creditLimit (Qc_of_Z 100) else creditLimit in
  let conditions := conditions ++ (if sybil then [CappedSuspectedSybil] else []) in
  let creditLimit :=
    Js.Math_min creditLimit (or_number (tierCaps (tier kyaResult)) (Qc_of_Z 50)) in
  let creditLimit := Vault.Math_round creditLimit in
  let riskScore := (100 - kyaScore kyaResult)%Z in
  let approved :=
    bool_decide (status kyaResult = DB.kya_approved) && (0 <? creditLimit)%Z in
  {| approved := approved; creditLimit := creditLimit;
     decisionTier := tier kyaResult; riskScore := riskScore;
     factors := factors; conditions := conditions |}.

(** *** Ongoing risk scoring *)

(** [calculateRiskScore]; the last three parameters default to 0. *)
Definition calculateRiskScore (totalTransactions totalRepaid totalBorrowed
    delinquentCount accountAgeDays avgTxSize maxTxSize uniqueRecipients : Qc) : Z :=
  let score := 50%Z in
  (* repayment history *)
  let score :=
    if decide (0 < totalBorrowed) then
      let repaymentRatio := totalRepaid / totalBorrowed in
      if decide (Q2Qc (98 # 100) ≤ repaymentRatio) then (score - 20)%Z
      else if decide (Q2Qc (90 # 100) ≤ repaymentRatio) then (score - 15)%Z
      else if decide (Q2Qc (80 # 100) ≤ repaymentRatio) then (score - 10)%Z
      else if decide (Q2Qc (50 # 100) ≤ repaymentRatio) then (score + 5)%Z
      else (score + 25)%Z
    else score in
  (* delinquency *)
  let score :=
    if decide (delinquentCount = 0) then (score - 5)%Z
    else if decide (delinquentCount = 1) then (score + 5)%Z
    else if decide (delinquentCount ≤ Qc_of_Z 3) then (score + 15)%Z
    else (score + 25)%Z in
  (* account age *)
  let score :=
    if decide (Qc_of_Z 180 < accountAgeDays) then (score - 10)%Z
    else if decide (Qc_of_Z 90 < accountAgeDays) then (score - 7)%Z
    else if decide (Qc_of_Z 30 < accountAgeDays) then (score - 3)%Z
    else if decide (accountAgeDays < Qc_of_Z 3) then (score + 10)%Z
    else score in
  (* transaction volume *)
  let score :=
    if decide (Qc_of_Z 200 < totalTransactions) then (score - 8)%Z
    else if decide (Qc_of_Z 50 < totalTransactions) then (score - 5)%Z
    else if decide (Qc_of_Z 10 < totalTransactions) then (score - 2)%Z
    else score in
  (* behavioural anomalies *)
  let score :=
    if bool_decide (avgTxSize * Qc_of_Z 10 < maxTxSize) && bool_decide (0 < avgTxSize)
    then (score + 10)%Z else score in
  let score :=
    if bool_decide (Qc_of_Z 10 < totalTransactions)
       && bool_decide (uniqueRecipients ≤ Qc_of_Z 2)
    then (score + 5)%Z else score in
  (* diversification *)
  let score :=
    if decide (Qc_of_Z 10 ≤ uniqueRecipients) then (score - 5)%Z
    else if decide (Qc_of_Z 5 ≤ uniqueRecipients) then (score - 2)%Z
    else score in
  Z.max 0 (Z.min 100 score).

(** *** Transaction surveillance *)

Inductive Severity := sev_low | sev_medium | sev_high | sev_critical.
Inductive Action := act_log | act_review | act_block | act_freeze.

Record SurveillanceAlert := {
  alertType : string;
  severity : Severity;
  action : Action;
}.

Record TransactionSurveillance := {
  flagged : bool;
  alerts : list SurveillanceAlert;
}.

Record AgentTxHistory := {
  recentTxCount24h : Qc;
  recentVolume24h : Qc;
  avgTxSize : Qc;
  lastTxMinutesAgo : Qc;
}.

(** [cond && alerts.push(alert)] *)
Definition alert_if (cond : bool) (a : SurveillanceAlert) : list SurveillanceAlert :=
  if cond then [a] else [].

Definition blocks (a : SurveillanceAlert) : bool :=
  match action a with
  | act_block | act_freeze => true
  | _ => false
  end.

(** [surveilleTransaction]; the rendered [description] of an alert is
    left out. *)
Definition surveilleTransaction (agent : Compliance.Agent) (recipientAddress : string)
    (amountUsdc : Qc) (agentTxHistory : AgentTxHistory) (d : DB.t)
    : TransactionSurveillance * DB.t :=
  (* rule 1: velocity *)
  let velocity :=
    if decide (Qc_of_Z 100 < recentTxCount24h agentTxHistory)
    then [ {| alertType := "HIGH_VELOCITY"; severity := sev_high;
              action := act_block |} ]
    else if decide (Qc_of_Z 50 < recentTxCount24h agentTxHistory)
    then [ {| alertType := "ELEVATED_VELOCITY"; severity := sev_medium;
              action := act_review |} ]
    else [] in
  (* rule 2: volume spike *)
  let volume :=
    alert_if (bool_decide (Compliance.creditLimitUsdc agent * Qc_of_Z 2
                           < recentVolume24h agentTxHistory))
      {| alertType := "VOLUME_SPIKE"; severity := sev_high; action := act_review |} in
  (* rule 3: size anomaly *)
  let size :=
    alert_if (bool_decide (0 < avgTxSize agentTxHistory)
              && bool_decide (avgTxSize agentTxHistory * Qc_of_Z 5 < amountUsdc))
      {| alertType := "SIZE_ANOMALY"; severity := sev_medium; action := act_review |} in
  (* rule 4: rapid fire *)
  let rapid :=
    alert_if (bool_decide (lastTxMinutesAgo agentTxHistory < Q2Qc (83 # 1000)))
      {| alertType := "RAPID_FIRE"; severity := sev_medium; action := act_log |} in
  (* rule 5: sanctions on the recipient *)
  let '(recipientScreen, d) := Compliance.screenAddress recipientAddress d in
  let sanctioned :=
    alert_if (Compliance.isSanctioned recipientScreen)
      {| alertType := "SANCTIONED_RECIPIENT"; severity := sev_critical;
         action := act_block |} in
  (* rule 6: self-dealing *)
  let self :=
    alert_if (bool_decide (Js.toLowerCase recipientAddress
                           = Js.toLowerCase (Compliance.walletAddress agent)))
      {| alertType := "SELF_DEALING"; severity := sev_high; action := act_block |} in
  (* rule 7: structuring *)
  let structuring :=
    alert_if (bool_decide (Q2Qc (99 # 10) ≤ amountUsdc)
              && bool_decide (amountUsdc ≤ Qc_of_Z 10)
              && bool_decide (Qc_of_Z 5 < recentTxCount24h agentTxHistory))
      {| alertType := "POSSIBLE_STRUCTURING"; severity := sev_medium;
         action := act_review |} in
  (* rule 8: credit maxing *)
  let availableCredit :=
    Compliance.creditLimitUsdc agent - Compliance.usedCreditUsdc agent in
  let maxing :=
    alert_if (bool_decide (0 < availableCredit)
              && bool_decide (Q2Qc (9 # 10) < amountUsdc / availableCredit))
      {| alertType := "CREDIT_MAXING"; severity := sev_low; action := act_log |} in
  let alerts :=
    velocity ++ volume ++ size ++ rapid ++ sanctioned ++ self ++ structuring ++ maxing in
  ({| flagged := existsb blocks alerts; alerts := alerts |}, d).

End Kya.

(** The flags an assessment without sanctions can raise. *)
Definition clean_flags : list string :=
  [ "NEW_OWNER_WALLET"; "LOW_TX_HISTORY"; "LOW_BALANCE"; "VIRGIN_OWNER_WALLET";
    "INVALID_ADDRESS" ]%string.

(** ** Merchant management (core/merchant.ts) *)
Module Merchant.

(** The [Merchant] view of types/index.ts; name, category and
    creation time are not modelled. *)
Record Merchant := {
  id : string;
  walletAddress : string;
  status : DB.MerchantStatus;
  feeBps : Z;
  sanctionsClean : bool;
}.

Inductive MerchantError :=
| MerchantExists (wallet : string)     (* `Merchant with wallet ${w} already exists` *)
| WalletSanctioned (wallet : string)   (* `Wallet ${w} is on sanctions list` *)
| MerchantConstraint (c : Constraint). (* better-sqlite3 constraint failure *)

(** [SELECT * FROM merchants WHERE wallet_address = ?]: is there a row? *)
Definition merchantQueries_getByWallet (wallet : string) (d : DB.t) : bool :=
  bool_decide (map_Exists (λ _ m, DB.merchant_wallet m = wallet) (DB.merchants d)).

Definition with_merchants (f : gmap string DB.MerchantRow → gmap string DB.MerchantRow)
    (d : DB.t) : DB.t :=
  {| DB.agents := DB.agents d; DB.merchants := f (DB.merchants d);
     DB.transactions := DB.transactions d; DB.repayments := DB.repayments d;
     DB.vault := DB.vault d; DB.lender_positions := DB.lender_positions d;
     DB.sanctioned_addresses := DB.sanctioned_addresses d |}.

(** [INSERT INTO merchants (id, wallet_address, name, category, fee_bps)
    VALUES (...)]: [id] PRIMARY KEY, [wallet_address] UNIQUE; status and
    [sanctions_clean] take their defaults 'active' and 1. *)
Definition merchantQueries_create (id wallet : string) (fee : Z) (d : DB.t)
    : option Constraint * DB.t :=
  if bool_decide (is_Some (DB.merchants d !! id)) then (Some PrimaryKey, d)
  else if merchantQueries_getByWallet wallet d then (Some UniqueKey, d)
  else (None,
        with_merchants
          (insert id {| DB.merchant_wallet := wallet;
                        DB.merchant_status := DB.merchant_active;
                        DB.fee_bps := fee; DB.sanctions_clean := 1 |}) d).

(** [registerMerchant]; [merchantId] is the value [uuid()] yields,
    [MERCHANT_FEE_BPS] the configured default rate. *)
Definition registerMerchant (merchantId : string) (MERCHANT_FEE_BPS : Z)
    (walletAddress : string) (feeBps : option Z) (d : DB.t)
    : (MerchantError + Merchant) * DB.t :=
  let normalizedAddress := Js.toLowerCase walletAddress in
  if merchantQueries_getByWallet normalizedAddress d
  then (inl (MerchantExists walletAddress), d)
  else
    let '(sanctions, d) := Compliance.screenAddress normalizedAddress d in
    if Compliance.isSanctioned sanctions
    then (inl (WalletSanctioned walletAddress), d)
    else
      let fee := default MERCHANT_FEE_BPS feeBps in
      match merchantQueries_create merchantId normalizedAddress fee d with
      | (Some c, d) => (inl (MerchantConstraint c), d)
      | (None, d) =>
          (inr {| id := merchantId; walletAddress := normalizedAddress;
                  status := DB.merchant_active; feeBps := fee;
                  sanctionsClean := true |}, d)
      end.

(** [getMerchant] *)
Definition getMerchant (merchantId : string) (d : DB.t) : option Merchant :=
  match DB.merchantQueries_getById merchantId d with
  | None => None
  | Some raw =>
      Some {| id := merchantId; walletAddress := DB.merchant_wallet raw;
              status := DB.merchant_status raw; feeBps := DB.fee_bps raw;
              sanctionsClean := negb (DB.sanctions_clean raw =? 0)%Z |}
  end.

End Merchant.

(** Merchant wallets are stored in lower case and no two merchants
    share one. *)
Definition merchant_wallets_normal (d : DB.t) : Prop :=
  (∀ i m, DB.merchants d !! i = Some m →
     Js.toLowerCase (DB.merchant_wallet m) = DB.merchant_wallet m)
  ∧ ∀ i j mi mj, DB.merchants d !! i = Some mi → DB.merchants d !! j = Some mj →
      DB.merchant_wallet mi = DB.merchant_wallet mj → i = j.

(** Two stores that differ at most in the merchants table. *)
Definition same_but_merchants (d d' : DB.t) : Prop :=
  DB.agents d' = DB.agents d ∧ DB.transactions d' = DB.transactions d
  ∧ DB.repayments d' = DB.repayments d ∧ DB.vault d' = DB.vault d
  ∧ DB.lender_positions d' = DB.lender_positions d
  ∧ DB.sanctioned_addresses d' = DB.sanctioned_addresses d.

(** ** The credit line (core/payment.ts, [getCreditLine]) *)
Module Credit.

#[global] Instance TransactionType_eq_dec : EqDecision DB.TransactionType.
Proof. solve_decision. Defined.

(** [LIMIT ? OFFSET ?] as SQLite reads it: a negative limit is no
    limit, a negative offset is 0. *)
Definition limit_offset {A} (limit offset : Z) (rows : list A) : list A :=
  let rows := drop (Z.to_nat offset) rows in
  if (limit <? 0)%Z then rows else take (Z.to_nat limit) rows.

(** [SELECT * FROM repayments WHERE agent_id = ? ORDER BY created_at DESC
    LIMIT ? OFFSET ?]; [repayments] holds the rows in insertion order. *)
Definition repaymentQueries_getByAgent (created_at : string → Z) (agentId : string)
    (limit offset : Z) (d : DB.t) : list DB.RepaymentRow :=
  limit_offset limit offset
    (DB.order_by_desc (λ r, created_at (DB.repayment_id r))
       (filter (λ r, DB.repayment_agent_id r = agentId) (DB.repayments d))).

(** [SELECT * FROM transactions WHERE agent_id = ? ORDER BY created_at DESC
    LIMIT ? OFFSET ?]; [transactions] holds the rows in insertion order. *)
Definition txQueries_getByAgent (created_at : string → Z) (agentId : string)
    (limit offset : Z) (d : DB.t) : list DB.TxRow :=
  limit_offset limit offset
    (DB.order_by_desc (λ t, created_at (DB.tx_id t))
       (filter (λ t, DB.tx_agent_id t = agentId) (DB.transactions d))).

(** What [getCreditLine] returns; [repaymentDueDate] is the time value
    (milliseconds since the epoch) of the date that [toISOString]
    formats. *)
Record CreditLine := {
  agentId : string;
  creditLimitUsdc : Qc;
  usedCreditUsdc : Qc;
  availableCreditUsdc : Qc;
  repaymentDueDate : Z;
  isDelinquent : bool;
  totalRepaid : Qc;
  totalBorrowed : Qc;
}.

Inductive CreditLineError :=
| CreditAgentNotFound (agentId : string)   (* `Agent ${agentId} not found` *)
| InvalidTimeValue.                        (* RangeError of [toISOString] *)

Definition Math_floor (q : Qc) : Z := Qfloor q.
Definition Math_ceil (q : Qc) : Z := Qceiling q.

Definition msPerDay : Z := 24 * 60 * 60 * 1000.

(** The time value of [new Date(ms)]: none beyond 8.64e15 milliseconds
    either side of the epoch, else [ms] without its fraction. *)
Definition Date_of (ms : Qc) : option Z :=
  if decide (Qc_of_Z (-8640000000000000) ≤ ms ∧ ms ≤ Qc_of_Z 8640000000000000)
  then Some (if decide (0 ≤ ms) then Qfloor ms else Qceiling ms)
  else None.

(** [getCreditLine]; [now] is [new Date().getTime()], [created_at] the
    column of that name in [repayments] and [transactions].  With a
    period of 0 the day count is divided by zero, the product with 0 is
    NaN and [toISOString] throws. *)
Definition getCreditLine (REPAYMENT_PERIOD_DAYS : Qc) (now : Z)
    (created_at : string → Z) (agentId : string)
    (d : DB.t) : CreditLineError + CreditLine :=
  match DB.agentQueries_getById agentId d with
  | None => inl (CreditAgentNotFound agentId)
  | Some agent =>
      let repayments := repaymentQueries_getByAgent created_at agentId 100 0 d in
      let totalRepaid :=
        fold_left (λ sum r, sum + DB.repayment_amount_usdc r) repayments 0 in
      let transactions := txQueries_getByAgent created_at agentId 1000 0 d in
      let totalBorrowed :=
        fold_left (λ sum t, sum + DB.amount_usdc t)
          (filter (λ t, DB.tx_status t = DB.tx_confirmed ∧ DB.tx_type t ≠ DB.repayment)
                  transactions) 0 in
      let daysSinceEpoch := Math_floor (Qc_of_Z now / Qc_of_Z msPerDay) in
      if decide (REPAYMENT_PERIOD_DAYS = 0) then inl InvalidTimeValue
      else
        let nextRepaymentDay :=
          Qc_of_Z (Math_ceil (Qc_of_Z daysSinceEpoch / REPAYMENT_PERIOD_DAYS))
          * REPAYMENT_PERIOD_DAYS in
        match Date_of (nextRepaymentDay * Qc_of_Z msPerDay) with
        | None => inl InvalidTimeValue
        | Some repaymentDueDate =>
            inr {| agentId := agentId;
                   creditLimitUsdc := DB.credit_limit_usdc agent;
                   usedCreditUsdc := DB.used_credit_usdc agent;
                   availableCreditUsdc :=
                     DB.credit_limit_usdc agent - DB.used_credit_usdc agent;
                   repaymentDueDate := repaymentDueDate;
                   isDelinquent := bool_decide (DB.status agent = DB.agent_delinquent);
                   totalRepaid := totalRepaid;
                   totalBorrowed := totalBorrowed |}
        end
  end.

End Credit.

(** ** Scheduled jobs (core/scheduler.ts) *)
Module Scheduler.

(** [COALESCE(SUM(...), 0)] *)
Definition SUM {A} (f : A → Qc) (rows : list A) : Qc :=
  fold_left (λ sum r, sum + f r) rows 0.

(** [checkDelinquencies].  The rows selected are the active agents with
    a positive balance; [daysSinceRepayment id] stands for the days from
    the agent's last repayment, or without one from its creation, to
    now. *)
Definition checkDelinquencies (REPAYMENT_PERIOD_DAYS : Qc)
    (daysSinceRepayment : string → Qc) (d : DB.t) : DB.t :=
  let agents :=
    filter (λ ia, 0 < DB.used_credit_usdc ia.2 ∧ DB.status ia.2 = DB.agent_active)
           (map_to_list (DB.agents d)) in
  fold_left
    (λ d agent,
       if decide (REPAYMENT_PERIOD_DAYS * Q2Qc (15 # 10) < daysSinceRepayment agent.1)
       then DB.agentQueries_updateStatus DB.agent_delinquent agent.1 d
       else d)
    agents d.

(** The score that [recalculateRiskScores] computes for one agent:
    [calculateRiskScore] with its last three parameters left at their
    defaults.  Every repayment row is written with status "confirmed"
    and none is ever updated, so the sum over confirmed rows is the sum
    over all the agent's rows and the count of failed rows is 0. *)
Definition newScore (ageDays : Qc) (agentId : string) (d : DB.t) : Z :=
  let txCount :=
    length (filter (λ t, DB.tx_agent_id t = agentId) (DB.transactions d)) in
  let repayments :=
    SUM DB.repayment_amount_usdc
      (filter (λ r, DB.repayment_agent_id r = agentId) (DB.repayments d)) in
  let borrowed :=
    SUM DB.amount_usdc
      (filter (λ t, DB.tx_agent_id t = agentId ∧ DB.tx_status t = DB.tx_confirmed
                    ∧ DB.tx_type t ≠ DB.repayment) (DB.transactions d)) in
  let delinquentCount := 0 in
  Kya.calculateRiskScore (Qc_of_Z (Z.of_nat txCount)) repayments borrowed
    delinquentCount ageDays 0 0 0.

(** [recalculateRiskScores]; [ageDays id] is the age of the agent's row
    in days. *)
Definition recalculateRiskScores (ageDays : string → Qc) (d : DB.t) : DB.t :=
  let agents :=
    filter (λ ia, DB.status ia.2 ≠ DB.agent_closed) (map_to_list (DB.agents d)) in
  fold_left
    (λ d agent,
       Kya.agentQueries_updateRiskScore (newScore (ageDays agent.1) agent.1 d) agent.1 d)
    agents d.

End Scheduler.


(** Two stores that differ at most in the agents table. *)
Definition same_but_agents (d d' : DB.t) : Prop :=
  DB.merchants d' = DB.merchants d ∧ DB.transactions d' = DB.transactions d
  ∧ DB.repayments d' = DB.repayments d ∧ DB.vault d' = DB.vault d
  ∧ DB.lender_positions d' = DB.lender_positions d
  ∧ DB.sanctioned_addresses d' = DB.sanctioned_addresses d.

(** ** The read routes of the payments router (api/payments.ts) *)
Module PaymentsRouter.

Inductive ErrorCode := NOT_FOUND | FORBIDDEN.

(** A JSON answer: the status code with the [data] of a success or the
    [error.code] of a failure. *)
Inductive Response (A : Type) : Type :=
| Success (statusCode : Z) (data : A)
| Failure (statusCode : Z) (code : ErrorCode).
Arguments Success {A} statusCode data.
Arguments Failure {A} statusCode code.

(** The [data] of [GET /:id]. *)
Record TransactionData := {
  id : string;
  agentId : string;
  merchantId : option string;
  amountUsdc : Qc;
  feeUsdc : Qc;
  netAmountUsdc : Qc;
  status : DB.TransactionStatus;
  type : DB.TransactionType;
  txHash : option string;
  recipientAddress : string;
  memo : option string;
  permissionChecks : DB.PermissionCheckResult;
  settledAt : bool;
}.

Definition transaction_data (tx : DB.TxRow) : TransactionData :=
  {| id := DB.tx_id tx; agentId := DB.tx_agent_id tx; merchantId := DB.merchant_id tx;
     amountUsdc := DB.amount_usdc tx; feeUsdc := DB.fee_usdc tx;
     netAmountUsdc := DB.net_amount_usdc tx; status := DB.tx_status tx;
     type := DB.tx_type tx; txHash := DB.tx_hash tx;
     recipientAddress := DB.recipient_address tx; memo := DB.memo tx;
     permissionChecks := DB.permission_checks tx; settledAt := DB.settled_at tx |}.

(** [GET /:id]; [reqAgentId] is the id that [authenticate] attached to
    the request. *)
Definition get_payment (reqAgentId : string) (paramsId : string) (d : DB.t)
    : Response TransactionData :=
  match DB.txQueries_getById paramsId d with
  | None => Failure 404 NOT_FOUND
  | Some tx =>
      if negb (bool_decide (DB.tx_agent_id tx = reqAgentId))
      then Failure 403 FORBIDDEN
      else Success 200 (transaction_data tx)
  end.

(** One element of the [data] of [GET /]. *)
Record ListItem := {
  item_id : string;
  item_amountUsdc : Qc;
  item_feeUsdc : Qc;
  item_status : DB.TransactionStatus;
  item_type : DB.TransactionType;
  item_txHash : option string;
  item_recipientAddress : string;
  item_settledAt : bool;
}.

Definition list_item (tx : DB.TxRow) : ListItem :=
  {| item_id := DB.tx_id tx; item_amountUsdc := DB.amount_usdc tx;
     item_feeUsdc := DB.fee_usdc tx; item_status := DB.tx_status tx;
     item_type := DB.tx_type tx; item_txHash := DB.tx_hash tx;
     item_recipientAddress := DB.recipient_address tx;
     item_settledAt := DB.settled_at tx |}.

Record Pagination := { page : Z; pageSize : Z; hasMore : bool }.

(** [parseInt(s) || dflt]: [parsed] is what [parseInt] yields, [None]
    for NaN. *)
Definition parseInt_or (parsed : option Z) (dflt : Z) : Z :=
  match parsed with
  | Some k => if (k =? 0)%Z then dflt else k
  | None => dflt
  end.

(** [GET /]; [created_at] is the column of that name in [transactions]. *)
Definition list_payments (created_at : string → Z) (reqAgentId : string)
    (queryPage queryPageSize : option Z) (d : DB.t) : list ListItem * Pagination :=
  let page := parseInt_or queryPage 1 in
  let pageSize := Z.min (parseInt_or queryPageSize 20) 100 in
  let rows :=
    Credit.txQueries_getByAgent created_at reqAgentId pageSize
      ((page - 1) * pageSize) d in
  (map list_item rows,
   {| page := page; pageSize := pageSize;
      hasMore := bool_decide (Z.of_nat (length rows) = pageSize) |}).

End PaymentsRouter.

(** The agent's transactions as [ORDER BY created_at DESC] yields them:
    the later seconds first, the rows of one second in insertion order. *)
Definition history (created_at : string → Z) (agentId : string) (d : DB.t)
    : list DB.TxRow :=
  DB.order_by_desc (λ t, created_at (DB.tx_id t))
    (filter (λ t, DB.tx_agent_id t = agentId) (DB.transactions d)).

(** ** The amounts as IEEE doubles

    The amounts of the source are JavaScript numbers and SQLite REALs,
    IEEE 754 binary64.  This module repeats on Rocq's primitive [float]
    (the same format, with the same round-to-nearest [+], [-], [*], [/]
    and the same comparisons) what the code computes on amounts: of the
    vault engine (vault/index.ts) [getVaultState], [getSharePrice],
    [processDeposit], [processWithdrawal], [processFeeIntoVault],
    [reserveLiquidity] and [returnLiquidity], and of [processPayment]
    (core/payment.ts) the way of the amounts through fee, credit check,
    reservation, debit, fee injection and roll-back.  The store is cut
    down to the amount columns of [agents], the [vault] row and
    [lender_positions]; what [processPayment] decides without computing
    on amounts is its argument [Course]. *)
Module Doubles.
Import PrimFloat.
Local Open Scope float_scope.

(** The double that a decimal literal with [places] digits after the
    point denotes, in JavaScript source as in a JSON body: the double
    nearest to [digits / 10^places].  With [digits] and [10^places]
    below 2^53 both operands are exact, and [/] rounds to nearest. *)
Definition dec (digits places : Z) : float :=
  of_uint63 (Uint63.of_Z digits) / of_uint63 (Uint63.of_Z (10 ^ places)).

(** [Math.min] on two numbers: NaN when either is NaN, and -0 below
    +0. *)
Definition Math_min (a b : float) : float :=
  if is_nan a || is_nan b then nan
  else if a <? b then a
  else if b <? a then b
  else match classify a with FloatClass.NZero => a | _ => b end.

Inductive Error :=
| AgentNotFound (agentId : string)            (* `Agent ${id} not found` *)
| VaultNotInitialized                         (* "Vault not initialized" *)
| InsufficientVaultLiquidity (wanted available : float)
                                              (* `Insufficient vault liquidity: ...` *)
| VaultLiquidityError (inner : Error)         (* `Vault liquidity error: ${error.message}` *)
| InsufficientShares (sharesToBurn : float)   (* `Insufficient shares: could not burn ...` *)
| NotNullConstraint                           (* SqliteError, NOT NULL constraint failed *)
| PrimaryKeyConstraint                        (* SqliteError, UNIQUE constraint failed *)
| SettlementError.                            (* an exception of the [try] block *)

Inductive outcome (A : Type) : Type :=
| Returned (a : A)
| Threw (e : Error).
Arguments Returned {A} a.
Arguments Threw {A} e.

(** The amount columns of [agents]. *)
Record AgentRow := {
  credit_limit_usdc : float;
  used_credit_usdc : float;
}.

Record VaultRow := {
  total_deposits_usdc : float;
  total_lent_usdc : float;
  total_fees_earned_usdc : float;
  total_shares : float;
}.

Record PositionRow := {
  position_id : string;
  lender_address : string;
  deposited_usdc : float;
  shares_owned : float;
  earned_yield_usdc : float;
  deposit_tx_hash : string;
}.

(** The store: [agents] by id, the one [vault] row if [migrate] has
    created it, [lender_positions] with the last insert first. *)
Record t := {
  agents : gmap string AgentRow;
  vault : option VaultRow;
  lender_positions : list PositionRow;
}.

Definition with_agents (f : gmap string AgentRow → gmap string AgentRow) (d : t) : t :=
  {| agents := f (agents d); vault := vault d; lender_positions := lender_positions d |}.

Definition set_vault (v : VaultRow) (d : t) : t :=
  {| agents := agents d; vault := Some v; lender_positions := lender_positions d |}.

Definition with_positions (f : list PositionRow → list PositionRow) (d : t) : t :=
  {| agents := agents d; vault := vault d; lender_positions := f (lender_positions d) |}.

(** *** The statements (db/index.ts)

    Every amount column is REAL NOT NULL.  SQLite binds a NaN as NULL
    and turns a NaN result of [+] or [-] into NULL, so a statement that
    would store a NaN fails on the column's NOT NULL and changes
    nothing. *)

(** [UPDATE agents SET used_credit_usdc = ? WHERE id = ?] *)
Definition agentQueries_updateCredit (used : float) (id : string) (d : t)
    : outcome unit * t :=
  match agents d !! id with
  | None => (Returned (), d)
  | Some a =>
      if is_nan used then (Threw NotNullConstraint, d)
      else (Returned (),
            with_agents (insert id {| credit_limit_usdc := credit_limit_usdc a;
                                      used_credit_usdc := used |}) d)
  end.

(** [UPDATE vault SET total_deposits_usdc = total_deposits_usdc + ?,
    total_shares = total_shares + ? WHERE id = 1] *)
Definition vaultQueries_updateDeposit (amount shares : float) (d : t)
    : outcome unit * t :=
  match vault d with
  | None => (Returned (), d)
  | Some v =>
      let deposits := total_deposits_usdc v + amount in
      let shares := total_shares v + shares in
      if is_nan deposits || is_nan shares then (Threw NotNullConstraint, d)
      else (Returned (),
            set_vault {| total_deposits_usdc := deposits;
                         total_lent_usdc := total_lent_usdc v;
                         total_fees_earned_usdc := total_fees_earned_usdc v;
                         total_shares := shares |} d)
  end.

(** [UPDATE vault SET total_lent_usdc = total_lent_usdc + ? WHERE id = 1] *)
Definition vaultQueries_updateLent (amount : float) (d : t) : outcome unit * t :=
  match vault d with
  | None => (Returned (), d)
  | Some v =>
      let lent := total_lent_usdc v + amount in
      if is_nan lent then (Threw NotNullConstraint, d)
      else (Returned (),
            set_vault {| total_deposits_usdc := total_deposits_usdc v;
                         total_lent_usdc := lent;
                         total_fees_earned_usdc := total_fees_earned_usdc v;
                         total_shares := total_shares v |} d)
  end.

(** [UPDATE vault SET total_fees_earned_usdc = total_fees_earned_usdc + ?,
    total_deposits_usdc = total_deposits_usdc + ? WHERE id = 1] *)
Definition vaultQueries_addFees (fees deposits : float) (d : t) : outcome unit * t :=
  match vault d with
  | None => (Returned (), d)
  | Some v =>
      let fees := total_fees_earned_usdc v + fees in
      let deposits := total_deposits_usdc v + deposits in
      if is_nan fees || is_nan deposits then (Threw NotNullConstraint, d)
      else (Returned (),
            set_vault {| total_deposits_usdc := deposits;
                         total_lent_usdc := total_lent_usdc v;
                         total_fees_earned_usdc := fees;
                         total_shares := total_shares v |} d)
  end.

(** [UPDATE vault SET total_deposits_usdc = total_deposits_usdc - ?,
    total_shares = total_shares - ? WHERE id = 1] *)
Definition vaultQueries_updateWithdraw (amount shares : float) (d : t)
    : outcome unit * t :=
  match vault d with
  | None => (Returned (), d)
  | Some v =>
      let deposits := total_deposits_usdc v - amount in
      let shares := total_shares v - shares in
      if is_nan deposits || is_nan shares then (Threw NotNullConstraint, d)
      else (Returned (),
            set_vault {| total_deposits_usdc := deposits;
                         total_lent_usdc := total_lent_usdc v;
                         total_fees_earned_usdc := total_fees_earned_usdc v;
                         total_shares := shares |} d)
  end.

(** [UPDATE vault SET total_lent_usdc = total_lent_usdc - ? WHERE id = 1] *)
Definition vaultQueries_returnLent (amount : float) (d : t) : outcome unit * t :=
  match vault d with
  | None => (Returned (), d)
  | Some v =>
      let lent := total_lent_usdc v - amount in
      if is_nan lent then (Threw NotNullConstraint, d)
      else (Returned (),
            set_vault {| total_deposits_usdc := total_deposits_usdc v;
                         total_lent_usdc := lent;
                         total_fees_earned_usdc := total_fees_earned_usdc v;
                         total_shares := total_shares v |} d)
  end.

(** [INSERT INTO lender_positions (id, lender_address, deposited_usdc,
    shares_owned, deposit_tx_hash)]: NOT NULL is checked before the
    PRIMARY KEY; [earned_yield_usdc] takes its default 0. *)
Definition lenderQueries_create (id lender : string) (amount shares : float)
    (txHash : string) (d : t) : outcome unit * t :=
  if is_nan amount || is_nan shares then (Threw NotNullConstraint, d)
  else if existsb (λ p, bool_decide (position_id p = id)) (lender_positions d)
  then (Threw PrimaryKeyConstraint, d)
  else (Returned (),
        with_positions
          (cons {| position_id := id; lender_address := lender;
                   deposited_usdc := amount; shares_owned := shares;
                   earned_yield_usdc := 0; deposit_tx_hash := txHash |}) d).

(** [SELECT * FROM lender_positions WHERE lender_address = ? ORDER BY
    created_at DESC] *)
Definition lenderQueries_getByAddress (created_at : string → Z) (lender : string)
    (d : t) : list PositionRow :=
  DB.order_by_desc (λ p, created_at (position_id p))
    (rev (List.filter (λ p, bool_decide (lender_address p = lender))
            (lender_positions d))).

(** [UPDATE lender_positions SET shares_owned = shares_owned - ?,
    earned_yield_usdc = earned_yield_usdc + ? WHERE id = ?] *)
Definition lenderQueries_updateShares (burned yield : float) (id : string) (d : t)
    : outcome unit * t :=
  if existsb (λ p, bool_decide (position_id p = id)
                   && (is_nan (shares_owned p - burned)
                       || is_nan (earned_yield_usdc p + yield)))
       (lender_positions d)
  then (Threw NotNullConstraint, d)
  else (Returned (),
        with_positions
          (map (λ p, if bool_decide (position_id p = id)
                     then {| position_id := position_id p;
                             lender_address := lender_address p;
                             deposited_usdc := deposited_usdc p;
                             shares_owned := shares_owned p - burned;
                             earned_yield_usdc := earned_yield_usdc p + yield;
                             deposit_tx_hash := deposit_tx_hash p |}
                     else p)) d).

(** *** The vault engine (vault/index.ts) *)

(** The [Vault] view returned by [getVaultState], without
    [currentApyBps], which no function of this module reads (its
    computation, [calculateAPY], cannot throw). *)
Record Vault := {
  totalDepositsUsdc : float;
  totalLentUsdc : float;
  availableLiquidityUsdc : float;
  totalFeesEarnedUsdc : float;
  totalShares : float;
}.

Definition getVaultState (d : t) : outcome Vault :=
  match vault d with
  | None => Threw VaultNotInitialized
  | Some raw =>
      let totalDeposits := total_deposits_usdc raw in
      let totalLent := total_lent_usdc raw in
      Returned
        {| totalDepositsUsdc := totalDeposits;
           totalLentUsdc := totalLent;
           availableLiquidityUsdc := totalDeposits - totalLent;
           totalFeesEarnedUsdc := total_fees_earned_usdc raw;
           totalShares := total_shares raw |}
  end.

Definition getSharePrice (d : t) : outcome float :=
  match getVaultState d with
  | Threw e => Threw e
  | Returned vault =>
      if totalShares vault =? 0 then Returned 1
      else Returned (totalDepositsUsdc vault / totalShares vault)
  end.

(** [processDeposit]; [positionId] is the value [uuid()] yields.  The
    insert and the vault update run in one store transaction. *)
Definition processDeposit (positionId : string)
    (lenderAddress : string) (amountUsdc : float) (depositTxHash : string)
    (d : t) : outcome PositionRow * t :=
  match getSharePrice d with
  | Threw e => (Threw e, d)
  | Returned sharePrice =>
      let sharesIssued := amountUsdc / sharePrice in
      match lenderQueries_create positionId (Js.toLowerCase lenderAddress)
              amountUsdc sharesIssued depositTxHash d with
      | (Threw e, _) => (Threw e, d)
      | (Returned _, d1) =>
          match vaultQueries_updateDeposit amountUsdc sharesIssued d1 with
          | (Threw e, _) => (Threw e, d)
          | (Returned _, d2) =>
              (Returned {| position_id := positionId;
                           lender_address := Js.toLowerCase lenderAddress;
                           deposited_usdc := amountUsdc;
                           shares_owned := sharesIssued;
                           earned_yield_usdc := 0;
                           deposit_tx_hash := depositTxHash |}, d2)
          end
      end
  end.

(** The [for (const pos of positions)] loop of [processWithdrawal]. *)
Fixpoint burn_positions (sharePrice : float) (positions : list PositionRow)
    (remainingShares totalOriginalValue : float) (d : t)
    : outcome (float * float) * t :=
  match positions with
  | [] => (Returned (remainingShares, totalOriginalValue), d)
  | pos :: rest =>
      if remainingShares <=? 0
      then (Returned (remainingShares, totalOriginalValue), d)
      else
        let burnFromThis := Math_min (shares_owned pos) remainingShares in
        let originalValue := burnFromThis / shares_owned pos * deposited_usdc pos in
        let totalOriginalValue := totalOriginalValue + originalValue in
        let yieldForThis := burnFromThis * sharePrice - originalValue in
        match lenderQueries_updateShares burnFromThis yieldForThis (position_id pos) d with
        | (Threw e, d) => (Threw e, d)
        | (Returned _, d) =>
            burn_positions sharePrice rest (remainingShares - burnFromThis)
              totalOriginalValue d
        end
  end.

Record WithdrawalResult := { amountUsdc : float; yieldEarned : float }.

(** [processWithdrawal]; the loop, the share check and the vault update
    run in one store transaction. *)
Definition processWithdrawal (created_at : string → Z) (lenderAddress : string)
    (sharesToBurn : float) (d : t) : outcome WithdrawalResult * t :=
  match getVaultState d, getSharePrice d with
  | Threw e, _ | _, Threw e => (Threw e, d)
  | Returned vault, Returned sharePrice =>
      let amountUsdc := sharesToBurn * sharePrice in
      if availableLiquidityUsdc vault <? amountUsdc
      then (Threw (InsufficientVaultLiquidity amountUsdc (availableLiquidityUsdc vault)), d)
      else
        let positions :=
          lenderQueries_getByAddress created_at (Js.toLowerCase lenderAddress) d in
        match burn_positions sharePrice positions sharesToBurn 0 d with
        | (Threw e, _) => (Threw e, d)
        | (Returned (remainingShares, totalOriginalValue), d1) =>
            if dec 1 3 <? remainingShares
            then (Threw (InsufficientShares sharesToBurn), d)
            else
              match vaultQueries_updateWithdraw amountUsdc sharesToBurn d1 with
              | (Threw e, _) => (Threw e, d)
              | (Returned _, d2) =>
                  (Returned {| amountUsdc := amountUsdc;
                               yieldEarned := amountUsdc - totalOriginalValue |}, d2)
              end
        end
  end.

Definition processFeeIntoVault (feeUsdc : float) (d : t) : outcome unit * t :=
  if feeUsdc <=? 0 then (Returned (), d)
  else vaultQueries_addFees feeUsdc feeUsdc d.

Definition reserveLiquidity (amountUsdc : float) (d : t) : outcome unit * t :=
  match getVaultState d with
  | Threw e => (Threw e, d)
  | Returned vault =>
      if availableLiquidityUsdc vault <? amountUsdc
      then (Threw (InsufficientVaultLiquidity amountUsdc (availableLiquidityUsdc vault)), d)
      else vaultQueries_updateLent amountUsdc d
  end.

Definition returnLiquidity (amountUsdc : float) (d : t) : outcome unit * t :=
  vaultQueries_returnLent amountUsdc d.

(** *** The amounts in [processPayment] (core/payment.ts) *)

Record PaymentRequest := {
  agentId : string;
  requestedUsdc : float;      (* [amountUsdc] of the request *)
}.

(** How the [try] block ends: without the agent's shard the request is
    answered "signing"; with it, an exception comes either before the
    fee is processed (decryption, [BigInt], the provider, a broadcast
    that is not confirmed) or after it (the confirmed path ends in the
    ReferenceError on [signResult]). *)
Inductive Settlement := AwaitsShard | FailsBeforeFee | FailsAfterFee.

(** What [processPayment] decides without computing on amounts, for a
    request under a new idempotency key whose transaction row can be
    inserted: the fee rate of step 3 (the merchant's [fee_bps] or
    [config.MERCHANT_FEE_BPS]), the gates of [runPermissionChecks]
    other than the credit check, and the end of the [try] block. *)
Record Course := {
  feeBps : float;
  sanctionsCheck : bool;
  merchantCheck : bool;
  kyaCheck : bool;
  riskCheck : bool;
  settlement : Settlement;
}.

Inductive Status := rejected | signing.

Record PaymentResult := {
  status : Status;
  creditCheck : bool;
  feeUsdc : float;
  netAmountUsdc : float;
}.

(** [processPayment], steps 2 to 11 with the [catch]. *)
Definition processPayment (c : Course) (req : PaymentRequest) (d : t)
    : outcome PaymentResult * t :=
  (* 2. load agent *)
  match agents d !! agentId req with
  | None => (Threw (AgentNotFound (agentId req)), d)
  | Some agentRaw =>
  (* 3. fees *)
  let feeUsdc := requestedUsdc req * feeBps c / 10000 in
  let netAmountUsdc := requestedUsdc req - feeUsdc in
  (* 4. permission checks: the credit check of [runPermissionChecks] *)
  let availableCredit := credit_limit_usdc agentRaw - used_credit_usdc agentRaw in
  let creditCheck := requestedUsdc req <=? availableCredit in
  let allPassed :=
    creditCheck && sanctionsCheck c && merchantCheck c && kyaCheck c && riskCheck c in
  (* 5. transaction record: amount_usdc, fee_usdc, net_amount_usdc *)
  if is_nan (requestedUsdc req) || is_nan feeUsdc || is_nan netAmountUsdc
  then (Threw NotNullConstraint, d)
  else
  (* 6. rejection *)
  if negb allPassed then
    (Returned {| status := rejected; creditCheck := creditCheck;
                 feeUsdc := feeUsdc; netAmountUsdc := netAmountUsdc |}, d)
  else
  (* 7. reserve liquidity *)
  match reserveLiquidity netAmountUsdc d with
  | (Threw error, d) => (Threw (VaultLiquidityError error), d)
  | (Returned _, d) =>
  (* 8. used credit *)
  let newUsedCredit := used_credit_usdc agentRaw + requestedUsdc req in
  match agentQueries_updateCredit newUsedCredit (agentId req) d with
  | (Threw e, d) => (Threw e, d)
  | (Returned _, d) =>
  (* 9 to 11. the [try] block *)
  let attempt : outcome PaymentResult * t :=
    match settlement c with
    | AwaitsShard =>
        (Returned {| status := signing; creditCheck := creditCheck;
                     feeUsdc := feeUsdc; netAmountUsdc := netAmountUsdc |}, d)
    | FailsBeforeFee => (Threw SettlementError, d)
    | FailsAfterFee =>
        match processFeeIntoVault feeUsdc d with
        | (Threw e, d) => (Threw e, d)
        | (Returned _, d) => (Threw SettlementError, d)
        end
    end in
  match attempt with
  | (Returned result, d) => (Returned result, d)
  | (Threw error, d) =>
      (* the [catch] block *)
      match returnLiquidity netAmountUsdc d with
      | (Threw e, d) => (Threw e, d)
      | (Returned _, d) =>
          match agentQueries_updateCredit (used_credit_usdc agentRaw) (agentId req) d with
          | (Threw e, d) => (Threw e, d)
          | (Returned _, d) => (Threw error, d)
          end
      end
  end end end end.

End Doubles.

(** ** Concrete data: the ledger in doubles *)
Module DoublesScenario.
Import Doubles.
Local Open Scope string_scope.

(** An agent with the credit limit [limit] and nothing used, over the
    vault as [migrate] creates it. *)
Definition db_init (limit : PrimFloat.float) : Doubles.t :=
  {| agents := {[ "agent-1" := {| credit_limit_usdc := limit;
                                   used_credit_usdc := PrimFloat.zero |} ]};
     vault := Some {| total_deposits_usdc := PrimFloat.zero;
                      total_lent_usdc := PrimFloat.zero;
                      total_fees_earned_usdc := PrimFloat.zero;
                      total_shares := PrimFloat.zero |};
     lender_positions := [] |}.

(** That store after a lender's deposit of [amount]. *)
Definition db_funded (limit amount : PrimFloat.float) : Doubles.t :=
  (processDeposit "pos-1" "0xC0FFEE" amount "0xd1" (db_init limit)).2.

(** A spend at 150 bps that passes every gate but, possibly, the credit
    check, as a spend of an active, approved agent with a low risk score
    to an unsanctioned recipient does. *)
Definition course (s : Settlement) : Course :=
  {| feeBps := dec 150 0; sanctionsCheck := true; merchantCheck := true;
     kyaCheck := true; riskCheck := true; settlement := s |}.

Definition spend (amount : PrimFloat.float) : PaymentRequest :=
  {| agentId := "agent-1"; requestedUsdc := amount |}.

End DoublesScenario.

(** * Properties *)

(** ** Arithmetic on [Qc] *)

(** Orders and equations on [Qc] are those of the underlying [Q]. *)
Ltac qc_unfold :=
  unfold Qcle, Qclt, Qcminus, Qcopp, Qcplus, Qcmult in *;
  cbn [this Q2Qc] in *;
  rewrite ?Qred_correct in *.

Ltac qc_lra := qc_unfold; lra.

Lemma Math_min_le_l (a b : Qc) : Js.Math_min a b ≤ a.
Proof.
  unfold Js.Math_min. destruct (decide (a ≤ b)) as [H|H]; [apply Qcle_refl|].
  apply Qclt_le_weak, Qcnot_le_lt, H.
Qed.

Lemma Math_min_le_r (a b : Qc) : Js.Math_min a b ≤ b.
Proof.
  unfold Js.Math_min. destruct (decide (a ≤ b)) as [H|H]; [exact H|apply Qcle_refl].
Qed.

Lemma Math_min_cases (a b : Qc) : Js.Math_min a b = a ∨ Js.Math_min a b = b.
Proof. unfold Js.Math_min. destruct (decide (a ≤ b)); auto. Qed.

(** ** The vault: reserving liquidity *)

(** C10. [reserveLiquidity amount] throws the insufficient-liquidity
    error exactly when [amount] exceeds [totalDeposits - totalLent], and
    then leaves the store as it was; otherwise it adds [amount] to
    [total_lent_usdc] and changes nothing else.  The sign of [amount] is
    not looked at: a negative amount within the available liquidity goes
    through and lowers [total_lent_usdc]. *)
Theorem reserveLiquidity_spec (amount : Qc) (d : DB.t) (v : DB.VaultRow) :
  DB.vault d = Some v →
  let available := DB.total_deposits_usdc v - DB.total_lent_usdc v in
  ((∃ e, (Vault.reserveLiquidity amount d).1 = Threw e) ↔ available < amount)
  ∧ (available < amount →
       Vault.reserveLiquidity amount d
       = (Threw (InsufficientVaultLiquidity amount available), d))
  ∧ (amount ≤ available →
       Vault.reserveLiquidity amount d
       = (Returned (),
          {| DB.agents := DB.agents d; DB.merchants := DB.merchants d;
             DB.transactions := DB.transactions d; DB.repayments := DB.repayments d;
             DB.vault :=
               Some {| DB.total_deposits_usdc := DB.total_deposits_usdc v;
                       DB.total_lent_usdc := DB.total_lent_usdc v + amount;
                       DB.total_fees_earned_usdc := DB.total_fees_earned_usdc v;
                       DB.total_shares := DB.total_shares v |};
             DB.lender_positions := DB.lender_positions d;
             DB.sanctioned_addresses := DB.sanctioned_addresses d |}))
  ∧ (amount ≤ available → amount < 0 →
       DB.total_lent_usdc v + amount < DB.total_lent_usdc v).
Proof.
  intros Hv available.
  assert (Hthrow : available < amount →
    Vault.reserveLiquidity amount d
    = (Threw (InsufficientVaultLiquidity amount available), d)).
  { intros Hlt. unfold Vault.reserveLiquidity, Vault.getVaultState, DB.vaultQueries_get.
    rewrite Hv. cbn. fold available. destruct (decide (available < amount)); [done|tauto]. }
  assert (Hok : amount ≤ available →
    Vault.reserveLiquidity amount d
    = (Returned (), DB.vaultQueries_updateLent amount d)).
  { intros Hle. unfold Vault.reserveLiquidity, Vault.getVaultState, DB.vaultQueries_get.
    rewrite Hv. cbn. fold available.
    destruct (decide (available < amount)) as [Hlt|]; [|done].
    by apply Qcle_not_lt in Hle. }
  repeat split.
  - intros [e He]. destruct (Qclt_le_dec available amount) as [|Hle]; [done|].
    rewrite (Hok Hle) in He. discriminate.
  - intros Hlt. rewrite (Hthrow Hlt). eauto.
  - exact Hthrow.
  - intros Hle. rewrite (Hok Hle).
    unfold DB.vaultQueries_updateLent, DB.with_vault. by rewrite Hv.
  - intros _ Hneg. qc_lra.
Qed.

Lemma reserveLiquidity_spec_witness :
  DB.vault Scenario.db_funded = Some Scenario.vault_funded
  ∧ DB.total_lent_usdc Scenario.vault_funded + Qc_of_Z (-5)
    < DB.total_lent_usdc Scenario.vault_funded
  ∧ ∃ d', Vault.reserveLiquidity (Qc_of_Z (-5)) Scenario.db_funded = (Returned (), d').
Proof.
  pose proof (reserveLiquidity_spec (Qc_of_Z (-5)) Scenario.db_funded
                Scenario.vault_funded eq_refl) as (_ & _ & Hok & Hneg).
  split; [reflexivity|]. split.
  - apply Hneg; vm_compute; [discriminate|reflexivity].
  - eexists. apply Hok. vm_compute. discriminate.
Defined.


Lemma existsb_position_fresh (id : string) (ps : list DB.PositionRow) :
  (∀ p, p ∈ ps → DB.position_id p ≠ id) →
  existsb (λ p, bool_decide (DB.position_id p = id)) ps = false.
Proof.
  intros H. apply not_true_is_false. intros Hex.
  apply existsb_exists in Hex as (p & Hin & Hp).
  apply bool_decide_eq_true in Hp. apply (H p); [by apply list_elem_of_In|done].
Qed.

(** ** Lookups and fresh keys *)

Lemma alter_lookup_Some {V} (f : V → V) (i : string) (m : gmap string V) (a : V) :
  m !! i = Some a → alter f i m = <[i := f a]> m.
Proof.
  intros H. rewrite <-(insert_id m i a H) at 1. apply alter_insert_eq.
Qed.

Lemma existsb_repayment_fresh (id : string) (rs : list DB.RepaymentRow) :
  (∀ r, r ∈ rs → DB.repayment_id r ≠ id) →
  existsb (λ r, bool_decide (DB.repayment_id r = id)) rs = false.
Proof.
  intros H. apply not_true_is_false. intros Hex.
  apply existsb_exists in Hex as (r & Hin & Hr).
  apply bool_decide_eq_true in Hr. apply (H r); [by apply list_elem_of_In|done].
Qed.

Lemma fk_ok_Some {V} (k : string) (m : gmap string V) (x : V) :
  m !! k = Some x → DB.fk_ok (Some k) m = true.
Proof. intros H. cbn. apply bool_decide_eq_true_2. by rewrite H. Qed.

(** ** Repayment *)

(** C6. A repayment repays [actualRepaid = min(amount, usedCredit)]; it
    fails with the no-outstanding-balance error when [usedCredit = 0];
    whenever it throws the store is untouched (the unit is atomic); on
    success it lowers [usedCredit] by [actualRepaid], returns
    [actualRepaid] of liquidity to the vault and records the repayment,
    all together, and a delinquent agent whose balance reaches 0 is
    active again. *)
Theorem processRepayment_spec (repaymentId agentId txHash : string) (amount : Qc)
    (d : DB.t) (a : DB.AgentRow) :
  DB.agents d !! agentId = Some a →
  let used := DB.used_credit_usdc a in
  let actualRepaid := Js.Math_min amount used in
  (actualRepaid ≤ amount ∧ actualRepaid ≤ used
   ∧ (actualRepaid = amount ∨ actualRepaid = used))
  ∧ (used = 0 →
     Payment.processRepayment repaymentId agentId amount txHash d
     = (Threw NoOutstandingBalance, d))
  ∧ (∀ e, (Payment.processRepayment repaymentId agentId amount txHash d).1 = Threw e →
          (Payment.processRepayment repaymentId agentId amount txHash d).2 = d)
  ∧ (0 < actualRepaid →
     (∀ r, r ∈ DB.repayments d → DB.repayment_id r ≠ repaymentId) →
     Payment.processRepayment repaymentId agentId amount txHash d
     = (Returned {| Payment.repaymentId := repaymentId;
                    Payment.repaidUsdc := actualRepaid;
                    Payment.newBalance := used - actualRepaid |},
        {| DB.agents := <[agentId := repaid_agent a actualRepaid]> (DB.agents d);
           DB.merchants := DB.merchants d;
           DB.transactions := DB.transactions d;
           DB.repayments :=
             DB.repayments d ++
               [{| DB.repayment_id := repaymentId; DB.repayment_agent_id := agentId;
                   DB.repayment_amount_usdc := actualRepaid;
                   DB.repayment_tx_hash := txHash |}];
           DB.vault :=
             (λ v, {| DB.total_deposits_usdc := DB.total_deposits_usdc v;
                      DB.total_lent_usdc := DB.total_lent_usdc v - actualRepaid;
                      DB.total_fees_earned_usdc := DB.total_fees_earned_usdc v;
                      DB.total_shares := DB.total_shares v |}) <$> DB.vault d;
           DB.lender_positions := DB.lender_positions d;
           DB.sanctioned_addresses := DB.sanctioned_addresses d |}))
  ∧ DB.used_credit_usdc (repaid_agent a actualRepaid) = used - actualRepaid
  ∧ (DB.status a = DB.agent_delinquent → used - actualRepaid = 0 →
     DB.status (repaid_agent a actualRepaid) = DB.agent_active).
Proof.
  intros Ha used actualRepaid.
  split.
  { split; [apply Math_min_le_l|]. split; [apply Math_min_le_r|apply Math_min_cases]. }
  split.
  { intros Hused. unfold Payment.processRepayment, DB.agentQueries_getById.
    rewrite Ha. fold used. fold actualRepaid.
    destruct (decide (actualRepaid ≤ 0)) as [|Hn]; [done|].
    exfalso. apply Hn. rewrite <-Hused. apply Math_min_le_r. }
  split.
  { intros e. unfold Payment.processRepayment, DB.agentQueries_getById.
    rewrite Ha. fold used. fold actualRepaid.
    destruct (decide (actualRepaid ≤ 0)); [done|].
    destruct (DB.repaymentQueries_create _ d) as [[?|?] ?]; [discriminate|done]. }
  split.
  { intros Hpos Hfresh. unfold Payment.processRepayment, DB.agentQueries_getById.
    rewrite Ha. fold used. fold actualRepaid.
    destruct (decide (actualRepaid ≤ 0)) as [Hle|_].
    { exfalso. by apply (Qcle_not_lt _ _ Hle). }
    unfold DB.repaymentQueries_create. cbn [DB.repayment_id DB.repayment_agent_id].
    rewrite existsb_repayment_fresh by exact Hfresh.
    rewrite (fk_ok_Some _ _ _ Ha). cbn [negb].
    f_equal. unfold repaid_agent. fold used.
    destruct (bool_decide (DB.status a = DB.agent_delinquent)
              && bool_decide (used - actualRepaid = 0)) eqn:Hb.
    - unfold DB.agentQueries_updateStatus, Vault.returnLiquidity,
        DB.vaultQueries_returnLent, DB.agentQueries_updateCredit,
        DB.with_agents, DB.with_vault, DB.with_repayments. cbn.
      f_equal. rewrite (alter_lookup_Some _ _ _ _ Ha).
      rewrite alter_insert_eq. reflexivity.
    - unfold Vault.returnLiquidity,
        DB.vaultQueries_returnLent, DB.agentQueries_updateCredit,
        DB.with_agents, DB.with_vault, DB.with_repayments. cbn.
      f_equal. by rewrite (alter_lookup_Some _ _ _ _ Ha). }
  split.
  { unfold repaid_agent. fold used.
    by destruct (bool_decide _ && bool_decide _). }
  intros Hs H0. unfold repaid_agent. fold used.
  rewrite !bool_decide_eq_true_2 by done. reflexivity.
Qed.

Lemma processRepayment_spec_witness :
  DB.agents Scenario.db_owing !! "agent-1"%string = Some Scenario.agent_owing
  ∧ ∃ d', Payment.processRepayment "rep-1" "agent-1" (Qc_of_Z 250) "0x7e" Scenario.db_owing
          = (Returned {| Payment.repaymentId := "rep-1";
                         Payment.repaidUsdc :=
                           Js.Math_min (Qc_of_Z 250) (DB.used_credit_usdc Scenario.agent_owing);
                         Payment.newBalance :=
                           DB.used_credit_usdc Scenario.agent_owing
                           - Js.Math_min (Qc_of_Z 250)
                               (DB.used_credit_usdc Scenario.agent_owing) |}, d')
          ∧ DB.status (repaid_agent Scenario.agent_owing
                         (Js.Math_min (Qc_of_Z 250)
                            (DB.used_credit_usdc Scenario.agent_owing)))
            = DB.agent_active.
Proof.
  assert (Ha : DB.agents Scenario.db_owing !! "agent-1"%string
               = Some Scenario.agent_owing) by (vm_compute; reflexivity).
  destruct (processRepayment_spec "rep-1" "agent-1" "0x7e" (Qc_of_Z 250)
              Scenario.db_owing Scenario.agent_owing Ha)
    as (_ & _ & _ & Hok & _ & Hact).
  split; [exact Ha|]. eexists. split.
  - apply Hok; [vm_compute; reflexivity|].
    intros r Hr. cbn in Hr. by apply not_elem_of_nil in Hr.
  - apply Hact; [reflexivity|]. apply Qc_is_canon. vm_compute. reflexivity.
Defined.

(** ** Frame properties of the permission gate *)

Lemma same_ledger_refl d : same_ledger d d.
Proof. by repeat split. Qed.

Lemma screenAddress_frame addr d :
  same_ledger d (Compliance.screenAddress addr d).2.
Proof.
  unfold Compliance.screenAddress.
  destruct (DB.sanctionsQueries_check _ d); [apply same_ledger_refl|].
  destruct (Compliance.includes Compliance.KNOWN_SANCTIONED_ENTITIES _);
    [by repeat split|].
  destruct (Compliance.includes Compliance.KNOWN_MIXER_CONTRACTS _);
    apply same_ledger_refl.
Qed.

Lemma screenAddress_clean addr d :
  Compliance.isSanctioned (Compliance.screenAddress addr d).1 = false →
  (Compliance.screenAddress addr d).2 = d.
Proof.
  unfold Compliance.screenAddress.
  destruct (DB.sanctionsQueries_check _ d); [discriminate|].
  destruct (Compliance.includes Compliance.KNOWN_SANCTIONED_ENTITIES _);
    [discriminate|].
  by destruct (Compliance.includes Compliance.KNOWN_MIXER_CONTRACTS _).
Qed.

Lemma runPermissionChecks_frame agent addr amount mid rid d :
  same_ledger d (Compliance.runPermissionChecks agent addr amount mid rid d).2.
Proof.
  unfold Compliance.runPermissionChecks.
  pose proof (screenAddress_frame addr d) as H.
  by destruct (Compliance.screenAddress addr d).
Qed.

(** A verdict that passes left the store alone and saw enough credit. *)
Lemma runPermissionChecks_passed agent addr amount mid rid d :
  DB.allPassed (Compliance.runPermissionChecks agent addr amount mid rid d).1 = true →
  (Compliance.runPermissionChecks agent addr amount mid rid d).2 = d
  ∧ amount ≤ Compliance.creditLimitUsdc agent - Compliance.usedCreditUsdc agent.
Proof.
  unfold Compliance.runPermissionChecks.
  pose proof (screenAddress_clean addr d) as Hclean.
  destruct (Compliance.screenAddress addr d) as [scr d1]. cbn in *.
  intros Hall. repeat (apply andb_prop in Hall as [Hall ?]).
  split.
  - apply Hclean. unfold Compliance.sanctions_gate in *.
    by destruct (Compliance.isSanctioned scr).
  - unfold Compliance.credit_gate in Hall.
    by destruct (decide (amount ≤ _)).
Qed.

(** ** What the steps before signing do to the ledger *)

Lemma find_none_existsb {A} (P : A → bool) (l : list A) :
  existsb P l = false → List.find P l = None.
Proof.
  induction l as [|x l IH]; [done|]. cbn. destruct (P x); [discriminate|exact IH].
Qed.

Lemma txQueries_create_Returned r d d' :
  DB.txQueries_create r d = (Returned (), d') →
  d' = DB.with_transactions (λ l, l ++ [r]) d
  ∧ existsb (λ r', bool_decide (DB.tx_id r' = DB.tx_id r)) (DB.transactions d) = false
  ∧ existsb (λ r', bool_decide (DB.idempotency_key r' = DB.idempotency_key r))
      (DB.transactions d) = false.
Proof.
  unfold DB.txQueries_create. intros H.
  destruct (existsb _ _); [discriminate|].
  destruct (existsb _ _); [discriminate|].
  destruct (negb _); [discriminate|]. by inversion H.
Qed.

Lemma authorize_Reserved E req d c d1 :
  Payment.authorize E req d = (Payment.Reserved c, d1) →
  ∃ a v,
    DB.agents d !! Payment.agentId req = Some a
    ∧ DB.vault d = Some v
    ∧ Payment.agentRaw c = a
    ∧ DB.allPassed (Payment.permChecks c) = true
    ∧ Payment.reservedFeeUsdc c
      = Payment.amountUsdc req * Payment.feeBps E req d / Qc_of_Z 10000
    ∧ Payment.reservedNetUsdc c = Payment.amountUsdc req - Payment.reservedFeeUsdc c
    ∧ Payment.amountUsdc req ≤ DB.credit_limit_usdc a - DB.used_credit_usdc a
    ∧ Payment.reservedNetUsdc c ≤ DB.total_deposits_usdc v - DB.total_lent_usdc v
    ∧ DB.txQueries_getByIdempotencyKey (Payment.idempotencyKey req) d = None
    ∧ DB.txQueries_getById (Payment.uuid E) d = None
    ∧ d1 = {| DB.agents :=
                <[Payment.agentId req := debited a (Payment.amountUsdc req)]> (DB.agents d);
              DB.merchants := DB.merchants d;
              DB.transactions :=
                DB.transactions d ++
                  [Payment.new_transaction E req (Payment.permChecks c)
                     (Payment.reservedFeeUsdc c) (Payment.reservedNetUsdc c)];
              DB.repayments := DB.repayments d;
              DB.vault := Some (lent_more v (Payment.reservedNetUsdc c));
              DB.lender_positions := DB.lender_positions d;
              DB.sanctioned_addresses := DB.sanctioned_addresses d |}.
Proof.
  unfold Payment.authorize, DB.agentQueries_getById.
  destruct (DB.txQueries_getByIdempotencyKey _ d) eqn:Hkey; [discriminate|].
  destruct (DB.agents d !! Payment.agentId req) as [a|] eqn:Ha; [|discriminate].
  pose proof (runPermissionChecks_passed (Payment.mapAgent (Payment.agentId req) a)
    (Payment.recipientAddress req) (Payment.amountUsdc req) (Payment.merchantId req)
    (Payment.recipientAgentId req) d) as Hpass.
  destruct (Compliance.runPermissionChecks _ _ _ _ _ d) as [pc d0]. cbn [fst snd] in Hpass.
  destruct (DB.txQueries_create _ d0) as [[[]|e] d2] eqn:Hcreate; [|discriminate].
  apply txQueries_create_Returned in Hcreate as (-> & Hid & _).
  destruct (DB.allPassed pc) eqn:Hall; [|discriminate]. cbn [negb].
  destruct (Hpass eq_refl) as [-> Hcredit].
  unfold Vault.reserveLiquidity, Vault.getVaultState, DB.vaultQueries_get.
  cbn [DB.with_transactions DB.vault].
  destruct (DB.vault d) as [v|] eqn:Hv; [|discriminate].
  cbn [Vault.availableLiquidityUsdc].
  destruct (decide (_ < _)) as [|Hliq]; [discriminate|].
  intros H. inversion H; subst; clear H. exists a, v. cbn.
  repeat split; try done.
  - by apply Qcnot_lt_le.
  - by apply find_none_existsb.
  - unfold DB.agentQueries_updateCredit, DB.vaultQueries_updateLent,
      DB.with_agents, DB.with_vault, DB.with_transactions. cbn.
    rewrite Hv. cbn. f_equal. rewrite (alter_lookup_Some _ _ _ _ Ha). reflexivity.
Qed.

(** ** The transaction log under status and hash updates *)

Lemma find_map_preserve {A} (P : A → bool) (f : A → A) (l : list A) :
  (∀ x, P (f x) = P x) → List.find P (map f l) = f <$> List.find P l.
Proof.
  intros HP. induction l as [|x l IH]; [done|]. cbn. rewrite HP.
  destruct (P x); [done|exact IH].
Qed.

Lemma find_app_fresh {A} (P : A → bool) (l : list A) (x : A) :
  List.find P l = None → P x = true → List.find P (l ++ [x]) = Some x.
Proof.
  intros Hl Hx. induction l as [|y l IH]; cbn in *; [by rewrite Hx|].
  destruct (P y); [discriminate|auto].
Qed.

Lemma getByKey_updateStatus s id key d :
  DB.txQueries_getByIdempotencyKey key (DB.txQueries_updateStatus s id d)
  = (λ r, if bool_decide (DB.tx_id r = id)
          then DB.set_tx_status s (bool_decide (s = DB.tx_confirmed)) r else r)
    <$> DB.txQueries_getByIdempotencyKey key d.
Proof.
  unfold DB.txQueries_getByIdempotencyKey, DB.txQueries_updateStatus. cbn.
  apply find_map_preserve. intros x. by destruct (bool_decide (DB.tx_id x = id)).
Qed.

(** ** The [try] block *)

Ltac inv1 := let H := fresh in intros H; inversion H; subst; clear H.

Lemma sign_and_settle_Returned E req raw txId pc fee net d r d' :
  Payment.sign_and_settle E req raw txId pc fee net d = (Returned r, d') →
  Js.truthy (Payment.agentPartialSignature req) = false
  ∧ r = {| Payment.transactionId := txId; Payment.status := DB.tx_signing;
           Payment.permissionChecks := pc;
           Payment.feeUsdc := fee; Payment.netAmountUsdc := net;
           Payment.mpcSignatureId := Js.Absent; Payment.txHash := Js.Absent;
           Payment.awaitingAgentSignature := Js.Present true |}
  ∧ d' = DB.txQueries_updateStatus DB.tx_signing txId d.
Proof.
  unfold Payment.sign_and_settle, Payment.unresolvable.
  destruct (Js.truthy _); cbn [negb]; [|by inv1].
  destruct (Payment.decrypt _ _ _); [|discriminate].
  destruct (Mpc.BigInt_hex _); [|discriminate].
  destruct (Mpc.BigInt_hex _); [|discriminate].
  destruct (Payment.getChain_base E) as [[|tr]|]; [| |discriminate]; [discriminate|].
  destruct (tr _ _ _) as [res|]; [|discriminate].
  destruct (negb _); discriminate.
Qed.

Lemma Math_min_nonneg (a b : Qc) : 0 ≤ a → 0 ≤ b → 0 ≤ Js.Math_min a b.
Proof. intros Ha Hb. by destruct (Math_min_cases a b) as [-> | ->]. Qed.

(** ** The vault invariant *)

(** C2 (the code at a spend followed by its repayment).  The vault
    invariant [0 <= totalLent <= totalDeposits] holds on the initial
    store and is lost after a deposit of 50000, a spend of 100 at 150 bps
    and the repayment of the 100 owed: the spend reserves the net amount
    98.5, the repayment returns the gross amount 100, and
    [total_lent_usdc] ends at -1.5. *)
Theorem vault_invariant_broken :
  vault_inv Scenario.db_init
  ∧ ¬ vault_inv (Api.run spend_then_repay Scenario.db_init).
Proof.
  split.
  { intros v Hv. cbn in Hv. injection Hv as <-. vm_compute. split; discriminate. }
  intros H.
  destruct (DB.vault (Api.run spend_then_repay Scenario.db_init)) as [v|] eqn:Hv.
  - destruct (H v Hv) as [H0 _]. vm_compute in Hv. injection Hv as <-.
    vm_compute in H0. by apply H0.
  - vm_compute in Hv. discriminate Hv.
Qed.

(** ** Scenario A *)

Lemma authorize_Early_Returned E req d r d1 :
  DB.txQueries_getByIdempotencyKey (Payment.idempotencyKey req) d = None →
  Payment.authorize E req d = (Payment.Early (Returned r), d1) →
  Payment.status r = DB.tx_rejected.
Proof.
  intros Hkey. unfold Payment.authorize, DB.agentQueries_getById. rewrite Hkey.
  destruct (DB.agents d !! Payment.agentId req) as [a|]; [|discriminate].
  destruct (Compliance.runPermissionChecks _ _ _ _ _ d) as [pc d2].
  destruct (DB.txQueries_create _ d2) as [[[]|e] d3]; [|discriminate].
  destruct (negb (DB.allPassed pc)); [by intros [= <- <-]|].
  destruct (Vault.reserveLiquidity _ _) as [[[]|?] ?]; discriminate.
Qed.

(** A new request is never answered "confirmed". *)
Lemma new_request_never_confirmed E req d r d' :
  DB.txQueries_getByIdempotencyKey (Payment.idempotencyKey req) d = None →
  Payment.processPayment E req d = (Returned r, d') →
  Payment.status r = DB.tx_rejected ∨ Payment.status r = DB.tx_signing.
Proof.
  intros Hkey. unfold Payment.processPayment.
  destruct (Payment.authorize E req d) as [[o|c] d0] eqn:Hauth.
  - intros [= -> ->]. left. by apply (authorize_Early_Returned E req d r d').
  - destruct (Payment.sign_and_settle _ _ _ _ _ _ _ _) as [[res|e] d3] eqn:Hs;
      [|discriminate].
    apply sign_and_settle_Returned in Hs as (_ & -> & _). intros [= <- _]. by right.
Qed.

(** C5 (the code at Scenario A).  The agent has limit 1000 and usage 0,
    the merchant charges 150 bps, the shard is supplied and the provider
    confirms the broadcast.  The fee is 1.5 and the net amount 98.5, and
    the fee reaches the vault; but building the response reads
    [signResult], which is not declared, so the call throws, the [catch]
    block marks the broadcast transaction "failed", returns the
    liquidity and puts the agent's usage back to 0.  In general no new
    request is ever answered "confirmed": a response to one is
    "rejected" or "signing". *)
Theorem scenario_A_throws :
  (∃ d',
    Payment.processPayment (Scenario.env true)
      (Scenario.request "m-1" (Some "07"%string)) Scenario.db_funded
    = (Threw (ReferenceError "signResult"), d')
    ∧ (∃ row, DB.txQueries_getById "tx-1" d' = Some row
         ∧ DB.fee_usdc row = Q2Qc (3 # 2)
         ∧ DB.net_amount_usdc row = Q2Qc (197 # 2)
         ∧ DB.tx_status row = DB.tx_failed
         ∧ DB.tx_hash row = Some "0xabc"%string)
    ∧ (∃ a, DB.agents d' !! "agent-1"%string = Some a
         ∧ DB.used_credit_usdc a = 0)
    ∧ (∃ v, DB.vault d' = Some v
         ∧ DB.total_fees_earned_usdc v = Q2Qc (3 # 2)
         ∧ DB.total_deposits_usdc v = Qc_of_Z 50000 + Q2Qc (3 # 2)
         ∧ DB.total_lent_usdc v = 0))
  ∧ (∀ E req d r d',
       DB.txQueries_getByIdempotencyKey (Payment.idempotencyKey req) d = None →
       Payment.processPayment E req d = (Returned r, d') →
       Payment.status r = DB.tx_rejected ∨ Payment.status r = DB.tx_signing).
Proof.
  split; [|exact new_request_never_confirmed].
  destruct (Payment.processPayment (Scenario.env true)
              (Scenario.request "m-1" (Some "07"%string)) Scenario.db_funded)
    as [o d'] eqn:H.
  vm_compute in H. injection H as <- <-.
  eexists. split; [reflexivity|]. split; [|split].
  - eexists. split; [reflexivity|]. cbn.
    repeat split; try reflexivity; apply Qc_is_canon; reflexivity.
  - eexists. split; [reflexivity|]. apply Qc_is_canon; reflexivity.
  - eexists. split; [reflexivity|]. cbn.
    repeat split; apply Qc_is_canon; reflexivity.
Qed.

Lemma scenario_A_throws_witness :
  DB.txQueries_getByIdempotencyKey
    (Payment.idempotencyKey (Scenario.request "m-1" None)) Scenario.db_funded = None
  ∧ ∃ r d', Payment.processPayment (Scenario.env true) (Scenario.request "m-1" None)
              Scenario.db_funded = (Returned r, d')
            ∧ (Payment.status r = DB.tx_rejected ∨ Payment.status r = DB.tx_signing).
Proof.
  split; [reflexivity|].
  destruct (Payment.processPayment (Scenario.env true) (Scenario.request "m-1" None)
              Scenario.db_funded) as [[r|e] d'] eqn:H.
  - exists r, d'. split; [reflexivity|].
    exact (proj2 scenario_A_throws (Scenario.env true) (Scenario.request "m-1" None)
             Scenario.db_funded r d' eq_refl H).
  - exfalso. vm_compute in H. discriminate H.
Defined.

(** ** The signer *)

Lemma hex_digit_nonneg c k : Mpc.hex_digit c = Some k → (0 ≤ k)%Z.
Proof.
  unfold Mpc.hex_digit.
  repeat match goal with
         | |- context [if ?b then _ else _] => destruct b eqn:?
         end; intros [= <-]; lia.
Qed.

Lemma hex_digits_nonneg s acc k :
  (0 ≤ acc)%Z → Mpc.hex_digits s acc = Some k → (0 ≤ k)%Z.
Proof.
  revert acc. induction s as [|c s IH]; intros acc Hacc; cbn.
  - by intros [= <-].
  - destruct (Mpc.hex_digit c) as [dg|] eqn:Hd; [|done].
    apply IH. apply hex_digit_nonneg in Hd. lia.
Qed.

Lemma BigInt_hex_nonneg s k : Mpc.BigInt_hex s = Some k → (0 ≤ k)%Z.
Proof.
  unfold Mpc.BigInt_hex. destruct (Mpc.trimEnd s); [done|]. by apply hex_digits_nonneg.
Qed.

(** A hex digit is no white space and starts no white-space character. *)
Lemma hex_digit_not_ws c d c2 c3 :
  Mpc.hex_digit c = Some d →
  Mpc.ws_byte c = false ∧ Mpc.ws_bytes2 c c2 = false ∧ Mpc.ws_bytes3 c c2 c3 = false.
Proof.
  unfold Mpc.hex_digit, Mpc.ws_byte, Mpc.ws_bytes2, Mpc.ws_bytes3. cbv zeta.
  set (k := Z.of_nat (nat_of_ascii c)). intros Hd.
  assert (Hk : (48 ≤ k ≤ 102)%Z).
  { repeat (destruct (_ && _)%bool eqn:? in Hd; [lia|]). done. }
  assert (H13 : (k <=? 13)%Z = false) by (apply Z.leb_gt; lia).
  assert (Hne : ∀ z, (102 < z)%Z ∨ (z < 48)%Z → (k =? z)%Z = false)
    by (intros z Hz; apply Z.eqb_neq; lia).
  rewrite H13, !Hne by lia. by rewrite andb_false_r.
Qed.

Lemma all_ws_hex c d r : Mpc.hex_digit c = Some d → Mpc.all_ws (String c r) = false.
Proof.
  intros Hd. cbn [Mpc.all_ws].
  destruct (hex_digit_not_ws c d "000"%char "000"%char Hd) as (-> & _ & _).
  destruct r as [|c2 r]; [done|].
  destruct (hex_digit_not_ws c d c2 "000"%char Hd) as (_ & -> & _).
  destruct r as [|c3 r]; [done|].
  by destruct (hex_digit_not_ws c d c2 c3 Hd) as (_ & _ & ->).
Qed.

Lemma trimEnd_all_ws w : Mpc.all_ws w = true → Mpc.trimEnd w = ""%string.
Proof. destruct w as [|c w]; [done|]. intros Hw. cbn [Mpc.trimEnd]. by rewrite Hw. Qed.

(** Trimming gives back a run of hex digits that white space follows. *)
Lemma trimEnd_hex_ws s w acc k :
  Mpc.hex_digits s acc = Some k → Mpc.all_ws w = true →
  Mpc.trimEnd (String.append s w) = s.
Proof.
  intros Hs Hw. revert acc Hs. induction s as [|c s IH]; intros acc Hs.
  - by apply trimEnd_all_ws.
  - cbn [Mpc.hex_digits] in Hs. destruct (Mpc.hex_digit c) as [d|] eqn:Hd; [|done].
    change (String.append (String c s) w) with (String c (String.append s w)).
    cbn [Mpc.trimEnd]. rewrite (all_ws_hex c d _ Hd). f_equal.
    by apply (IH (16 * acc + d)%Z).
Qed.

(** A run of hex digits has no white space to trim. *)
Lemma trimEnd_hex s acc k : Mpc.hex_digits s acc = Some k → Mpc.trimEnd s = s.
Proof.
  intros Hs. assert (Hnil : String.append s "" = s).
  { clear. induction s as [|c s IH]; [done|].
    change (String.append (String c s) "") with (String c (String.append s "")).
    by rewrite IH. }
  rewrite <- Hnil at 1. by apply (trimEnd_hex_ws s "" acc k).
Qed.

(** [BigInt] reads a run of hex digits through the white space after it. *)
Lemma BigInt_hex_trailing_ws s w k :
  s ≠ ""%string → Mpc.hex_digits s 0 = Some k → Mpc.all_ws w = true →
  Mpc.BigInt_hex (String.append s w) = Some k.
Proof.
  intros Hne Hs Hw. unfold Mpc.BigInt_hex. rewrite (trimEnd_hex_ws _ _ _ _ Hs Hw).
  by destruct s.
Qed.

Lemma BigInt_hex_digits s k :
  s ≠ ""%string → Mpc.hex_digits s 0 = Some k → Mpc.BigInt_hex s = Some k.
Proof.
  intros Hne Hs. unfold Mpc.BigInt_hex. rewrite (trimEnd_hex _ _ _ Hs).
  by destruct s.
Qed.

Lemma mod_nonneg a : (0 ≤ a)%Z → Mpc.mod_ a Mpc.n = (a mod Mpc.n)%Z.
Proof.
  intros Ha. unfold Mpc.mod_.
  assert (Hn : (0 < Mpc.n)%Z) by reflexivity.
  rewrite Z.rem_mod_nonneg by lia.
  pose proof (Z.mod_pos_bound a Mpc.n Hn) as [H0 _].
  destruct (0 <=? a mod Mpc.n)%Z eqn:Hb; [done|]. apply Z.leb_gt in Hb. lia.
Qed.

(** C8, as the code has it.  [signWithMPC] first decrypts the server
    shard, failing when that fails; it then parses both shards and,
    without checking that either lies in [1, n-1], takes
    [k = (serverShard + agentShard) mod n] and asks the library for a
    low-S signature under [k]; the only later failure is the library's. *)
Theorem signWithMPC_spec
    (decryptShard : string → string → option string)
    (signAsync : string → Z → bool → option Mpc.EcdsaSignature)
    (messageHash enc key agentShardHex : string) :
  (decryptShard enc key = None →
   Mpc.signWithMPC decryptShard signAsync messageHash enc key agentShardHex
   = Threw DecipherError)
  ∧ (∀ serverShardHex serverShard agentShard,
       decryptShard enc key = Some serverShardHex →
       Mpc.BigInt_hex serverShardHex = Some serverShard →
       Mpc.BigInt_hex agentShardHex = Some agentShard →
       Mpc.signWithMPC decryptShard signAsync messageHash enc key agentShardHex
       = match signAsync (Mpc.strip0x messageHash)
                 ((serverShard + agentShard) mod Mpc.n)%Z true with
         | None => Threw SignerError
         | Some sig =>
             Returned {| Mpc.r := Mpc.sig_r sig; Mpc.s := Mpc.sig_s sig;
                         Mpc.v := 27 + default 0%Z (Mpc.sig_recovery sig) |}
         end).
Proof.
  split.
  - intros Hd. unfold Mpc.signWithMPC. by rewrite Hd.
  - intros sh sb ab Hd Hs Ha. unfold Mpc.signWithMPC. rewrite Hd, Hs, Ha.
    apply BigInt_hex_nonneg in Hs. apply BigInt_hex_nonneg in Ha.
    rewrite mod_nonneg by lia. reflexivity.
Qed.

Lemma signWithMPC_spec_witness :
  Mpc.BigInt_hex "05" = Some 5%Z ∧ Mpc.BigInt_hex "07" = Some 7%Z
  ∧ Mpc.signWithMPC (λ _ _, Some "05"%string)
      (λ _ k _, Some {| Mpc.sig_r := k; Mpc.sig_s := 1; Mpc.sig_recovery := Some 1%Z |})
      "0xaa" "00:ff" "k" "07"
    = Returned {| Mpc.r := ((5 + 7) mod Mpc.n)%Z; Mpc.s := 1; Mpc.v := 27 + 1 |}.
Proof.
  split; [reflexivity|]. split; [reflexivity|].
  exact (proj2 (signWithMPC_spec (λ _ _, Some "05"%string)
                  (λ _ k _, Some {| Mpc.sig_r := k; Mpc.sig_s := 1;
                                    Mpc.sig_recovery := Some 1%Z |})
                  "0xaa" "00:ff" "k" "07")
           "05"%string 5%Z 7%Z eq_refl eq_refl eq_refl).
Defined.

(** The agent shard 0 lies outside [1, n-1], yet [signWithMPC] raises no
    error: it signs under [k = serverShard]. *)
Lemma zero_shard_is_signed :
  Mpc.BigInt_hex "0" = Some 0%Z
  ∧ ¬ shard_in_range 0
  ∧ Mpc.signWithMPC (λ _ _, Some "05"%string)
      (λ _ k _, Some {| Mpc.sig_r := k; Mpc.sig_s := 1; Mpc.sig_recovery := None |})
      "0xaa" "00:ff" "k" "0"
    = Returned {| Mpc.r := 5; Mpc.s := 1; Mpc.v := 27 |}.
Proof.
  split; [reflexivity|]. split; [unfold shard_in_range; lia|]. reflexivity.
Qed.

(** ** A spend naming an unknown merchant *)

Lemma existsb_find_none {A} (P : A → bool) (l : list A) :
  List.find P l = None → existsb P l = false.
Proof.
  induction l as [|x l IH]; [done|]. cbn. destruct (P x); [discriminate|exact IH].
Qed.

(** C9, as the code has it.  A new spend request of an existing agent
    that names a merchant that does not exist fails with an exception,
    and agents, merchants, transactions, repayments, vault and lender
    positions are left as they were.  The exception is not a not-found
    error: the verdict records the missing merchant as a failure reason,
    and the insert of the (rejected) transaction then violates a key of
    the store, the reference to [merchants] unless the fresh id is
    already taken. *)
Theorem unknown_merchant_fails (E : Payment.Env) (req : Payment.PaymentRequest)
    (d : DB.t) (mid : string) (a : DB.AgentRow) :
  Js.or_null (Payment.merchantId req) = Some mid →
  DB.merchants d !! mid = None →
  DB.txQueries_getByIdempotencyKey (Payment.idempotencyKey req) d = None →
  DB.agents d !! Payment.agentId req = Some a →
  Payment.feeBps E req d = Payment.MERCHANT_FEE_BPS E
  ∧ unknown_merchant_verdict mid
      (Compliance.runPermissionChecks (Payment.mapAgent (Payment.agentId req) a)
         (Payment.recipientAddress req) (Payment.amountUsdc req)
         (Payment.merchantId req) (Payment.recipientAgentId req) d).1
  ∧ ∃ c d',
      Payment.processPayment E req d = (Threw (SqliteError c), d')
      ∧ is_not_found (SqliteError c) = false
      ∧ (DB.txQueries_getById (Payment.uuid E) d = None → c = ForeignKey)
      ∧ same_ledger d d'.
Proof.
  intros Hmid Hmerchant Hkey Ha.
  split.
  { unfold Payment.feeBps, DB.merchantQueries_getById. by rewrite Hmid, Hmerchant. }
  split.
  { unfold Compliance.runPermissionChecks.
    pose proof (screenAddress_frame (Payment.recipientAddress req) d)
      as (_ & Hme & _).
    destruct (Compliance.screenAddress _ d) as [scr d1]. cbn [snd] in Hme.
    unfold unknown_merchant_verdict, Compliance.merchant_gate,
      DB.merchantQueries_getById. cbn.
    rewrite Hmid, Hme, Hmerchant. cbn.
    split; [done|]. split; [by rewrite andb_false_r|].
    rewrite !elem_of_app. right. right. constructor. }
  unfold Payment.processPayment, Payment.authorize, DB.agentQueries_getById.
  rewrite Hkey, Ha.
  pose proof (runPermissionChecks_frame (Payment.mapAgent (Payment.agentId req) a)
    (Payment.recipientAddress req) (Payment.amountUsdc req) (Payment.merchantId req)
    (Payment.recipientAgentId req) d) as Hframe.
  destruct (Compliance.runPermissionChecks _ _ _ _ _ d) as [pc d0]. cbn [snd] in Hframe.
  destruct Hframe as (Hag & Hme & Htx & Hre & Hva & Hpo).
  unfold DB.txQueries_create. cbn [DB.tx_id DB.idempotency_key DB.tx_agent_id
    DB.merchant_id DB.recipient_agent_id Payment.new_transaction].
  rewrite Htx, Hme, Hmid.
  destruct (existsb (λ r', bool_decide (DB.tx_id r' = Payment.uuid E)) (DB.transactions d))
    eqn:Hid.
  { exists PrimaryKey, d0. split; [done|]. split; [done|]. split; [|by repeat split].
    intros Hnone. apply existsb_find_none in Hnone. unfold DB.txQueries_getById in *.
    congruence. }
  rewrite (existsb_find_none _ _ Hkey).
  assert (Hfk : DB.fk_ok (Some mid) (DB.merchants d) = false).
  { cbn. apply bool_decide_eq_false_2. rewrite Hmerchant. by intros [? ?]. }
  rewrite Hfk, andb_false_r. cbn.
  exists ForeignKey, d0. by repeat split.
Qed.

Lemma unknown_merchant_fails_witness :
  Js.or_null (Payment.merchantId (Scenario.request "ghost" (Some "07"%string)))
  = Some "ghost"%string
  ∧ DB.merchants Scenario.db_funded !! "ghost"%string = None
  ∧ ∃ d', Payment.processPayment (Scenario.env true)
            (Scenario.request "ghost" (Some "07"%string)) Scenario.db_funded
          = (Threw (SqliteError ForeignKey), d')
          ∧ same_ledger Scenario.db_funded d'.
Proof.
  split; [reflexivity|]. split; [reflexivity|].
  destruct (unknown_merchant_fails (Scenario.env true)
              (Scenario.request "ghost" (Some "07"%string)) Scenario.db_funded
              "ghost" Scenario.agent1 eq_refl eq_refl eq_refl eq_refl)
    as (_ & _ & c & d' & Hpay & _ & Hc & Hsame).
  exists d'. rewrite <-(Hc eq_refl). by split.
Defined.

(** The request fails, but not with a not-found error. *)
Lemma unknown_merchant_not_NotFound :
  DB.merchants Scenario.db_funded !! "ghost"%string = None
  ∧ ∃ e d', Payment.processPayment (Scenario.env true)
              (Scenario.request "ghost" (Some "07"%string)) Scenario.db_funded
            = (Threw e, d')
            ∧ is_not_found e = false.
Proof.
  split; [reflexivity|].
  destruct (Payment.processPayment (Scenario.env true)
              (Scenario.request "ghost" (Some "07"%string)) Scenario.db_funded)
    as [o d'] eqn:H.
  vm_compute in H. injection H as <- <-. eauto.
Qed.

(** ** Resubmission under the same idempotency key *)

Lemma getByKey_new_transaction E req pc fee net d d0 :
  DB.txQueries_getByIdempotencyKey (Payment.idempotencyKey req) d = None →
  DB.transactions d0 = DB.transactions d →
  DB.txQueries_getByIdempotencyKey (Payment.idempotencyKey req)
    (DB.with_transactions (λ l, l ++ [Payment.new_transaction E req pc fee net]) d0)
  = Some (Payment.new_transaction E req pc fee net).
Proof.
  intros Hkey Htx. unfold DB.txQueries_getByIdempotencyKey in *. cbn. rewrite Htx.
  apply find_app_fresh; [exact Hkey|]. by apply bool_decide_eq_true_2.
Qed.

(** The idempotency check: a request whose key is already recorded is answered with
    the recorded transaction, and the store is not touched. *)
Lemma idempotency_gate E req d existing :
  DB.txQueries_getByIdempotencyKey (Payment.idempotencyKey req) d = Some existing →
  Payment.processPayment E req d = (Returned (Payment.snapshot existing), d).
Proof.
  intros H. unfold Payment.processPayment, Payment.authorize. by rewrite H.
Qed.

(** After a call that returned, the transaction recorded under the key
    carries the identity, status, verdict, fee and net amount of the
    response. *)
Lemma processPayment_recorded E req d r1 d1 :
  Payment.processPayment E req d = (Returned r1, d1) →
  ∃ row, DB.txQueries_getByIdempotencyKey (Payment.idempotencyKey req) d1 = Some row
    ∧ DB.tx_id row = Payment.transactionId r1
    ∧ DB.tx_status row = Payment.status r1
    ∧ DB.permission_checks row = Payment.permissionChecks r1
    ∧ DB.fee_usdc row = Payment.feeUsdc r1
    ∧ DB.net_amount_usdc row = Payment.netAmountUsdc r1.
Proof.
  unfold Payment.processPayment.
  destruct (Payment.authorize E req d) as [[o|c] d0] eqn:Hauth.
  - intros [= -> ->]. revert Hauth.
    unfold Payment.authorize, DB.agentQueries_getById.
    destruct (DB.txQueries_getByIdempotencyKey _ d) as [existing|] eqn:Hkey.
    { intros [= <- <-]. exists existing. by rewrite Hkey. }
    destruct (DB.agents d !! Payment.agentId req) as [a|]; [|discriminate].
    pose proof (runPermissionChecks_frame (Payment.mapAgent (Payment.agentId req) a)
      (Payment.recipientAddress req) (Payment.amountUsdc req) (Payment.merchantId req)
      (Payment.recipientAgentId req) d) as (_ & _ & Htx & _).
    destruct (Compliance.runPermissionChecks _ _ _ _ _ d) as [pc d2]. cbn [snd] in Htx.
    destruct (DB.txQueries_create _ d2) as [[[]|e] d3] eqn:Hcreate; [|discriminate].
    apply txQueries_create_Returned in Hcreate as (-> & _ & _).
    destruct (DB.allPassed pc) eqn:Hall; cbn [negb].
    + destruct (Vault.reserveLiquidity _ _) as [[[]|?] ?]; discriminate.
    + intros [= <- <-]. eexists.
      split; [by apply (getByKey_new_transaction _ _ _ _ _ d)|].
      cbn. by rewrite Hall.
  - apply authorize_Reserved in Hauth
      as (a & v & _ & _ & _ & _ & _ & _ & _ & _ & Hkey & _ & ->).
    destruct (Payment.sign_and_settle _ _ _ _ _ _ _ _) as [[res|e] d3] eqn:Hs;
      [|discriminate].
    apply sign_and_settle_Returned in Hs as (_ & -> & ->). intros [= <- <-].
    rewrite !getByKey_updateStatus.
    unfold DB.txQueries_getByIdempotencyKey in *. cbn [DB.transactions].
    rewrite (find_app_fresh _ _ _ Hkey) by (by apply bool_decide_eq_true_2).
    cbn. repeat (rewrite (bool_decide_eq_true_2 (Payment.uuid E = Payment.uuid E))
                   by reflexivity; cbn).
    eexists. split; [reflexivity|]. done.
Qed.

(** C4, as the code has it.  A request whose idempotency key is already
    recorded is answered with the snapshot of the recorded transaction
    and changes nothing in the store; hence, after a submission that
    returned, resubmitting under the same key returns the same
    transaction id, status, verdict, fee and net amount and leaves the
    store exactly as the first submission left it (the ledger is mutated
    by the first submission only).  The second response never carries
    [mpcSignatureId] or [awaitingAgentSignature], and always carries
    [txHash]. *)
Theorem idempotent_resubmission :
  (∀ E req d existing,
     DB.txQueries_getByIdempotencyKey (Payment.idempotencyKey req) d = Some existing →
     Payment.processPayment E req d = (Returned (Payment.snapshot existing), d))
  ∧ (∀ E req d r1 d1 E' req',
       Payment.processPayment E req d = (Returned r1, d1) →
       Payment.idempotencyKey req' = Payment.idempotencyKey req →
       ∃ r2, Payment.processPayment E' req' d1 = (Returned r2, d1)
         ∧ Payment.transactionId r2 = Payment.transactionId r1
         ∧ Payment.status r2 = Payment.status r1
         ∧ Payment.permissionChecks r2 = Payment.permissionChecks r1
         ∧ Payment.feeUsdc r2 = Payment.feeUsdc r1
         ∧ Payment.netAmountUsdc r2 = Payment.netAmountUsdc r1
         ∧ Payment.mpcSignatureId r2 = Js.Absent
         ∧ Payment.awaitingAgentSignature r2 = Js.Absent
         ∧ Payment.txHash r2 ≠ Js.Absent).
Proof.
  split; [exact idempotency_gate|].
  intros E req d r1 d1 E' req' Hfirst Hkey.
  destruct (processPayment_recorded E req d r1 d1 Hfirst)
    as (row & Hrow & Hid & Hst & Hpc & Hfee & Hnet).
  exists (Payment.snapshot row). split.
  { apply idempotency_gate. by rewrite Hkey. }
  cbn. repeat split; try done. by destruct (DB.tx_hash row).
Qed.

Lemma idempotent_resubmission_witness :
  ∃ r1 d1 r2,
    Payment.processPayment (Scenario.env true) (Scenario.request "m-1" None)
      Scenario.db_funded = (Returned r1, d1)
    ∧ Payment.processPayment (Scenario.env false)
        (Scenario.request "m-1" (Some "07"%string)) d1 = (Returned r2, d1)
    ∧ Payment.transactionId r2 = Payment.transactionId r1
    ∧ Payment.status r2 = Payment.status r1.
Proof.
  destruct (Payment.processPayment (Scenario.env true) (Scenario.request "m-1" None)
              Scenario.db_funded) as [[r1|e] d1] eqn:Hfirst.
  - destruct (proj2 idempotent_resubmission (Scenario.env true)
                (Scenario.request "m-1" None) Scenario.db_funded r1 d1
                (Scenario.env false) (Scenario.request "m-1" (Some "07"%string))
                Hfirst eq_refl) as (r2 & Hsecond & Hid & Hst & _).
    by exists r1, d1, r2.
  - exfalso. vm_compute in Hfirst. discriminate Hfirst.
Defined.

(** The first response to a spend that awaits the agent's shard says so;
    the response to the same request sent again does not, and carries a
    null [txHash] instead: the two responses differ. *)
Lemma second_response_differs :
  ∃ r1 r2,
    (Payment.processPayment (Scenario.env true) (Scenario.request "m-1" None)
       Scenario.db_funded).1 = Returned r1
    ∧ (Payment.processPayment (Scenario.env true) (Scenario.request "m-1" None)
         (Payment.processPayment (Scenario.env true) (Scenario.request "m-1" None)
            Scenario.db_funded).2).1 = Returned r2
    ∧ Payment.awaitingAgentSignature r1 = Js.Present true
    ∧ Payment.awaitingAgentSignature r2 = Js.Absent
    ∧ Payment.txHash r1 = Js.Absent
    ∧ Payment.txHash r2 = Js.Null
    ∧ r1 ≠ r2.
Proof.
  destruct (Payment.processPayment (Scenario.env true) (Scenario.request "m-1" None)
              Scenario.db_funded).1 as [r1|e1] eqn:H1;
    [|exfalso; vm_compute in H1; discriminate H1].
  destruct (Payment.processPayment (Scenario.env true) (Scenario.request "m-1" None)
              (Payment.processPayment (Scenario.env true) (Scenario.request "m-1" None)
                 Scenario.db_funded).2).1 as [r2|e2] eqn:H2;
    [|exfalso; vm_compute in H2; discriminate H2].
  exists r1, r2. split; [reflexivity|]. split; [reflexivity|].
  vm_compute in H1. vm_compute in H2. injection H1 as <-. injection H2 as <-.
  repeat split; try reflexivity.
  intros Heq. discriminate (f_equal Payment.awaitingAgentSignature Heq).
Qed.

(** ** Key generation and shard verification *)

Lemma append_nil s : String.append "" s = s.
Proof. reflexivity. Qed.

Lemma append_cons x p s : String.append (String x p) s = String x (String.append p s).
Proof. reflexivity. Qed.

Lemma append_nil_r s : String.append s "" = s.
Proof. induction s as [|x s IH]; [reflexivity|]. by rewrite append_cons, IH. Qed.

Lemma hex_digits_app s1 s2 acc :
  Mpc.hex_digits (String.append s1 s2) acc =
  match Mpc.hex_digits s1 acc with Some a => Mpc.hex_digits s2 a | None => None end.
Proof.
  revert acc. induction s1 as [|c s1 IH]; intros acc; [reflexivity|].
  rewrite append_cons. simpl. destruct (Mpc.hex_digit c); [apply IH|reflexivity].
Qed.

Lemma hex_digit_digit_char d :
  (0 ≤ d < 16)%Z → Mpc.hex_digit (MpcKeys.digit_char d) = Some d.
Proof.
  intros Hd.
  assert (Hc : d ∈ (seqZ 0 16)) by (apply elem_of_seqZ; lia).
  vm_compute in Hc. 
  repeat (apply elem_of_cons in Hc as [->|Hc]; [vm_compute; reflexivity|]).
  by apply elem_of_nil in Hc.
Qed.

Lemma append_snoc p c rest :
  String.append (String.append p (String c "")) rest = String.append p (String c rest).
Proof. induction p as [|x p IH]; [reflexivity|]. by rewrite !append_cons, IH. Qed.

Lemma length_snoc p c :
  String.length (String.append p (String c "")) = S (String.length p).
Proof. induction p as [|x p IH]; [reflexivity|]. rewrite append_cons. simpl. by rewrite IH. Qed.

Lemma toString16_aux_spec fuel : ∀ k rest,
  (0 ≤ k < 16 ^ Z.of_nat fuel)%Z → (0 < fuel)%nat →
  ∃ p, MpcKeys.toString16_aux fuel k rest = String.append p rest
       ∧ p ≠ ""%string
       ∧ (String.length p ≤ fuel)%nat
       ∧ ∀ a, Mpc.hex_digits p a = Some (a * 16 ^ Z.of_nat (String.length p) + k)%Z.
Proof.
  induction fuel as [|f IH]; intros k rest Hk Hf; [lia|].
  cbn [MpcKeys.toString16_aux].
  destruct (k / 16 =? 0)%Z eqn:Hq.
  - apply Z.eqb_eq in Hq.
    assert (Hlt : (0 ≤ k < 16)%Z).
    { split; [lia|]. destruct (Z_lt_ge_dec k 16) as [?|Hge]; [done|].
      assert (1 ≤ k / 16)%Z by (apply Z.div_le_lower_bound; lia). lia. }
    exists (String (MpcKeys.digit_char (k mod 16)) ""). repeat split.
    + done.
    + cbn. lia.
    + intros a. cbn. rewrite hex_digit_digit_char by (apply Z.mod_pos_bound; lia).
      rewrite Z.mod_small by lia. f_equal. lia.
  - apply Z.eqb_neq in Hq.
    assert (Hf0 : (0 < f)%nat).
    { destruct f; [|lia]. cbn in Hk.
      exfalso. apply Hq. apply Z.div_small. lia. }
    destruct (IH (k / 16)%Z (String (MpcKeys.digit_char (k mod 16)) rest)) as (p & Hp & Hne & Hlen & Hval).
    { split; [apply Z.div_pos; lia|].
      apply Z.div_lt_upper_bound; [lia|].
      rewrite Nat2Z.inj_succ, Z.pow_succ_r in Hk by lia. lia. }
    { done. }
    exists (String.append p (String (MpcKeys.digit_char (k mod 16)) "")). repeat split.
    + rewrite Hp. symmetry. apply append_snoc.
    + destruct p; done.
    + rewrite length_snoc. lia.
    + intros a. rewrite hex_digits_app, Hval. simpl.
      rewrite hex_digit_digit_char by (apply Z.mod_pos_bound; lia).
      f_equal.
      rewrite length_snoc, Nat2Z.inj_succ, Z.pow_succ_r by lia.
      pose proof (Z.div_mod k 16 ltac:(lia)). lia.
Qed.

Lemma hex_digits_zeros m acc :
  Mpc.hex_digits (string_of_list_ascii (repeat "0"%char m)) acc = Some (acc * 16 ^ Z.of_nat m)%Z.
Proof.
  revert acc. induction m as [|m IH]; intros acc.
  - simpl. f_equal. lia.
  - simpl repeat. simpl string_of_list_ascii. simpl Mpc.hex_digits.
    change (Mpc.hex_digit "0") with (Some 0%Z). cbv iota beta.
    rewrite IH. f_equal. rewrite Nat2Z.inj_succ, Z.pow_succ_r by lia.
    change (Z.of_nat (nat_of_ascii "0") - 48)%Z with 0%Z. ring.
Qed.

Lemma log2_fuel k : (0 ≤ k)%Z → (0 ≤ k < 16 ^ Z.of_nat (S (Z.to_nat (Z.log2 k))))%Z.
Proof.
  intros Hk. split; [done|].
  destruct (decide (k = 0%Z)) as [->|Hn]; [vm_compute; reflexivity|].
  pose proof (Z.log2_spec k ltac:(lia)) as [_ Hlt].
  pose proof (Z.log2_nonneg k).
  rewrite Nat2Z.inj_succ, Z2Nat.id by done.
  eapply Z.lt_le_trans; [exact Hlt|].
  transitivity (16 ^ Z.succ (Z.log2 k))%Z; [|done].
  apply Z.pow_le_mono_l. lia.
Qed.

Lemma toString16_nonneg k :
  (0 ≤ k)%Z →
  MpcKeys.toString16 k ≠ ""%string ∧ ∀ a, Mpc.hex_digits (MpcKeys.toString16 k) a
       = Some (a * 16 ^ Z.of_nat (String.length (MpcKeys.toString16 k)) + k)%Z.
Proof.
  intros Hk. unfold MpcKeys.toString16.
  destruct (k <? 0)%Z eqn:Hneg; [apply Z.ltb_lt in Hneg; lia|].
  destruct (toString16_aux_spec _ k "" (log2_fuel k Hk) ltac:(lia)) as (p & Hp & Hne & _ & Hval).
  rewrite Hp, append_nil_r. split; [done|]. exact Hval.
Qed.

Lemma hex_digits_bigIntToHex k :
  (0 ≤ k)%Z →
  MpcKeys.bigIntToHex k ≠ ""%string
  ∧ Mpc.hex_digits (MpcKeys.bigIntToHex k) 0 = Some k.
Proof.
  intros Hk. destruct (toString16_nonneg k Hk) as [Hne Hval].
  unfold MpcKeys.bigIntToHex, MpcKeys.padStart0. split.
  - intros Happ. destruct (string_of_list_ascii _); [|done].
    rewrite append_nil in Happ. done.
  - rewrite hex_digits_app, hex_digits_zeros, Hval. f_equal; lia.
Qed.

Lemma BigInt_hex_bigIntToHex k :
  (0 ≤ k)%Z → Mpc.BigInt_hex (MpcKeys.bigIntToHex k) = Some k.
Proof.
  intros Hk. destruct (hex_digits_bigIntToHex k Hk). by apply BigInt_hex_digits.
Qed.

Lemma mod__spec a b : (0 < b)%Z → Mpc.mod_ a b = (a mod b)%Z.
Proof.
  intros Hb. unfold Mpc.mod_.
  pose proof (Z.quot_rem' a b) as Hqr.
  assert (Hbound : (- b < Z.rem a b < b)%Z).
  { destruct (Z_lt_ge_dec a 0).
    - pose proof (Z.rem_bound_pos (- a) b ltac:(lia) Hb) as Hn.
      rewrite Z.rem_opp_l in Hn by lia. lia.
    - pose proof (Z.rem_bound_pos a b ltac:(lia) Hb). lia. }
  destruct (Z.leb_spec 0 (Z.rem a b)) as [Hr|Hr].
  - apply Z.mod_unique_pos with (q := Z.quot a b); lia.
  - apply Z.mod_unique_pos with (q := (Z.quot a b - 1)%Z); lia.
Qed.

Lemma toString16_aux_length fuel : ∀ k rest m,
  (0 ≤ k < 16 ^ Z.of_nat m)%Z → (0 < m)%nat → (0 < fuel)%nat →
  (String.length (MpcKeys.toString16_aux fuel k rest) ≤ m + String.length rest)%nat.
Proof.
  induction fuel as [|f IH]; intros k rest m Hk Hm Hf; [lia|].
  cbn [MpcKeys.toString16_aux].
  destruct (k / 16 =? 0)%Z eqn:Hq; [simpl; lia|].
  apply Z.eqb_neq in Hq.
  assert (Hk16 : (16 ≤ k)%Z).
  { destruct (Z_lt_ge_dec k 16); [|lia]. exfalso. apply Hq, Z.div_small. lia. }
  destruct m as [|[|m]]; [lia| |].
  - change (16 ^ Z.of_nat 1)%Z with 16%Z in Hk. lia.
  - destruct f as [|f].
    + simpl. lia.
    + etrans.
      * apply (IH (k / 16)%Z _ (S m)); [|lia|lia].
        split; [apply Z.div_pos; lia|].
        apply Z.div_lt_upper_bound; [lia|].
        rewrite (Nat2Z.inj_succ (S m)), Z.pow_succ_r in Hk by lia. lia.
      * simpl. lia.
Qed.

Lemma length_append s1 s2 :
  String.length (String.append s1 s2) = (String.length s1 + String.length s2)%nat.
Proof. induction s1 as [|x s1 IH]; [reflexivity|]. rewrite append_cons. simpl. by rewrite IH. Qed.

Lemma length_zeros m : String.length (string_of_list_ascii (repeat "0"%char m)) = m.
Proof. induction m as [|m IH]; simpl; [reflexivity|]. by rewrite IH. Qed.

Lemma bigIntToHex_length k :
  (0 ≤ k < 2 ^ 256)%Z → String.length (MpcKeys.bigIntToHex k) = 64%nat.
Proof.
  intros Hk. unfold MpcKeys.bigIntToHex, MpcKeys.padStart0.
  rewrite length_append, length_zeros.
  assert (String.length (MpcKeys.toString16 k) ≤ 64)%nat; [|lia].
  unfold MpcKeys.toString16.
  destruct (k <? 0)%Z eqn:Hneg; [apply Z.ltb_lt in Hneg; lia|].
  etrans; [apply (toString16_aux_length _ k "" 64)|simpl; lia]; [|lia|lia].
  change (16 ^ Z.of_nat 64)%Z with (2 ^ 256)%Z. done.
Qed.

Lemma reconstruct_mod s a : Payment.reconstruct s a = ((s + a) mod Mpc.n)%Z.
Proof.
  unfold Payment.reconstruct.
  assert (Hn : (0 < Mpc.n)%Z) by (vm_compute; reflexivity).
  pose proof (Z.quot_rem' (s + a) Mpc.n) as Hqr.
  set (x := (s + a)%Z) in *.
  assert (Hbound : (- Mpc.n < Z.rem x Mpc.n < Mpc.n)%Z).
  { destruct (Z_lt_ge_dec x 0).
    - pose proof (Z.rem_bound_pos (- x) Mpc.n ltac:(lia) Hn) as Hb.
      rewrite Z.rem_opp_l in Hb by lia. lia.
    - pose proof (Z.rem_bound_pos x Mpc.n ltac:(lia) Hn). lia. }
  rewrite Z.rem_mod_nonneg by lia.
  rewrite <- Z.add_mod_idemp_r, Z.mod_same, Z.add_0_r by lia.
  rewrite <- (mod__spec x Mpc.n Hn). unfold Mpc.mod_.
  destruct (Z.leb_spec 0 (Z.rem x Mpc.n)).
  - apply Z.mod_small. lia.
  - symmetry. rewrite <- (Z.mod_small (Z.rem x Mpc.n + Mpc.n) Mpc.n) at 1 by lia.
    rewrite <- Z.add_mod_idemp_r, Z.mod_same, Z.add_0_r by lia. reflexivity.
Qed.

(** X1.  Hex rendering of a key and its parse.  [bigIntToHex] of a
    non-negative integer is read back by [BigInt("0x" + ...)] as the
    same integer, and an integer below 2^256 is rendered with exactly
    64 hex digits. *)
Theorem bigIntToHex_round_trip (k : Z) :
  (0 ≤ k)%Z →
  Mpc.BigInt_hex (MpcKeys.bigIntToHex k) = Some k
  ∧ ((k < 2 ^ 256)%Z → String.length (MpcKeys.bigIntToHex k) = 64%nat).
Proof.
  intros Hk. split; [by apply BigInt_hex_bigIntToHex|].
  intros Hlt. apply bigIntToHex_length. lia.
Qed.

Lemma bigIntToHex_round_trip_witness :
  Mpc.BigInt_hex (MpcKeys.bigIntToHex 255) = Some 255%Z
  ∧ ((255 < 2 ^ 256)%Z → String.length (MpcKeys.bigIntToHex 255) = 64%nat).
Proof. apply (bigIntToHex_round_trip 255). lia. Defined.

(** X2.  The two key reconstructions agree.  The formula written inline
    in [processPayment], [((s + a) % n + n) % n], and [mod(s + a, n)] of
    the signer both compute the mathematical residue of [s + a] modulo
    the group order, which lies in [0, n). *)
Theorem reconstruct_agrees (serverBig agentBig : Z) :
  Payment.reconstruct serverBig agentBig = Mpc.mod_ (serverBig + agentBig) Mpc.n
  ∧ Mpc.mod_ (serverBig + agentBig) Mpc.n = ((serverBig + agentBig) mod Mpc.n)%Z
  ∧ (0 ≤ Payment.reconstruct serverBig agentBig < Mpc.n)%Z.
Proof.
  assert (Hn : (0 < Mpc.n)%Z) by (vm_compute; reflexivity).
  rewrite reconstruct_mod, mod__spec by done.
  repeat split; try reflexivity; apply Z.mod_pos_bound; done.
Qed.

(** X3.  Key generation.  With both public keys derivable,
    [generateMPCKeyPair] passes its own verification exactly when the
    full key lies in [0, n); the agent shard it hands out parses to
    (full - server) mod n; and, when the cipher decrypts what it
    encrypted, [signWithMPC] given the two generated shards signs with
    exactly the full key, which is also what the inline reconstruction
    of [processPayment] computes. *)
Theorem generateMPCKeyPair_spec
    (getPublicKey : Z → bool → option string)
    (encryptShard : string → string → string → string)
    (decryptShard : string → string → option string)
    (deriveEthAddress : string → string)
    (signAsync : string → Z → bool → option Mpc.EcdsaSignature)
    (fullKeyBig serverShardBig : Z) (iv encryptionKey messageHash : string)
    (pkU pkC : string) :
  getPublicKey fullKeyBig false = Some pkU →
  getPublicKey fullKeyBig true = Some pkC →
  (0 ≤ serverShardBig)%Z →
  decryptShard (encryptShard (MpcKeys.bigIntToHex serverShardBig) encryptionKey iv)
    encryptionKey = Some (MpcKeys.bigIntToHex serverShardBig) →
  let generated :=
    MpcKeys.generateMPCKeyPair getPublicKey encryptShard deriveEthAddress
      fullKeyBig serverShardBig iv encryptionKey in
  ((0 ≤ fullKeyBig < Mpc.n)%Z ↔ ∃ keys, generated = inr keys)
  ∧ (¬ (0 ≤ fullKeyBig < Mpc.n)%Z → generated = inl MpcKeys.VerificationFailed)
  ∧ ∀ keys, generated = inr keys →
      MpcKeys.publicKey keys = pkC
      ∧ Mpc.BigInt_hex (MpcKeys.agentShard keys)
        = Some ((fullKeyBig - serverShardBig) mod Mpc.n)%Z
      ∧ Mpc.signWithMPC decryptShard signAsync messageHash
          (MpcKeys.serverShard keys) encryptionKey (MpcKeys.agentShard keys)
        = match signAsync (Mpc.strip0x messageHash) fullKeyBig true with
          | None => Threw SignerError
          | Some sig =>
              Returned {| Mpc.r := Mpc.sig_r sig; Mpc.s := Mpc.sig_s sig;
                          Mpc.v := 27 + default 0%Z (Mpc.sig_recovery sig) |}
          end
      ∧ Payment.reconstruct serverShardBig ((fullKeyBig - serverShardBig) mod Mpc.n)
        = fullKeyBig.
Proof.
  intros HpkU HpkC Hs Hcipher generated.
  assert (Hn : (0 < Mpc.n)%Z) by (vm_compute; reflexivity).
  assert (Hrec : Mpc.mod_ (serverShardBig + Mpc.mod_ (fullKeyBig - serverShardBig) Mpc.n) Mpc.n
                 = (fullKeyBig mod Mpc.n)%Z).
  { rewrite !mod__spec by done. rewrite Z.add_mod_idemp_r by lia. f_equal. lia. }
  assert (Hagent : (0 ≤ (fullKeyBig - serverShardBig) mod Mpc.n)%Z)
    by (apply Z.mod_pos_bound; done).
  subst generated. unfold MpcKeys.generateMPCKeyPair.
  rewrite HpkU, HpkC, Hrec.
  destruct (Z.eqb_spec (fullKeyBig mod Mpc.n) fullKeyBig) as [Heq|Hneq]; cbn [negb].
  - assert (Hrange : (0 ≤ fullKeyBig < Mpc.n)%Z).
    { rewrite <- Heq. apply Z.mod_pos_bound. done. }
    split; [split; [eauto|done]|]. split; [done|].
    intros keys [= <-]. cbn [MpcKeys.publicKey MpcKeys.agentShard MpcKeys.serverShard].
    rewrite mod__spec by done.
    split; [reflexivity|]. split; [by apply BigInt_hex_bigIntToHex|].
    split.
    + unfold Mpc.signWithMPC. rewrite Hcipher.
      rewrite !BigInt_hex_bigIntToHex by done.
      rewrite mod__spec, Z.add_mod_idemp_r by lia.
      replace (serverShardBig + (fullKeyBig - serverShardBig))%Z with fullKeyBig by lia.
      rewrite Heq. reflexivity.
    + rewrite reconstruct_mod, Z.add_mod_idemp_r by lia.
      replace (serverShardBig + (fullKeyBig - serverShardBig))%Z with fullKeyBig by lia.
      exact Heq.
  - assert (Hrange : ¬ (0 ≤ fullKeyBig < Mpc.n)%Z).
    { intros Hr. apply Hneq. apply Z.mod_small. done. }
    split; [split; [done|intros [keys [=]]]|]. split; [done|]. intros keys [=].
Qed.

Lemma generateMPCKeyPair_spec_witness :
  let getPublicKey := λ (_ : Z) (c : bool), Some (if c then "02ab" else "04abcd")%string in
  let encryptShard := λ (shard _ _ : string), shard in
  let decryptShard := λ (c _ : string), Some c in
  let generated :=
    MpcKeys.generateMPCKeyPair getPublicKey encryptShard (λ s, s) 7 5 "iv" "k" in
  ((0 ≤ 7 < Mpc.n)%Z ↔ ∃ keys, generated = inr keys)
  ∧ (¬ (0 ≤ 7 < Mpc.n)%Z → generated = inl MpcKeys.VerificationFailed)
  ∧ ∀ keys, generated = inr keys →
      MpcKeys.publicKey keys = "02ab"%string
      ∧ Mpc.BigInt_hex (MpcKeys.agentShard keys) = Some ((7 - 5) mod Mpc.n)%Z
      ∧ Mpc.signWithMPC decryptShard (λ _ _ _, None) "0xaa"
          (MpcKeys.serverShard keys) "k" (MpcKeys.agentShard keys)
        = Threw SignerError
      ∧ Payment.reconstruct 5 ((7 - 5) mod Mpc.n) = 7%Z.
Proof.
  intros getPublicKey encryptShard decryptShard.
  apply (generateMPCKeyPair_spec getPublicKey encryptShard decryptShard (λ s, s)
           (λ _ _ _, None) 7 5 "iv" "k" "0xaa" "04abcd" "02ab");
    [reflexivity|reflexivity|lia|reflexivity].
Defined.

(** X4.  Shard verification.  [verifyAgentShard] accepts the agent
    shard that [generateMPCKeyPair] handed out, against the server
    shard and the public key it produced, also when white space
    follows the shard (which [BigInt] trims); and it answers [false],
    without throwing, on a shard that [BigInt] does not parse. *)
Theorem verifyAgentShard_accepts_generated
    (getPublicKey : Z → bool → option string)
    (encryptShard : string → string → string → string)
    (decryptShard : string → string → option string)
    (deriveEthAddress : string → string)
    (fullKeyBig serverShardBig : Z) (iv encryptionKey : string)
    (keys : MpcKeys.MPCKeyPair) :
  (0 ≤ serverShardBig)%Z →
  decryptShard (encryptShard (MpcKeys.bigIntToHex serverShardBig) encryptionKey iv)
    encryptionKey = Some (MpcKeys.bigIntToHex serverShardBig) →
  MpcKeys.generateMPCKeyPair getPublicKey encryptShard deriveEthAddress
    fullKeyBig serverShardBig iv encryptionKey = inr keys →
  MpcKeys.verifyAgentShard getPublicKey decryptShard (MpcKeys.agentShard keys)
    (MpcKeys.serverShard keys) encryptionKey (MpcKeys.publicKey keys) = true
  ∧ (∀ badShard expected,
       Mpc.BigInt_hex badShard = None →
       MpcKeys.verifyAgentShard getPublicKey decryptShard badShard
         (MpcKeys.serverShard keys) encryptionKey expected = false)
  ∧ ∀ space,
      Mpc.all_ws space = true →
      MpcKeys.verifyAgentShard getPublicKey decryptShard
        (String.append (MpcKeys.agentShard keys) space)
        (MpcKeys.serverShard keys) encryptionKey (MpcKeys.publicKey keys) = true.
Proof.
  intros Hs Hcipher Hgen.
  assert (Hn : (0 < Mpc.n)%Z) by (vm_compute; reflexivity).
  unfold MpcKeys.generateMPCKeyPair in Hgen.
  destruct (getPublicKey fullKeyBig false) as [pkU|] eqn:HpkU; [|done].
  destruct (getPublicKey fullKeyBig true) as [pkC|] eqn:HpkC; [|done].
  destruct (negb _) eqn:Hcheck in Hgen; [done|].
  apply negb_false_iff, Z.eqb_eq in Hcheck.
  injection Hgen as <-.
  cbn [MpcKeys.publicKey MpcKeys.agentShard MpcKeys.serverShard].
  assert (Hagent : (0 ≤ Mpc.mod_ (fullKeyBig - serverShardBig) Mpc.n)%Z).
  { rewrite mod__spec by done. apply Z.mod_pos_bound. done. }
  split; [|split].
  - unfold MpcKeys.verifyAgentShard. rewrite Hcipher.
    rewrite !BigInt_hex_bigIntToHex by done.
    rewrite Hcheck, HpkC. by apply bool_decide_eq_true_2.
  - intros badShard expected Hbad. unfold MpcKeys.verifyAgentShard.
    rewrite Hcipher, Hbad, BigInt_hex_bigIntToHex by done. reflexivity.
  - intros space Hspace. unfold MpcKeys.verifyAgentShard. rewrite Hcipher.
    destruct (hex_digits_bigIntToHex _ Hagent) as [Hne Hhex].
    rewrite (BigInt_hex_trailing_ws _ _ _ Hne Hhex Hspace).
    rewrite BigInt_hex_bigIntToHex by done.
    rewrite Hcheck, HpkC. by apply bool_decide_eq_true_2.
Qed.

Lemma verifyAgentShard_accepts_generated_witness :
  let getPublicKey := λ (_ : Z) (c : bool), Some (if c then "02ab" else "04abcd")%string in
  let encryptShard := λ (shard _ _ : string), shard in
  let decryptShard := λ (c _ : string), Some c in
  ∃ keys,
    MpcKeys.generateMPCKeyPair getPublicKey encryptShard (λ s, s) 7 5 "iv" "k" = inr keys
    ∧ MpcKeys.verifyAgentShard getPublicKey decryptShard (MpcKeys.agentShard keys)
        (MpcKeys.serverShard keys) "k" (MpcKeys.publicKey keys) = true
    ∧ MpcKeys.verifyAgentShard getPublicKey decryptShard
        (String.append (MpcKeys.agentShard keys) (String "010" ""))
        (MpcKeys.serverShard keys) "k" (MpcKeys.publicKey keys) = true.
Proof.
  intros getPublicKey encryptShard decryptShard.
  eexists. split; [vm_compute; reflexivity|].
  destruct (verifyAgentShard_accepts_generated getPublicKey encryptShard decryptShard
              (λ s, s) 7 5 "iv" "k" _ ltac:(lia) eq_refl eq_refl) as (Hok & _ & Hws).
  split; [exact Hok|]. apply Hws. reflexivity.
Defined.

(** ** Deposits and fees *)

Lemma getSharePrice_vault d v :
  DB.vault d = Some v →
  Vault.getSharePrice d
  = Returned (if decide (DB.total_shares v = 0) then 1
              else DB.total_deposits_usdc v / DB.total_shares v).
Proof.
  intros Hv. unfold Vault.getSharePrice, Vault.getVaultState, DB.vaultQueries_get.
  rewrite Hv. cbn. by destruct (decide (DB.total_shares v = 0)).
Qed.


Lemma Qc_mult_nonneg (a b : Qc) : 0 ≤ a → 0 ≤ b → 0 ≤ a * b.
Proof.
  intros Ha Hb. pose proof (Qcmult_le_compat_r 0 a b Ha Hb) as H.
  by rewrite Qcmult_0_l in H.
Qed.

Lemma existsb_position_used (id : string) (ps : list DB.PositionRow) (q : DB.PositionRow) :
  q ∈ ps → DB.position_id q = id →
  existsb (λ p, bool_decide (DB.position_id p = id)) ps = true.
Proof.
  intros Hin Hid. apply existsb_exists. exists q.
  split; [by apply list_elem_of_In|by apply bool_decide_eq_true_2].
Qed.

(** X5.  Deposits.  At a share price [p] other than 0, [processDeposit]
    under a fresh position id returns and stores the position with the
    lower-cased lender, the amount, [amount / p] shares and no yield,
    adds the amount to the vault's deposits and [amount / p] to its
    share count, and changes no other column or table; under an id
    already in use it throws the primary-key error and leaves the store
    as it was.  The price is 1 for a vault without shares, else
    deposits / shares. *)
Theorem processDeposit_spec (positionId lender txHash : string)
    (amountUsdc p : Qc) (d : DB.t) (v : DB.VaultRow) :
  DB.vault d = Some v → Vault.getSharePrice d = Returned p → p ≠ 0 →
  p = (if decide (DB.total_shares v = 0) then 1
       else DB.total_deposits_usdc v / DB.total_shares v)
  ∧ (∀ q, q ∈ DB.lender_positions d → DB.position_id q = positionId →
       Vault.processDeposit positionId lender amountUsdc txHash d
       = (Threw (SqliteError PrimaryKey), d))
  ∧ ((∀ q, q ∈ DB.lender_positions d → DB.position_id q ≠ positionId) →
     let pos := {| DB.position_id := positionId;
                   DB.lender_address := Js.toLowerCase lender;
                   DB.deposited_usdc := amountUsdc;
                   DB.shares_owned := amountUsdc / p;
                   DB.earned_yield_usdc := 0;
                   DB.deposit_tx_hash := txHash |} in
     ∃ d',
       Vault.processDeposit positionId lender amountUsdc txHash d = (Returned pos, d')
       ∧ DB.lender_positions d' = pos :: DB.lender_positions d
       ∧ DB.vault d'
         = Some {| DB.total_deposits_usdc := DB.total_deposits_usdc v + amountUsdc;
                   DB.total_lent_usdc := DB.total_lent_usdc v;
                   DB.total_fees_earned_usdc := DB.total_fees_earned_usdc v;
                   DB.total_shares := DB.total_shares v + amountUsdc / p |}
       ∧ DB.agents d' = DB.agents d ∧ DB.merchants d' = DB.merchants d
       ∧ DB.transactions d' = DB.transactions d ∧ DB.repayments d' = DB.repayments d
       ∧ DB.sanctioned_addresses d' = DB.sanctioned_addresses d).
Proof.
  intros Hv Hp _.
  split.
  { rewrite (getSharePrice_vault d v Hv) in Hp. by injection Hp as <-. }
  split.
  - intros q Hin Hid. unfold Vault.processDeposit. rewrite Hp.
    unfold DB.lenderQueries_create.
    by rewrite (existsb_position_used positionId _ q Hin Hid).
  - intros Hfresh pos. unfold Vault.processDeposit. rewrite Hp.
    unfold DB.lenderQueries_create.
    rewrite existsb_position_fresh by exact Hfresh.
    eexists. split; [reflexivity|]. cbn. rewrite Hv. done.
Qed.


(** ** Withdrawals *)






Lemma db_lender_price : Vault.getSharePrice VaultScenario.db_lender = Returned 1.
Proof.
  unfold Vault.getSharePrice. cbn.
  destruct (decide _) as [H|_]; [discriminate H|].
  f_equal. apply Qc_is_canon. reflexivity.
Qed.

Lemma db_lender_fresh (id : string) :
  id ≠ "pos-1"%string →
  ∀ q, q ∈ DB.lender_positions VaultScenario.db_lender → DB.position_id q ≠ id.
Proof.
  intros Hne q Hq. cbn in Hq. apply list_elem_of_singleton in Hq as ->. cbn. congruence.
Qed.

Lemma processDeposit_spec_witness :
  ∃ d',
    Vault.processDeposit "pos-2" "0xBEEF" (Qc_of_Z 100) "0xd2" VaultScenario.db_lender
    = (Returned {| DB.position_id := "pos-2"; DB.lender_address := "0xbeef";
                   DB.deposited_usdc := Qc_of_Z 100;
                   DB.shares_owned := Qc_of_Z 100 / 1;
                   DB.earned_yield_usdc := 0; DB.deposit_tx_hash := "0xd2" |}, d')
    ∧ DB.lender_positions d'
      = {| DB.position_id := "pos-2"; DB.lender_address := "0xbeef";
           DB.deposited_usdc := Qc_of_Z 100;
           DB.shares_owned := Qc_of_Z 100 / 1;
           DB.earned_yield_usdc := 0; DB.deposit_tx_hash := "0xd2" |}
        :: DB.lender_positions VaultScenario.db_lender.
Proof.
  destruct (processDeposit_spec "pos-2" "0xBEEF" "0xd2" (Qc_of_Z 100) 1
              VaultScenario.db_lender Scenario.vault_funded eq_refl db_lender_price
              ltac:(discriminate)) as (_ & _ & Hok).
  destruct (Hok (db_lender_fresh "pos-2" ltac:(discriminate))) as (d' & H1 & H2 & _).
  exists d'. split; [exact H1|exact H2].
Defined.




(** ** Rounding *)

Lemma Math_round_Z (k : Z) : Vault.Math_round (Qc_of_Z k) = k.
Proof.
  unfold Vault.Math_round.
  assert (Hx : (this (Qc_of_Z k) + this (Q2Qc (1 # 2)) == inject_Z k + (1 # 2))%Q).
  { unfold Qc_of_Z. cbn [this Q2Qc]. rewrite !Qred_correct. reflexivity. }
  rewrite (Qfloor_comp _ _ Hx).
  pose proof (Qfloor_le (inject_Z k + (1 # 2))) as Hle.
  pose proof (Qlt_floor (inject_Z k + (1 # 2))) as Hlt.
  set (f := Qfloor _) in *. clearbody f.
  unfold Qle, Qlt, Qplus, inject_Z in Hle, Hlt. cbn in Hle, Hlt. lia.
Qed.

Lemma Math_round_mono (x y : Qc) : x ≤ y → (Vault.Math_round x ≤ Vault.Math_round y)%Z.
Proof.
  intros H. unfold Vault.Math_round. apply Qfloor_resp_le.
  unfold Qcle in H. lra.
Qed.

Lemma Math_round_le_Z (x : Qc) (k : Z) : x ≤ Qc_of_Z k → (Vault.Math_round x ≤ k)%Z.
Proof. intros H. rewrite <- (Math_round_Z k). by apply Math_round_mono. Qed.

Lemma Math_round_nonneg (x : Qc) : 0 ≤ x → (0 ≤ Vault.Math_round x)%Z.
Proof.
  intros H. rewrite <- (Math_round_Z 0). by apply Math_round_mono.
Qed.

(** ** Risk scoring *)

(** X11.  The dynamic risk score.  [calculateRiskScore] always lies in
    [0, 100].  An agent without delinquencies that has borrowed
    nothing, or has repaid at least 80% of what it borrowed, scores at
    most 70, the threshold of the risk gate; an agent with more than
    three delinquencies that has repaid less than half scores above
    70, whatever its age, volume and recipients. *)
Theorem calculateRiskScore_bounds (totalTransactions totalRepaid totalBorrowed
    delinquentCount accountAgeDays avgTxSize maxTxSize uniqueRecipients : Qc) :
  let s := Kya.calculateRiskScore totalTransactions totalRepaid totalBorrowed
             delinquentCount accountAgeDays avgTxSize maxTxSize uniqueRecipients in
  (0 ≤ s ≤ 100)%Z
  ∧ (delinquentCount = 0 →
     totalBorrowed ≤ 0 ∨ Q2Qc (80 # 100) ≤ totalRepaid / totalBorrowed →
     (s ≤ 70)%Z)
  ∧ (Qc_of_Z 3 < delinquentCount →
     0 < totalBorrowed → totalRepaid / totalBorrowed < Q2Qc (50 # 100) →
     (70 < s)%Z).
Proof.
  unfold Kya.calculateRiskScore. cbv zeta.
  set (s1 := if decide (0 < totalBorrowed) then _ else _).
  assert (H1 : (30 ≤ s1 ≤ 75)%Z
               ∧ (totalBorrowed ≤ 0 ∨ Q2Qc (80 # 100) ≤ totalRepaid / totalBorrowed →
                  (s1 ≤ 50)%Z)
               ∧ (0 < totalBorrowed → totalRepaid / totalBorrowed < Q2Qc (50 # 100) →
                  s1 = 75%Z)).
  { subst s1. destruct (decide (0 < totalBorrowed)) as [Hb|Hb].
    - set (ratio := totalRepaid / totalBorrowed). clearbody ratio.
      assert (Hno : ∀ c : Qc, Q2Qc (50 # 100) ≤ c → c ≤ ratio →
                ratio < Q2Qc (50 # 100) → False).
      { intros c Hc Hle Hlt. apply (Qcle_not_lt _ _ Hle).
        eapply Qclt_le_trans; [exact Hlt|exact Hc]. }
      destruct (decide (Q2Qc (98 # 100) ≤ ratio)) as [H98|H98].
      { split; [lia|]. split; [intros; lia|]. intros _ Hr. exfalso.
        apply (Hno (Q2Qc (98 # 100)) ltac:(vm_compute; discriminate) H98 Hr). }
      destruct (decide (Q2Qc (90 # 100) ≤ ratio)) as [H90|H90].
      { split; [lia|]. split; [intros; lia|]. intros _ Hr. exfalso.
        apply (Hno (Q2Qc (90 # 100)) ltac:(vm_compute; discriminate) H90 Hr). }
      destruct (decide (Q2Qc (80 # 100) ≤ ratio)) as [H80|H80].
      { split; [lia|]. split; [intros; lia|]. intros _ Hr. exfalso.
        apply (Hno (Q2Qc (80 # 100)) ltac:(vm_compute; discriminate) H80 Hr). }
      assert (Hor : totalBorrowed ≤ 0 ∨ Q2Qc (80 # 100) ≤ ratio → False).
      { intros [Hle|Hge]; [by apply (Qcle_not_lt _ _ Hle)|done]. }
      destruct (decide (Q2Qc (50 # 100) ≤ ratio)) as [H50|H50].
      { split; [lia|]. split; [intros Hx; destruct (Hor Hx)|]. intros _ Hr. exfalso.
        apply (Hno (Q2Qc (50 # 100)) ltac:(vm_compute; discriminate) H50 Hr). }
      split; [lia|]. split; [intros Hx; destruct (Hor Hx)|]. done.
    - split; [lia|]. split; [intros; lia|]. intros Hb'. done. }
  clearbody s1.
  set (s2 := if decide (delinquentCount = 0) then _ else _).
  assert (H2 : (s1 - 5 ≤ s2 ≤ s1 + 25)%Z
               ∧ (delinquentCount = 0 → s2 = (s1 - 5)%Z)
               ∧ (Qc_of_Z 3 < delinquentCount → s2 = (s1 + 25)%Z)).
  { subst s2. destruct (decide (delinquentCount = 0)) as [H0|H0].
    - split; [lia|]. split; [done|]. intros H3. exfalso. rewrite H0 in H3.
      revert H3. vm_compute. discriminate.
    - destruct (decide (delinquentCount = 1)) as [H1'|H1'].
      + split; [lia|]. split; [done|]. intros H3. exfalso. rewrite H1' in H3.
        revert H3. vm_compute. discriminate.
      + destruct (decide (delinquentCount ≤ Qc_of_Z 3)) as [H3'|H3'].
        * split; [lia|]. split; [done|]. intros H3. exfalso.
          by apply (Qcle_not_lt _ _ H3').
        * split; [lia|]. split; done. }
  clearbody s2.
  set (s3 := if decide (Qc_of_Z 180 < accountAgeDays) then _ else _).
  assert (H3 : (s2 - 10 ≤ s3 ≤ s2 + 10)%Z)
    by (subst s3; repeat destruct (decide _); lia).
  clearbody s3.
  set (s4 := if decide (Qc_of_Z 200 < totalTransactions) then _ else _).
  assert (H4 : (s3 - 8 ≤ s4 ≤ s3)%Z)
    by (subst s4; repeat destruct (decide _); lia).
  clearbody s4.
  set (s5 := if bool_decide (avgTxSize * Qc_of_Z 10 < maxTxSize) && _ then _ else _).
  assert (H5 : (s4 ≤ s5 ≤ s4 + 10)%Z)
    by (subst s5; destruct (_ && _); lia).
  clearbody s5.
  set (s6 := if bool_decide (Qc_of_Z 10 < totalTransactions) && _ then _ else _).
  assert (H6 : (s5 ≤ s6 ≤ s5 + 5)%Z)
    by (subst s6; destruct (_ && _); lia).
  clearbody s6.
  set (s7 := if decide (Qc_of_Z 10 ≤ uniqueRecipients) then _ else _).
  assert (H7 : (s6 - 5 ≤ s7 ≤ s6)%Z)
    by (subst s7; repeat destruct (decide _); lia).
  clearbody s7.
  destruct H1 as (H1 & H1b & H1c). destruct H2 as (H2 & H2b & H2c).
  split; [lia|]. split.
  - intros Hd Hr. specialize (H1b Hr). specialize (H2b Hd). lia.
  - intros Hd Hb Hr. specialize (H1c Hb Hr). specialize (H2c Hd). lia.
Qed.

(** ** Underwriting *)

Lemma Qc_of_Z_le (a b : Z) : (a ≤ b)%Z ↔ Qc_of_Z a ≤ Qc_of_Z b.
Proof.
  unfold Qc_of_Z. qc_unfold. symmetry. rewrite Zle_Qle. reflexivity.
Qed.

Lemma includes_elem_of (l : list string) (s : string) :
  Compliance.includes l s = true ↔ s ∈ l.
Proof.
  unfold Compliance.includes. rewrite existsb_exists. split.
  - intros (x & Hin & Hx). apply bool_decide_eq_true in Hx as ->.
    by apply list_elem_of_In.
  - intros Hin. exists s. split; [by apply list_elem_of_In|by apply bool_decide_eq_true].
Qed.

Lemma history_limit_nonneg c h : 0 ≤ c → 0 ≤ (Kya.history_limit c h).1.
Proof.
  intros Hc. unfold Kya.history_limit.
  assert (Hm : ∀ k cap : Qc, 0 ≤ k → 0 ≤ cap → 0 ≤ Js.Math_min (c * k) cap).
  { intros k cap Hk Hcap. apply Math_min_nonneg; [|done]. by apply Qc_mult_nonneg. }
  repeat case_match; cbn [fst];
    first [ apply Hm; vm_compute; discriminate
          | done
          | unfold Kya.Math_max; case_match; [apply Qcle_refl|];
            apply Qc_mult_nonneg; [done|vm_compute; discriminate] ].
Qed.

(** X12.  Underwriting stays within the tier.  The credit limit that
    [underwriteAgent] decides never exceeds the cap of the agent's tier
    (50, 500, 5000, 50000), and is not negative when the recommended
    limit is not; the decision is approved exactly when the KYA status
    is approved and the limit is positive; a mixer-exposure flag
    forces the limit to 0 and the decision to not approved; a
    high-agent-count flag caps the limit at 100. *)
Theorem underwriteAgent_bounds (agentId : string) (kyaResult : Kya.KYAResult)
    (transactionHistory : option Kya.TransactionHistory) :
  let decision := Kya.underwriteAgent agentId kyaResult transactionHistory in
  Qc_of_Z (Kya.creditLimit decision) ≤ Kya.tierCaps (Kya.tier kyaResult)
  ∧ (Kya.creditLimit decision ≤ 50000)%Z
  ∧ (0 ≤ Kya.creditRecommendation kyaResult → (0 ≤ Kya.creditLimit decision)%Z)
  ∧ (Kya.approved decision = true
     ↔ Kya.status kyaResult = DB.kya_approved ∧ (0 < Kya.creditLimit decision)%Z)
  ∧ ("MIXER_EXPOSURE"%string ∈ Kya.flags kyaResult →
     Kya.creditLimit decision = 0%Z ∧ Kya.approved decision = false)
  ∧ ("HIGH_AGENT_COUNT"%string ∈ Kya.flags kyaResult →
     (Kya.creditLimit decision ≤ 100)%Z)
  ∧ Kya.riskScore decision = (100 - Kya.kyaScore kyaResult)%Z
  ∧ Kya.decisionTier decision = Kya.tier kyaResult.
Proof.
  unfold Kya.underwriteAgent.
  set (start := match transactionHistory with Some h => _ | None => _ end).
  assert (Hstart : 0 ≤ Kya.creditRecommendation kyaResult → 0 ≤ start.1.1).
  { intros Hc. subst start. destruct transactionHistory as [h|]; [|done].
    pose proof (history_limit_nonneg _ h Hc) as Hh.
    destruct (Kya.history_limit _ h). exact Hh. }
  destruct start as [[c0 factors0] conditions0]. cbn [fst] in Hstart.
  cbv zeta.
  set (hasFlags := negb _).
  set (mixer := hasFlags && Compliance.includes (Kya.flags kyaResult) "MIXER_EXPOSURE").
  set (sybil := hasFlags && Compliance.includes (Kya.flags kyaResult) "HIGH_AGENT_COUNT").
  set (c1 := if mixer then 0 else c0).
  set (c2 := if sybil then Js.Math_min c1 (Qc_of_Z 100) else c1).
  set (cap := Kya.or_number (Kya.tierCaps (Kya.tier kyaResult)) (Qc_of_Z 50)).
  cbn [Kya.creditLimit Kya.approved Kya.riskScore Kya.decisionTier].
  assert (Hcap : cap = Kya.tierCaps (Kya.tier kyaResult)).
  { subst cap. unfold Kya.or_number. destruct (Kya.tier kyaResult); cbn;
      (destruct (decide _) as [H0|_]; [discriminate H0|reflexivity]). }
  assert (Hcapz : ∃ k : Z, cap = Qc_of_Z k ∧ (0 < k ≤ 50000)%Z).
  { rewrite Hcap. destruct (Kya.tier kyaResult); cbn; eexists; (split; [reflexivity|lia]). }
  destruct Hcapz as (k & Hk & Hkr).
  assert (Hround : (Vault.Math_round (Js.Math_min c2 cap) ≤ k)%Z).
  { apply Math_round_le_Z. rewrite <- Hk. apply Math_min_le_r. }
  assert (Hhas : ∀ f, f ∈ Kya.flags kyaResult → hasFlags = true).
  { intros f Hf. subst hasFlags. destruct (Kya.flags kyaResult); [|done].
    by apply elem_of_nil in Hf. }
  split; [|split; [|split; [|split; [|split; [|split]]]]].
  - rewrite <- Hcap. rewrite Hk in Hround |- *.
    apply (proj1 (Qc_of_Z_le _ _)). exact Hround.
  - lia.
  - intros Hc. specialize (Hstart Hc). apply Math_round_nonneg.
    apply Math_min_nonneg.
    + subst c2 c1. destruct sybil, mixer;
        try apply Math_min_nonneg; try done; try apply Qcle_refl.
    + rewrite Hk. apply (proj1 (Qc_of_Z_le 0 k)). lia.
  - rewrite andb_true_iff, bool_decide_eq_true, Z.ltb_lt. reflexivity.
  - intros Hm. pose proof (Hhas _ Hm) as Hh.
    apply includes_elem_of in Hm.
    assert (mixer = true) as Hmx by (subst mixer; by rewrite Hh, Hm).
    assert (Hc2 : c2 = 0).
    { subst c2 c1. rewrite Hmx. destruct sybil; [|done].
      unfold Js.Math_min. rewrite decide_True; [done|]. vm_compute. discriminate. }
    rewrite Hc2.
    assert (Hmin : Js.Math_min 0 cap = 0).
    { unfold Js.Math_min. rewrite decide_True; [done|]. rewrite Hk.
      apply (proj1 (Qc_of_Z_le 0 k)). lia. }
    rewrite Hmin. change (Vault.Math_round 0) with (Vault.Math_round (Qc_of_Z 0)).
    rewrite Math_round_Z. split; [done|]. by rewrite andb_false_r.
  - intros Hs. pose proof (Hhas _ Hs) as Hh.
    apply includes_elem_of in Hs.
    assert (sybil = true) as Hsy by (subst sybil; by rewrite Hh, Hs).
    apply Math_round_le_Z. etrans; [apply Math_min_le_l|].
    subst c2. rewrite Hsy. apply Math_min_le_r.
  - done.
Qed.

(** ** Surveillance *)

Lemma existsb_alert_if c a :
  existsb Kya.blocks (Kya.alert_if c a) = c && Kya.blocks a.
Proof. destruct c; cbn; [by rewrite orb_false_r|done]. Qed.

Lemma length_alert_if c a : (length (Kya.alert_if c a) ≤ 1)%nat.
Proof. destruct c; cbn; lia. Qed.

Lemma Forall_alert_if (P : Kya.SurveillanceAlert → Prop) c a :
  P a → Forall P (Kya.alert_if c a).
Proof. intros H. destruct c; cbn; auto. Qed.

(** X13.  What surveillance blocks.  [surveilleTransaction] flags a
    transaction exactly when the agent made more than 100 transactions
    in 24 hours, or the recipient is screened as sanctioned, or the
    recipient is the agent's own wallet (compared without case); it
    raises at most eight alerts and none with action "freeze"; and the
    only thing it writes is what the screening of the recipient
    writes. *)
Theorem surveilleTransaction_flagged (agent : Compliance.Agent)
    (recipientAddress : string) (amountUsdc : Qc)
    (agentTxHistory : Kya.AgentTxHistory) (d : DB.t) :
  let result := Kya.surveilleTransaction agent recipientAddress amountUsdc
                  agentTxHistory d in
  (Kya.flagged result.1 = true
   ↔ Qc_of_Z 100 < Kya.recentTxCount24h agentTxHistory
     ∨ Compliance.isSanctioned (Compliance.screenAddress recipientAddress d).1 = true
     ∨ Js.toLowerCase recipientAddress
       = Js.toLowerCase (Compliance.walletAddress agent))
  ∧ (length (Kya.alerts result.1) ≤ 8)%nat
  ∧ Forall (λ a, Kya.action a ≠ Kya.act_freeze) (Kya.alerts result.1)
  ∧ result.2 = (Compliance.screenAddress recipientAddress d).2.
Proof.
  unfold Kya.surveilleTransaction.
  destruct (Compliance.screenAddress recipientAddress d) as [screen d1].
  cbv zeta. cbn [fst snd Kya.flagged Kya.alerts].
  set (velocity := if decide (Qc_of_Z 100 < _) then _ else _).
  assert (Hvel : existsb Kya.blocks velocity
                  = bool_decide (Qc_of_Z 100 < Kya.recentTxCount24h agentTxHistory)
                  ∧ (length velocity ≤ 1)%nat
                  ∧ Forall (λ a, Kya.action a ≠ Kya.act_freeze) velocity).
  { subst velocity. destruct (decide (Qc_of_Z 100 < _)) as [H|H].
    - rewrite bool_decide_eq_true_2 by done. cbn. repeat split; [lia|].
      repeat constructor. done.
    - rewrite bool_decide_eq_false_2 by done.
      destruct (decide _); cbn; repeat split; try lia; repeat constructor; done. }
  destruct Hvel as (Hvel & Hlen & Hfr). clearbody velocity.
  split; [|split; [|split]].
  - rewrite !existsb_app, !existsb_alert_if, Hvel. cbn [Kya.blocks Kya.action].
    rewrite !andb_false_r, !andb_true_r, !orb_false_r, !orb_false_l.
    rewrite !orb_true_iff, !bool_decide_eq_true. tauto.
  - rewrite !length_app.
    repeat match goal with
    | |- context [length (Kya.alert_if ?c ?a)] =>
        let H := fresh in
        pose proof (length_alert_if c a) as H;
        generalize dependent (length (Kya.alert_if c a)); intros
    end.
    lia.
  - repeat (apply Forall_app; split); try done; apply Forall_alert_if; done.
  - reflexivity.
Qed.

(** ** Know your agent *)

Lemma Math_round_percent (t : Z) :
  Vault.Math_round (Qc_of_Z t / Qc_of_Z 100 * Qc_of_Z 100) = t.
Proof.
  assert (H : Qc_of_Z t / Qc_of_Z 100 * Qc_of_Z 100 = Qc_of_Z t).
  { field. intros H0. discriminate H0. }
  rewrite H. apply Math_round_Z.
Qed.

Lemma age_score_0 :
  Kya.age_score 0 = (0%Z, ["NEW_OWNER_WALLET"%string], [Kya.OwnerWalletAge 0]).
Proof.
  unfold Kya.age_score.
  repeat (rewrite decide_False; [|apply Qclt_not_le; reflexivity]). reflexivity.
Qed.

Lemma tx_score_range count :
  (0 ≤ (Kya.tx_score count).1.1 ≤ 5)%Z
  ∧ ∀ s, s ∈ (Kya.tx_score count).1.2 → s = "LOW_TX_HISTORY"%string.
Proof.
  unfold Kya.tx_score. repeat case_match; cbn; (split; [lia|]); intros s Hin;
    try (by apply elem_of_nil in Hin). by apply list_elem_of_singleton in Hin.
Qed.

Lemma balance_score_range b :
  (0 ≤ (Kya.balance_score b).1.1 ≤ 5)%Z
  ∧ ∀ s, s ∈ (Kya.balance_score b).1.2 → s = "LOW_BALANCE"%string.
Proof.
  unfold Kya.balance_score. repeat case_match; cbn; (split; [lia|]); intros s Hin;
    try (by apply elem_of_nil in Hin). by apply list_elem_of_singleton in Hin.
Qed.

Lemma analyzeWallet_facts address chain r :
  Kya.walletAgeDays (Kya.analyzeWallet address chain r) = 0
  ∧ Kya.uniqueCounterparties (Kya.analyzeWallet address chain r) = 0%Z
  ∧ Compliance.includes (Kya.riskFlags (Kya.analyzeWallet address chain r))
      "MIXER_INTERACTION" = false.
Proof.
  unfold Kya.analyzeWallet. destruct (Kya.fetch r) as [[[ic eb] ub] nonce].
  cbn [Kya.walletAgeDays Kya.uniqueCounterparties Kya.riskFlags].
  split; [done|]. split; [done|].
  destruct ic, (nonce =? 0)%Z; vm_compute; reflexivity.
Qed.

Lemma performKYA_clean_result rpc agentId ownerAddress walletAddress d :
  Compliance.isSanctioned (Compliance.screenAddress ownerAddress d).1 = false →
  Compliance.isSanctioned (Compliance.screenAddress walletAddress d).1 = false →
  ∃ sc tr cr checks flags reasons,
    Kya.performKYA rpc agentId ownerAddress walletAddress d
    = ({| Kya.status := DB.kya_approved; Kya.kyaScore := sc; Kya.tier := tr;
          Kya.creditRecommendation := cr; Kya.checks := checks;
          Kya.flags := flags; Kya.reviewReasons := reasons |},
       Kya.agentQueries_updateRiskScore (100 - sc) agentId
         (Kya.agentQueries_updateKYA DB.kya_approved agentId d))
    ∧ (70 ≤ sc ≤ 90)%Z
    ∧ ((tr = Kya.tier_verified ∧ cr = Qc_of_Z 1000 ∧ (80 ≤ sc)%Z)
       ∨ (tr = Kya.tier_basic ∧ cr = Qc_of_Z 100 ∧ (sc < 80)%Z))
    ∧ "NEW_OWNER_WALLET"%string ∈ flags
    ∧ ∀ s, s ∈ flags → s ∈ clean_flags.
Proof.
  intros Ho Hw. unfold Kya.performKYA.
  pose proof (screenAddress_clean _ _ Ho) as Hod.
  destruct (Compliance.screenAddress ownerAddress d) as [os d1].
  cbn in Ho, Hod. subst d1. rewrite Ho.
  pose proof (screenAddress_clean _ _ Hw) as Hwd.
  destruct (Compliance.screenAddress walletAddress d) as [ws d1].
  cbn in Hw, Hwd. subst d1. rewrite Hw.
  cbn [negb].
  destruct (analyzeWallet_facts ownerAddress "base" (rpc ownerAddress)) as (Hage & Hcp & Hmix).
  rewrite Hage, Hcp, Hmix, age_score_0.
  pose proof (tx_score_range (Kya.totalTxCount
     (Kya.analyzeWallet ownerAddress "base" (rpc ownerAddress)))) as Htx.
  set (txs := Kya.tx_score _) in *.
  match goal with |- context [Kya.balance_score ?x] =>
    pose proof (balance_score_range x) as Hbal; set (bal := Kya.balance_score x) in * end.
  set (virgin := Compliance.includes _ "VIRGIN_WALLET").
  set (aok := Kya.is_address _ && _ && _ && _).
  clearbody txs bal virgin aok.
  destruct txs as [[t tf] trs], bal as [[b bf] brs]. cbn [fst snd] in *.
  destruct Htx as (Ht & Htf). destruct Hbal as (Hb & Hbf).
  cbv zeta. unfold Kya.sum_checks.
  cbn [app fold_left Kya.score Kya.weight length Nat.ltb Nat.leb].
  change (Kya.counterparty_score 0) with 0%Z.
  change (0 + 25 + 25 + 20 + 10 + 10 + 10)%Z with 100%Z.
  set (T := (0 + 25 + 25 + (0 + t + b + 0) + (if aok then 10 else 0) + 10 + 10)%Z).
  assert (HT : (70 ≤ T ≤ 90)%Z) by (subst T; destruct aok; lia).
  clearbody T. rewrite Math_round_percent.
  set (flags := (_ :: _)%list).
  assert (Hsub : ∀ s, s ∈ flags → s ∈ clean_flags).
  { intros s Hin. subst flags. rewrite app_nil_r in Hin.
    rewrite elem_of_cons, !elem_of_app in Hin. unfold clean_flags.
    destruct Hin as [->|[[Hin|[Hin|[Hin|Hin]]]|Hin]].
    - repeat constructor.
    - rewrite (Htf s Hin). repeat constructor.
    - rewrite (Hbf s Hin). repeat constructor.
    - by apply elem_of_nil in Hin.
    - destruct virgin; cbn in Hin; [|by apply elem_of_nil in Hin].
      apply list_elem_of_singleton in Hin as ->. repeat constructor.
    - destruct (negb aok); cbn in Hin; [|by apply elem_of_nil in Hin].
      apply list_elem_of_singleton in Hin as ->. repeat constructor. }
  assert (Hflags : ∀ s, s ∉ clean_flags → Compliance.includes flags s = false).
  { intros s Hs. apply not_true_is_false. intros Hin.
    apply includes_elem_of in Hin. auto. }
  assert (Hnot : ∀ s, Compliance.includes clean_flags s = false → s ∉ clean_flags).
  { intros s Hs Hin. apply includes_elem_of in Hin. congruence. }
  rewrite !Hflags by (apply Hnot; reflexivity).
  cbn [orb].
  assert (Hnew : "NEW_OWNER_WALLET"%string ∈ flags) by (subst flags; by left).
  destruct (80 <=? T)%Z eqn:H80.
  - apply Z.leb_le in H80. eexists T, _, _, _, flags, _.
    split; [reflexivity|]. split; [exact HT|].
    split; [left; repeat split; [reflexivity..|lia]|]. done.
  - apply Z.leb_gt in H80.
    assert (H60 : (60 <=? T)%Z = true) by (apply Z.leb_le; lia).
    rewrite H60. eexists T, _, _, _, flags, _.
    split; [reflexivity|]. split; [exact HT|].
    split; [right; repeat split; [reflexivity..|lia]|]. done.
Qed.

Lemma updateKYA_lookup st r agentId d a :
  DB.agents d !! agentId = Some a →
  DB.agents (Kya.agentQueries_updateRiskScore r agentId
               (Kya.agentQueries_updateKYA st agentId d)) !! agentId
  = Some (Kya.set_risk_score r (Kya.set_kya_status st a)).
Proof.
  intros Ha. cbn. rewrite !lookup_alter_eq, Ha. reflexivity.
Qed.

(** X14.  KYA approves every agent that is not sanctioned.  When
    neither the owner's address nor the agent's wallet is screened as
    sanctioned, [performKYA] ends with status "approved", whatever the
    RPC answers: the score lies between 70 and 90, the tier is
    "verified" with a recommendation of 1000 (score at least 80) or
    "basic" with 100; the agent's row is set to approved with risk
    score 100 - score, so the KYA gate and, for an active agent, the
    risk gate of the payment checks pass; and [underwriteAgent] on the
    result, without history, approves exactly the recommended limit. *)
Theorem performKYA_approves_unsanctioned (rpc : string → Kya.Rpc)
    (agentId ownerAddress walletAddress : string) (d : DB.t) (a : DB.AgentRow) :
  DB.agents d !! agentId = Some a →
  Compliance.isSanctioned (Compliance.screenAddress ownerAddress d).1 = false →
  Compliance.isSanctioned (Compliance.screenAddress walletAddress d).1 = false →
  let result := Kya.performKYA rpc agentId ownerAddress walletAddress d in
  let row := Kya.set_risk_score (100 - Kya.kyaScore result.1)
               (Kya.set_kya_status DB.kya_approved a) in
  let decision := Kya.underwriteAgent agentId result.1 None in
  Kya.status result.1 = DB.kya_approved
  ∧ (70 ≤ Kya.kyaScore result.1 ≤ 90)%Z
  ∧ ((Kya.tier result.1 = Kya.tier_verified
      ∧ Kya.creditRecommendation result.1 = Qc_of_Z 1000
      ∧ (80 ≤ Kya.kyaScore result.1)%Z)
     ∨ (Kya.tier result.1 = Kya.tier_basic
        ∧ Kya.creditRecommendation result.1 = Qc_of_Z 100
        ∧ (Kya.kyaScore result.1 < 80)%Z))
  ∧ DB.agents result.2 !! agentId = Some row
  ∧ (Compliance.kya_gate (Payment.mapAgent agentId row)).1 = true
  ∧ (DB.status a = DB.agent_active →
     (Compliance.risk_gate (Payment.mapAgent agentId row)).1 = true)
  ∧ Kya.approved decision = true
  ∧ Qc_of_Z (Kya.creditLimit decision) = Kya.creditRecommendation result.1.
Proof.
  intros Ha Ho Hw.
  destruct (performKYA_clean_result rpc agentId ownerAddress walletAddress d Ho Hw)
    as (sc & tr & cr & checks & flags & reasons & -> & Hsc & Htier & Hnew & Hflags).
  cbn [fst snd Kya.status Kya.kyaScore Kya.tier Kya.creditRecommendation].
  split; [done|]. split; [done|]. split; [done|].
  split; [by apply updateKYA_lookup|].
  split; [reflexivity|]. split.
  { intros Hact. unfold Compliance.risk_gate. cbn. rewrite Hact.
    rewrite bool_decide_eq_true_2 by done.
    assert ((100 - sc <=? 70)%Z = true) as -> by (apply Z.leb_le; lia). reflexivity. }
  assert (Hnot : ∀ s, Compliance.includes clean_flags s = false →
                      Compliance.includes flags s = false).
  { intros s Hs. apply not_true_is_false. intros Hin. apply includes_elem_of in Hin.
    apply Hflags, includes_elem_of in Hin. congruence. }
  unfold Kya.underwriteAgent.
  cbn [Kya.status Kya.kyaScore Kya.tier Kya.creditRecommendation Kya.flags
       Kya.approved Kya.creditLimit].
  rewrite !Hnot by reflexivity. rewrite !andb_false_r.
  assert (Hcap : Js.Math_min cr (Kya.or_number (Kya.tierCaps tr) (Qc_of_Z 50)) = cr).
  { destruct Htier as [(-> & -> & _)|(-> & -> & _)]; unfold Kya.or_number; cbn;
      (destruct (decide _) as [H0|_]; [discriminate H0|]);
      unfold Js.Math_min; rewrite decide_True; try done; vm_compute; discriminate. }
  rewrite Hcap.
  assert (Hround : ∃ k, cr = Qc_of_Z k ∧ (0 < k)%Z).
  { destruct Htier as [(_ & -> & _)|(_ & -> & _)]; eexists; (split; [reflexivity|lia]). }
  destruct Hround as (k & -> & Hk). rewrite Math_round_Z.
  split; [|reflexivity].
  rewrite bool_decide_eq_true_2 by done. by apply Z.ltb_lt.
Qed.

(** X15.  KYA rejects a sanctioned owner or wallet.  When the owner's
    address or the agent's wallet is screened as sanctioned,
    [performKYA] returns status "rejected" with score 0 and no credit
    recommendation, and sets the agent's row to rejected with risk
    score 100; from then on every payment check for the agent fails
    both the KYA gate and the risk gate, whatever the payment. *)
Theorem performKYA_rejects_sanctioned (rpc : string → Kya.Rpc)
    (agentId ownerAddress walletAddress : string) (d : DB.t) (a : DB.AgentRow) :
  DB.agents d !! agentId = Some a →
  Compliance.isSanctioned (Compliance.screenAddress ownerAddress d).1 = true
  ∨ Compliance.isSanctioned (Compliance.screenAddress walletAddress d).1 = true →
  let result := Kya.performKYA rpc agentId ownerAddress walletAddress d in
  let row := Kya.set_risk_score 100 (Kya.set_kya_status DB.kya_rejected a) in
  Kya.status result.1 = DB.kya_rejected
  ∧ Kya.kyaScore result.1 = 0%Z
  ∧ Kya.creditRecommendation result.1 = 0
  ∧ DB.agents result.2 !! agentId = Some row
  ∧ ∀ recipientAddress amountUsdc merchantId recipientAgentId d',
      let verdict :=
        (Compliance.runPermissionChecks (Payment.mapAgent agentId row)
           recipientAddress amountUsdc merchantId recipientAgentId d').1 in
      DB.kyaCheck verdict = false ∧ DB.riskCheck verdict = false
      ∧ DB.allPassed verdict = false.
Proof.
  intros Ha Hs result row.
  assert (Hres : Kya.status result.1 = DB.kya_rejected
                 ∧ Kya.kyaScore result.1 = 0%Z
                 ∧ Kya.creditRecommendation result.1 = 0
                 ∧ DB.agents result.2 !! agentId = Some row).
  { subst result. unfold Kya.performKYA.
    destruct (Compliance.isSanctioned (Compliance.screenAddress ownerAddress d).1)
      eqn:Ho.
    - pose proof (screenAddress_frame ownerAddress d) as (Hag & _).
      destruct (Compliance.screenAddress ownerAddress d) as [os d1].
      cbn in Ho, Hag. rewrite Ho. cbn [fst snd Kya.status Kya.kyaScore
        Kya.creditRecommendation].
      repeat split. apply updateKYA_lookup. by rewrite Hag.
    - destruct Hs as [Hs|Hs]; [done|].
      pose proof (screenAddress_clean _ _ Ho) as Hod.
      destruct (Compliance.screenAddress ownerAddress d) as [os d1].
      cbn in Ho, Hod. subst d1. rewrite Ho.
      pose proof (screenAddress_frame walletAddress d) as (Hag & _).
      destruct (Compliance.screenAddress walletAddress d) as [ws d1].
      cbn in Hs, Hag. rewrite Hs. cbn [fst snd Kya.status Kya.kyaScore
        Kya.creditRecommendation].
      repeat split. apply updateKYA_lookup. by rewrite Hag. }
  destruct Hres as (H1 & H2 & H3 & H4). do 4 (split; [done|]).
  intros recipientAddress amountUsdc merchantId recipientAgentId d'.
  unfold Compliance.runPermissionChecks.
  destruct (Compliance.screenAddress recipientAddress d') as [rs d1].
  cbn [fst DB.kyaCheck DB.riskCheck DB.allPassed].
  assert (Hk : (Compliance.kya_gate (Payment.mapAgent agentId row)).1 = false)
    by reflexivity.
  assert (Hr : (Compliance.risk_gate (Payment.mapAgent agentId row)).1 = false).
  { unfold Compliance.risk_gate. cbn. by destruct (bool_decide _). }
  rewrite Hk, Hr. by rewrite !andb_false_r.
Qed.

(** ** Sanctions screening *)

Lemma screenAddress_table addr d :
  DB.sanctioned_addresses (Compliance.screenAddress addr d).2
  = match DB.sanctioned_addresses d !! Js.toLowerCase addr with
    | Some _ => DB.sanctioned_addresses d
    | None =>
        if Compliance.includes Compliance.KNOWN_SANCTIONED_ENTITIES (Js.toLowerCase addr)
        then <[Js.toLowerCase addr := "ofac-sdn"%string]> (DB.sanctioned_addresses d)
        else DB.sanctioned_addresses d
    end.
Proof.
  unfold Compliance.screenAddress, DB.sanctionsQueries_check.
  destruct (DB.sanctioned_addresses d !! Js.toLowerCase addr) eqn:Hl; [done|].
  destruct (Compliance.includes Compliance.KNOWN_SANCTIONED_ENTITIES _).
  - cbn. by rewrite Hl.
  - by destruct (Compliance.includes Compliance.KNOWN_MIXER_CONTRACTS _).
Qed.

Lemma screenAddress_verdict addr d :
  Compliance.isSanctioned (Compliance.screenAddress addr d).1
  = bool_decide (is_Some (DB.sanctioned_addresses d !! Js.toLowerCase addr))
    || Compliance.includes Compliance.KNOWN_SANCTIONED_ENTITIES (Js.toLowerCase addr)
    || Compliance.includes Compliance.KNOWN_MIXER_CONTRACTS (Js.toLowerCase addr).
Proof.
  unfold Compliance.screenAddress, DB.sanctionsQueries_check.
  destruct (DB.sanctioned_addresses d !! Js.toLowerCase addr) eqn:Hl.
  - by rewrite bool_decide_eq_true_2.
  - rewrite bool_decide_eq_false_2 by (by intros [? ?]). cbn [orb].
    destruct (Compliance.includes Compliance.KNOWN_SANCTIONED_ENTITIES _); [done|].
    by destruct (Compliance.includes Compliance.KNOWN_MIXER_CONTRACTS _).
Qed.

Lemma screenAddress_table_grows addr d :
  DB.sanctioned_addresses d ⊆ DB.sanctioned_addresses (Compliance.screenAddress addr d).2.
Proof.
  rewrite screenAddress_table.
  destruct (DB.sanctioned_addresses d !! Js.toLowerCase addr) eqn:Hl; [done|].
  destruct (Compliance.includes _ _); [|done]. by apply insert_subseteq.
Qed.

Lemma reserveLiquidity_table amount d :
  DB.sanctioned_addresses (Vault.reserveLiquidity amount d).2 = DB.sanctioned_addresses d.
Proof.
  unfold Vault.reserveLiquidity. destruct (Vault.getVaultState d); [|done].
  by destruct (decide _).
Qed.

Lemma sign_and_settle_table E req raw txId pc fee net d :
  DB.sanctioned_addresses (Payment.sign_and_settle E req raw txId pc fee net d).2
  = DB.sanctioned_addresses d.
Proof.
  unfold Payment.sign_and_settle, Vault.processFeeIntoVault, Payment.unresolvable.
  repeat (case_match; simplify_eq; cbn; try reflexivity).
Qed.

Lemma authorize_table E req d :
  DB.sanctioned_addresses (Payment.authorize E req d).2 = DB.sanctioned_addresses d
  ∨ DB.sanctioned_addresses (Payment.authorize E req d).2
    = DB.sanctioned_addresses (Compliance.screenAddress (Payment.recipientAddress req) d).2.
Proof.
  unfold Payment.authorize.
  destruct (DB.txQueries_getByIdempotencyKey _ d); [by left|].
  destruct (DB.agentQueries_getById _ d); [|by left].
  unfold Compliance.runPermissionChecks.
  destruct (Compliance.screenAddress (Payment.recipientAddress req) d) as [scr d1].
  cbn [snd]. right.
  unfold DB.txQueries_create.
  repeat (case_match; simplify_eq; cbn [snd negb]; try reflexivity).
  all: match goal with
       | H : Vault.reserveLiquidity ?a ?d0 = (_, ?t) |- _ =>
           pose proof (reserveLiquidity_table a d0) as Hr; rewrite H in Hr; cbn in Hr
       end; cbn; by rewrite ?Hr.
Qed.

Lemma processPayment_table E req d :
  DB.sanctioned_addresses (Payment.processPayment E req d).2 = DB.sanctioned_addresses d
  ∨ DB.sanctioned_addresses (Payment.processPayment E req d).2
    = DB.sanctioned_addresses (Compliance.screenAddress (Payment.recipientAddress req) d).2.
Proof.
  unfold Payment.processPayment.
  pose proof (authorize_table E req d) as Ha.
  destruct (Payment.authorize E req d) as [[o|c] d1]; cbn [snd] in Ha; [exact Ha|].
  match goal with |- context [Payment.sign_and_settle ?E ?r ?raw ?id ?pc ?f ?n ?d0] =>
    pose proof (sign_and_settle_table E r raw id pc f n d0) as Hs;
    destruct (Payment.sign_and_settle E r raw id pc f n d0) as [[res|e] d2]
  end; cbn in Hs |- *; rewrite Hs; exact Ha.
Qed.

Lemma burn_positions_table price ps : ∀ rem tot d,
  DB.sanctioned_addresses (Vault.burn_positions price ps rem tot d).2
  = DB.sanctioned_addresses d.
Proof.
  induction ps as [|q ps IH]; intros rem tot d; [done|].
  cbn [Vault.burn_positions]. destruct (decide _); [done|].
  destruct (decide _); [done|]. by rewrite IH.
Qed.

Lemma handle_table r d :
  DB.sanctioned_addresses d ⊆ DB.sanctioned_addresses (Api.handle r d).
Proof.
  destruct r as [E req|rid id amount tx|pid lender amount tx|created_at lender shares
                |E owner requested|maxLimit id newLimit|fee|amount|amount];
    cbn [Api.handle].
  - destruct (decide _); [|done].
    destruct (processPayment_table E req d) as [->| ->];
      [done|apply screenAddress_table_grows].
  - destruct (decide _); [|done].
    unfold Payment.processRepayment, DB.repaymentQueries_create.
    repeat (case_match; simplify_eq; cbn; try done).
  - destruct (decide _); [|done].
    unfold Vault.processDeposit, DB.lenderQueries_create.
    repeat (case_match; simplify_eq; cbn; try done).
  - destruct (decide _); [|done]. unfold Vault.processWithdrawal.
    destruct (Vault.getVaultState d) as [vault|]; [|done].
    destruct (Vault.getSharePrice d) as [price|]; [|done].
    destruct (decide _); [done|].
    pose proof (burn_positions_table price
      (DB.lenderQueries_getByAddress created_at (Js.toLowerCase lender) d)
      shares 0 d) as Hb.
    destruct (Vault.burn_positions _ _ _ _ _) as [[[rem tot]|e] d1]; [|done].
    cbn in Hb. destruct (decide _); [done|]. cbn. by rewrite Hb.
  - destruct (Api.valid_requested_limit _); [|done]. unfold AgentAdmin.registerAgent.
    destruct (DB.agentQueries_getByWallet _ _); [done|].
    unfold DB.agentQueries_create.
    repeat (case_match; simplify_eq; cbn [snd]; try done).
    + by rewrite reserveLiquidity_table.
  - unfold AgentAdmin.adjustCreditLimit.
    repeat (case_match; simplify_eq; cbn; try done).
  - unfold Vault.processFeeIntoVault. by destruct (decide _).
  - by rewrite reserveLiquidity_table.
  - done.
Qed.

(** X16.  Sanctions are never lifted.  Screening an address twice gives
    the same verdict and writes nothing the second time; a clean
    verdict writes nothing at all; the verdict does not depend on the
    letter case of the address; and an address that is screened as
    sanctioned is still screened as sanctioned after any sequence of
    API calls and after any other screening. *)
Theorem sanctions_never_lifted (address : string) (d : DB.t) :
  let first := Compliance.screenAddress address d in
  Compliance.isSanctioned (Compliance.screenAddress address first.2).1
  = Compliance.isSanctioned first.1
  ∧ (Compliance.screenAddress address first.2).2 = first.2
  ∧ (Compliance.isSanctioned first.1 = false → first.2 = d)
  ∧ (∀ other, Js.toLowerCase other = Js.toLowerCase address →
       Compliance.screenAddress other d = first)
  ∧ (Compliance.isSanctioned first.1 = true →
     (∀ requests,
        Compliance.isSanctioned
          (Compliance.screenAddress address (Api.run requests d)).1 = true)
     ∧ ∀ other,
         Compliance.isSanctioned
           (Compliance.screenAddress address
              (Compliance.screenAddress other d).2).1 = true).
Proof.
  cbv zeta.
  assert (Hmono : ∀ d', DB.sanctioned_addresses d ⊆ DB.sanctioned_addresses d' →
            Compliance.isSanctioned (Compliance.screenAddress address d).1 = true →
            Compliance.isSanctioned (Compliance.screenAddress address d').1 = true).
  { intros d' Hsub. rewrite !screenAddress_verdict.
    destruct (DB.sanctioned_addresses d !! Js.toLowerCase address) as [src|] eqn:Hl.
    - intros _. rewrite bool_decide_eq_true_2; [done|].
      exists src. by eapply lookup_weaken.
    - rewrite (bool_decide_eq_false_2 (is_Some None)) by (by intros [? ?]).
      cbn [orb]. intros H. rewrite <- orb_assoc, H. apply orb_true_r. }
  split; [|split; [|split; [|split]]].
  - destruct (Compliance.isSanctioned (Compliance.screenAddress address d).1) eqn:Hs.
    + apply Hmono; [apply screenAddress_table_grows|done].
    + by rewrite (screenAddress_clean _ _ Hs).
  - assert (Hfix : ∀ scr d1, Compliance.screenAddress address d = (scr, d1) →
              (Compliance.screenAddress address d1).2 = d1).
    { unfold Compliance.screenAddress, DB.sanctionsQueries_check.
      destruct (DB.sanctioned_addresses d !! Js.toLowerCase address) eqn:Hl.
      - intros scr d1 [= <- <-]. by rewrite Hl.
      - destruct (Compliance.includes Compliance.KNOWN_SANCTIONED_ENTITIES _) eqn:He.
        + intros scr d1 [= <- <-]. cbn. rewrite Hl. cbn. by rewrite lookup_insert_eq.
        + destruct (Compliance.includes Compliance.KNOWN_MIXER_CONTRACTS _) eqn:Hm;
            intros scr d1 [= <- <-]; by rewrite ?Hl, ?He, ?Hm. }
    destruct (Compliance.screenAddress address d) as [scr d1] eqn:Hscr.
    cbn [snd]. by apply (Hfix scr).
  - apply screenAddress_clean.
  - intros other Hother. unfold Compliance.screenAddress. by rewrite Hother.
  - intros Hs. split.
    + intros requests. apply Hmono; [|done]. clear.
      revert d. induction requests as [|r rs IH]; intros d; [done|].
      cbn. etrans; [apply (handle_table r d)|apply IH].
    + intros other. apply Hmono; [apply screenAddress_table_grows|done].
Qed.

Lemma sanctions_never_lifted_witness :
  let address := "0x8589427373D6D84E98730D7795D8F6F8731FDA16"%string in
  Compliance.isSanctioned (Compliance.screenAddress address Scenario.db_init).1 = true
  ∧ Compliance.isSanctioned
      (Compliance.screenAddress address
         (Api.run spend_then_repay Scenario.db_init)).1 = true.
Proof.
  intros address.
  assert (H : Compliance.isSanctioned
                (Compliance.screenAddress address Scenario.db_init).1 = true)
    by reflexivity.
  split; [exact H|].
  destruct (sanctions_never_lifted address Scenario.db_init) as (_ & _ & _ & _ & Hkeep).
  exact (proj1 (Hkeep H) spend_then_repay).
Defined.

Lemma performKYA_approves_unsanctioned_witness :
  let rpc := λ _ : string,
    {| Kya.viem := false; Kya.getCode := None; Kya.getBalance := None;
       Kya.balanceOf := None; Kya.getTransactionCount := None |} in
  let result :=
    Kya.performKYA rpc "agent-1" "0xbbbbbbbbbbbbbbbbbbbbbbbbbbbbbbbbbbbbbbbb"
      "0xaaaaaaaaaaaaaaaaaaaaaaaaaaaaaaaaaaaaaaaa" Scenario.db_init in
  Kya.status result.1 = DB.kya_approved
  ∧ (70 ≤ Kya.kyaScore result.1 ≤ 90)%Z
  ∧ DB.agents result.2 !! "agent-1"%string
    = Some (Kya.set_risk_score (100 - Kya.kyaScore result.1)
              (Kya.set_kya_status DB.kya_approved Scenario.agent1)).
Proof.
  intros rpc result.
  destruct (performKYA_approves_unsanctioned rpc "agent-1"
              "0xbbbbbbbbbbbbbbbbbbbbbbbbbbbbbbbbbbbbbbbb"
              "0xaaaaaaaaaaaaaaaaaaaaaaaaaaaaaaaaaaaaaaaa" Scenario.db_init
              Scenario.agent1 eq_refl eq_refl eq_refl)
    as (H1 & H2 & _ & H4 & _).
  split; [exact H1|]. split; [exact H2|exact H4].
Defined.

Lemma performKYA_rejects_sanctioned_witness :
  let rpc := λ _ : string,
    {| Kya.viem := false; Kya.getCode := None; Kya.getBalance := None;
       Kya.balanceOf := None; Kya.getTransactionCount := None |} in
  let result :=
    Kya.performKYA rpc "agent-1" "0x8589427373D6D84E98730D7795D8F6F8731FDA16"
      "0xaaaaaaaaaaaaaaaaaaaaaaaaaaaaaaaaaaaaaaaa" Scenario.db_init in
  Kya.status result.1 = DB.kya_rejected
  ∧ Kya.kyaScore result.1 = 0%Z
  ∧ DB.agents result.2 !! "agent-1"%string
    = Some (Kya.set_risk_score 100 (Kya.set_kya_status DB.kya_rejected Scenario.agent1)).
Proof.
  intros rpc result.
  destruct (performKYA_rejects_sanctioned rpc "agent-1"
              "0x8589427373D6D84E98730D7795D8F6F8731FDA16"
              "0xaaaaaaaaaaaaaaaaaaaaaaaaaaaaaaaaaaaaaaaa" Scenario.db_init
              Scenario.agent1 eq_refl (or_introl eq_refl))
    as (H1 & H2 & _ & H4 & _).
  split; [exact H1|]. split; [exact H2|exact H4].
Defined.

(** ** Merchant registration *)

Lemma lower_ascii_idem (c : ascii) : Js.lower_ascii (Js.lower_ascii c) = Js.lower_ascii c.
Proof. by destruct c as [[] [] [] [] [] [] [] []]. Qed.

Lemma toLowerCase_idem (s : string) : Js.toLowerCase (Js.toLowerCase s) = Js.toLowerCase s.
Proof. induction s as [|c s IH]; [done|]. cbn. by rewrite lower_ascii_idem, IH. Qed.

Lemma getByWallet_true (wallet : string) (d : DB.t) :
  Merchant.merchantQueries_getByWallet wallet d = true
  ↔ ∃ i m, DB.merchants d !! i = Some m ∧ DB.merchant_wallet m = wallet.
Proof.
  unfold Merchant.merchantQueries_getByWallet.
  rewrite bool_decide_eq_true. unfold map_Exists.
  split; [intros (i & m & ? & ?)|intros (i & m & ? & ?)]; by exists i, m.
Qed.

Lemma getByWallet_false (wallet : string) (d : DB.t) :
  Merchant.merchantQueries_getByWallet wallet d = false
  ↔ ∀ i m, DB.merchants d !! i = Some m → DB.merchant_wallet m ≠ wallet.
Proof.
  rewrite <- not_true_iff_false, getByWallet_true. split.
  - intros Hno i m Hi Hw. apply Hno. by exists i, m.
  - intros Hall (i & m & Hi & Hw). by apply (Hall i m).
Qed.

Lemma getByWallet_frame (wallet address : string) (d : DB.t) :
  Merchant.merchantQueries_getByWallet wallet (Compliance.screenAddress address d).2
  = Merchant.merchantQueries_getByWallet wallet d.
Proof.
  unfold Merchant.merchantQueries_getByWallet.
  by destruct (screenAddress_frame address d) as (_ & -> & _).
Qed.

(** What a call of [registerMerchant] that returns leaves behind. *)
Lemma registerMerchant_Returned merchantId FEE wallet feeBps d m d' :
  Merchant.registerMerchant merchantId FEE wallet feeBps d = (inr m, d') →
  let row := {| DB.merchant_wallet := Js.toLowerCase wallet;
                DB.merchant_status := DB.merchant_active;
                DB.fee_bps := default FEE feeBps; DB.sanctions_clean := 1 |} in
  m = {| Merchant.id := merchantId; Merchant.walletAddress := Js.toLowerCase wallet;
         Merchant.status := DB.merchant_active;
         Merchant.feeBps := default FEE feeBps; Merchant.sanctionsClean := true |}
  ∧ d' = Merchant.with_merchants (insert merchantId row) d
  ∧ DB.merchants d !! merchantId = None
  ∧ Merchant.merchantQueries_getByWallet (Js.toLowerCase wallet) d = false
  ∧ Compliance.isSanctioned (Compliance.screenAddress (Js.toLowerCase wallet) d).1 = false.
Proof.
  intros Hcall row. unfold Merchant.registerMerchant in Hcall.
  destruct (Merchant.merchantQueries_getByWallet (Js.toLowerCase wallet) d) eqn:Hdup;
    [done|].
  destruct (Compliance.screenAddress (Js.toLowerCase wallet) d) as [s d1] eqn:Hs.
  destruct (Compliance.isSanctioned s) eqn:Hsan; [done|].
  assert (d1 = d) as ->.
  { pose proof (screenAddress_clean (Js.toLowerCase wallet) d) as Hc.
    rewrite Hs in Hc. by apply Hc. }
  unfold Merchant.merchantQueries_create in Hcall. rewrite Hdup in Hcall.
  case_bool_decide as Hid; [done|].
  simplify_eq. repeat split; try done.
  by apply eq_None_not_Some.
Qed.

(** A call of [registerMerchant] that throws leaves the merchants table
    as it was. *)
Lemma registerMerchant_Threw merchantId FEE wallet feeBps d e :
  (Merchant.registerMerchant merchantId FEE wallet feeBps d).1 = inl e →
  DB.merchants (Merchant.registerMerchant merchantId FEE wallet feeBps d).2
  = DB.merchants d.
Proof.
  unfold Merchant.registerMerchant.
  destruct (Merchant.merchantQueries_getByWallet _ d) eqn:Hdup; [done|].
  pose proof (screenAddress_frame (Js.toLowerCase wallet) d) as (_ & Hm & _).
  destruct (Compliance.screenAddress (Js.toLowerCase wallet) d) as [s d1] eqn:Hs.
  cbn in Hm.
  destruct (Compliance.isSanctioned s); [done|].
  unfold Merchant.merchantQueries_create.
  case_bool_decide; [done|].
  rewrite <- (getByWallet_frame _ (Js.toLowerCase wallet) d), Hs in Hdup.
  cbn in Hdup. by rewrite Hdup.
Qed.

(** X17.  A merchant that [registerMerchant] returns is stored under its
    new id with the lower-cased wallet and the chosen rate (the
    configured default when none is given), passes the merchant gate of
    the permission checks at once, and sets the fee rate of a spend that
    names it.  Every other merchant and every other table is left as it
    was, and a later registration of the same wallet, in whatever case,
    is refused as a duplicate without touching the store. *)
Theorem registered_merchant_is_payable merchantId FEE wallet feeBps d m d'
    (E : Payment.Env) (req : Payment.PaymentRequest) (rid : option string) :
  Merchant.registerMerchant merchantId FEE wallet feeBps d = (inr m, d') →
  merchantId ≠ ""%string →
  Payment.merchantId req = Some merchantId →
  Merchant.getMerchant merchantId d' = Some m
  ∧ Merchant.walletAddress m = Js.toLowerCase wallet
  ∧ Merchant.feeBps m = default FEE feeBps
  ∧ Compliance.merchant_gate (Some merchantId) rid d' = (true, [])
  ∧ Payment.feeBps E req d' = Qc_of_Z (default FEE feeBps)
  ∧ (∀ j, j ≠ merchantId → DB.merchants d' !! j = DB.merchants d !! j)
  ∧ same_but_merchants d d'
  ∧ ∀ id2 FEE2 wallet2 fee2, Js.toLowerCase wallet2 = Js.toLowerCase wallet →
      Merchant.registerMerchant id2 FEE2 wallet2 fee2 d'
      = (inl (Merchant.MerchantExists wallet2), d').
Proof.
  intros Hcall Hid Hreq.
  destruct (registerMerchant_Returned _ _ _ _ _ _ _ Hcall)
    as (-> & -> & Hfresh & Hdup & Hclean).
  assert (Js.or_null (Some merchantId) = Some merchantId) as Hor.
  { unfold Js.or_null. cbn. by destruct merchantId. }
  repeat split.
  - unfold Merchant.getMerchant, DB.merchantQueries_getById. cbn.
    by rewrite lookup_insert_eq.
  - unfold Compliance.merchant_gate, DB.merchantQueries_getById.
    rewrite Hor. cbn. by rewrite lookup_insert_eq.
  - unfold Payment.feeBps, DB.merchantQueries_getById.
    rewrite Hreq, Hor. cbn. by rewrite lookup_insert_eq.
  - intros j Hj. cbn. by rewrite lookup_insert_ne.
  - intros id2 FEE2 wallet2 fee2 Hw. unfold Merchant.registerMerchant.
    rewrite Hw.
    assert (Merchant.merchantQueries_getByWallet (Js.toLowerCase wallet)
              (Merchant.with_merchants (insert merchantId
                 {| DB.merchant_wallet := Js.toLowerCase wallet;
                    DB.merchant_status := DB.merchant_active;
                    DB.fee_bps := default FEE feeBps; DB.sanctions_clean := 1 |}) d)
            = true) as ->; [|done].
    apply getByWallet_true. eexists merchantId, _. cbn.
    by rewrite lookup_insert_eq.
Qed.

(** X18.  When [registerMerchant] refuses.  A wallet that an existing
    merchant already uses is refused as a duplicate and the store is
    untouched; otherwise a wallet that screening finds sanctioned is
    refused and at most the sanctions table changes; and whenever the
    call throws, the merchants table is exactly as before. *)
Theorem registerMerchant_refusals merchantId FEE wallet feeBps d :
  let r := Merchant.registerMerchant merchantId FEE wallet feeBps d in
  ((∃ i m0, DB.merchants d !! i = Some m0
            ∧ DB.merchant_wallet m0 = Js.toLowerCase wallet) →
     r = (inl (Merchant.MerchantExists wallet), d))
  ∧ ((∀ i m0, DB.merchants d !! i = Some m0 →
              DB.merchant_wallet m0 ≠ Js.toLowerCase wallet) →
     Compliance.isSanctioned (Compliance.screenAddress wallet d).1 = true →
     r.1 = inl (Merchant.WalletSanctioned wallet) ∧ same_ledger d r.2)
  ∧ ((∀ i m0, DB.merchants d !! i = Some m0 →
              DB.merchant_wallet m0 ≠ Js.toLowerCase wallet) →
     Compliance.isSanctioned (Compliance.screenAddress wallet d).1 = false →
     DB.merchants d !! merchantId = None →
     ∃ m, r.1 = inr m)
  ∧ (∀ e, r.1 = inl e → DB.merchants r.2 = DB.merchants d).
Proof.
  intros r. subst r.
  split; [|split; [|split]]; [..|apply registerMerchant_Threw];
    unfold Merchant.registerMerchant;
    (assert (Compliance.screenAddress (Js.toLowerCase wallet) d
             = Compliance.screenAddress wallet d) as ->
       by (unfold Compliance.screenAddress; by rewrite toLowerCase_idem));
    pose proof (screenAddress_frame wallet d) as Hframe;
    destruct (Compliance.screenAddress wallet d) as [s d1] eqn:Hs; cbn in Hframe.
  - intros Hex. apply getByWallet_true in Hex. by rewrite Hex.
  - intros Hno Hsan. apply getByWallet_false in Hno. rewrite Hno.
    cbn in Hsan. by rewrite Hsan.
  - intros Hno Hclean Hfresh.
    apply getByWallet_false in Hno. rewrite Hno. cbn in Hclean. rewrite Hclean.
    assert (d1 = d) as ->.
    { pose proof (screenAddress_clean wallet d) as Hc. rewrite Hs in Hc.
      by apply Hc. }
    unfold Merchant.merchantQueries_create. rewrite Hno.
    rewrite bool_decide_eq_false_2; [by eexists|].
    rewrite Hfresh. by intros [? ?].
Qed.

Lemma registerMerchant_refusals_witness :
  Merchant.registerMerchant "m-2" 150 "0x1111111111111111111111111111111111111111"
    None Scenario.db_init
  = (inl (Merchant.MerchantExists "0x1111111111111111111111111111111111111111"),
     Scenario.db_init).
Proof.
  apply (registerMerchant_refusals "m-2" 150 "0x1111111111111111111111111111111111111111"
           None Scenario.db_init).
  exists "m-1"%string, Scenario.merchant1. split; reflexivity.
Defined.

(** X19.  Merchant wallets stay normal.  If every stored merchant wallet
    is in lower case and no two merchants share a wallet, the same holds
    after any call of [registerMerchant], whatever its outcome; so no two
    merchants ever hold wallets that differ only in case. *)
Theorem registerMerchant_keeps_wallets_normal merchantId FEE wallet feeBps d :
  merchant_wallets_normal d →
  let d' := (Merchant.registerMerchant merchantId FEE wallet feeBps d).2 in
  merchant_wallets_normal d'
  ∧ ∀ i j mi mj, DB.merchants d' !! i = Some mi → DB.merchants d' !! j = Some mj →
      Js.toLowerCase (DB.merchant_wallet mi) = Js.toLowerCase (DB.merchant_wallet mj) →
      i = j.
Proof.
  intros Hnormal d'.
  assert (merchant_wallets_normal d') as Hd'.
  { subst d'.
    destruct (Merchant.registerMerchant merchantId FEE wallet feeBps d)
      as [[e|m] d1] eqn:Hcall.
    - pose proof (registerMerchant_Threw merchantId FEE wallet feeBps d e) as Hsame.
      rewrite Hcall in Hsame. specialize (Hsame eq_refl). cbn in Hsame |- *.
      unfold merchant_wallets_normal. by rewrite Hsame.
    - destruct (registerMerchant_Returned _ _ _ _ _ _ _ Hcall)
        as (_ & -> & Hfresh & Hdup & _).
      destruct Hnormal as [Hlow Huniq]. cbn.
      rewrite getByWallet_false in Hdup.
      split.
      + intros i mi Hi. cbn in Hi.
        destruct (decide (i = merchantId)) as [->|Hne].
        * rewrite lookup_insert_eq in Hi. simplify_eq. cbn.
          apply toLowerCase_idem.
        * rewrite lookup_insert_ne in Hi by done. by apply (Hlow i).
      + intros i j mi mj Hi Hj Hw. cbn in Hi, Hj.
        destruct (decide (i = merchantId)) as [->|Hi'];
          destruct (decide (j = merchantId)) as [->|Hj']; [done|..].
        * rewrite lookup_insert_eq in Hi. rewrite lookup_insert_ne in Hj by done.
          simplify_eq. cbn in Hw. by destruct (Hdup j mj Hj).
        * rewrite lookup_insert_eq in Hj. rewrite lookup_insert_ne in Hi by done.
          simplify_eq. cbn in Hw. by destruct (Hdup i mi Hi).
        * rewrite lookup_insert_ne in Hi, Hj by done. by apply (Huniq i j mi mj). }
  split; [done|].
  destruct Hd' as [Hlow Huniq].
  intros i j mi mj Hi Hj Hw.
  rewrite (Hlow i mi Hi), (Hlow j mj Hj) in Hw. by apply (Huniq i j mi mj).
Qed.

Lemma db_init_wallets_normal : merchant_wallets_normal Scenario.db_init.
Proof.
  split.
  - intros i m Hi. cbn in Hi. apply lookup_singleton_Some in Hi as [_ <-]. reflexivity.
  - intros i j mi mj Hi Hj _. cbn in Hi, Hj.
    apply lookup_singleton_Some in Hi as [<- _].
    by apply lookup_singleton_Some in Hj as [<- _].
Qed.

Lemma registered_merchant_is_payable_witness :
  ∃ m d',
    Merchant.registerMerchant "m-2" 150 "0x22222222222222222222222222222222222222AB"
      None Scenario.db_init = (inr m, d')
    ∧ Merchant.getMerchant "m-2" d' = Some m
    ∧ Merchant.walletAddress m = "0x22222222222222222222222222222222222222ab"%string
    ∧ Payment.feeBps (Scenario.env true) (Scenario.request "m-2" None) d' = Qc_of_Z 150.
Proof.
  destruct (Merchant.registerMerchant "m-2" 150
              "0x22222222222222222222222222222222222222AB" None Scenario.db_init)
    as [[e|m] d'] eqn:Hcall; [vm_compute in Hcall; discriminate Hcall|].
  exists m, d'. split; [reflexivity|].
  destruct (registered_merchant_is_payable "m-2" 150
              "0x22222222222222222222222222222222222222AB" None Scenario.db_init m d'
              (Scenario.env true) (Scenario.request "m-2" None) None Hcall
              ltac:(discriminate) eq_refl) as (H1 & H2 & _ & _ & H5 & _).
  split; [exact H1|]. split; [exact H2|exact H5].
Defined.

Lemma registerMerchant_keeps_wallets_normal_witness :
  merchant_wallets_normal
    (Merchant.registerMerchant "m-2" 150 "0x22222222222222222222222222222222222222AB"
       None Scenario.db_init).2.
Proof.
  exact (proj1 (registerMerchant_keeps_wallets_normal "m-2" 150
                  "0x22222222222222222222222222222222222222AB" None Scenario.db_init
                  db_init_wallets_normal)).
Defined.

(** ** The order of the rows a query yields *)

Lemma insert_desc_perm {A} (key : A → Z) (x : A) (l : list A) :
  DB.insert_desc key x l ≡ₚ x :: l.
Proof.
  induction l as [|y l IH]; [done|]. cbn [DB.insert_desc].
  destruct (key x <? key y)%Z; [|done].
  rewrite IH. apply Permutation_swap.
Qed.

(** Sorting keeps the rows: it yields a permutation of them. *)
Lemma order_by_desc_perm {A} (key : A → Z) (l : list A) :
  DB.order_by_desc key l ≡ₚ l.
Proof.
  induction l as [|x l IH]; [done|].
  cbn [DB.order_by_desc foldr]. rewrite insert_desc_perm. by f_equiv.
Qed.

Lemma order_by_desc_length {A} (key : A → Z) (l : list A) :
  length (DB.order_by_desc key l) = length l.
Proof. apply Permutation_length, order_by_desc_perm. Qed.

Lemma elem_of_order_by_desc {A} (key : A → Z) (l : list A) (x : A) :
  x ∈ DB.order_by_desc key l ↔ x ∈ l.
Proof. by rewrite order_by_desc_perm. Qed.

(** ** The credit line *)

Lemma Math_floor_div (a b : Z) :
  (0 < b)%Z → Credit.Math_floor (Qc_of_Z a / Qc_of_Z b) = (a / b)%Z.
Proof.
  intros Hb. unfold Credit.Math_floor. rewrite Zdiv_Qdiv. apply Qfloor_comp.
  unfold Qcdiv, Qcmult, Qcinv, Qc_of_Z. cbn [this Q2Qc].
  rewrite !Qred_correct. reflexivity.
Qed.

Lemma Math_ceil_div (a b : Z) :
  (0 < b)%Z → Credit.Math_ceil (Qc_of_Z a / Qc_of_Z b) = (- ((- a) / b))%Z.
Proof.
  intros Hb. unfold Credit.Math_ceil, Qceiling. f_equal.
  rewrite Zdiv_Qdiv. apply Qfloor_comp.
  unfold Qcdiv, Qcmult, Qcinv, Qc_of_Z. cbn [this Q2Qc].
  rewrite !Qred_correct. rewrite inject_Z_opp. field.
  intros H. apply (inject_Z_injective b 0) in H. lia.
Qed.

Lemma Qfloor_Qc_of_Z (z : Z) : Qfloor (Qc_of_Z z) = z.
Proof. unfold Qc_of_Z. cbn. rewrite Z.div_1_r. reflexivity. Qed.

Lemma Date_of_Z (z : Z) :
  (0 ≤ z ≤ 8640000000000000)%Z → Credit.Date_of (Qc_of_Z z) = Some z.
Proof.
  intros Hz. unfold Credit.Date_of.
  rewrite decide_True.
  - rewrite decide_True; [by rewrite Qfloor_Qc_of_Z|].
    rewrite <- Z2Qc_inj_0. apply (proj1 (Z2Qc_inj_le _ _)). lia.
  - split; apply (proj1 (Z2Qc_inj_le _ _)); lia.
Qed.

(** X20.  The repayment due date.  [getCreditLine] throws for an unknown
    agent, and for a known agent when the configured period is 0.  With
    a period of [p] whole days ([p > 0]) it returns, and the due date is
    midnight of the first day, counted from the epoch, that is a
    multiple of [p] and not before today: it is never more than [p] days
    ahead, and on a day that is itself a multiple of [p] it is the
    midnight that began today, so it is not after [now]. *)
Theorem getCreditLine_due_date (p now : Z) (created_at : string → Z)
    (agentId : string) (d : DB.t) (a : DB.AgentRow) :
  DB.agents d !! agentId = Some a →
  (0 < p)%Z → (0 ≤ now)%Z → (now + p * Credit.msPerDay ≤ 8640000000000000)%Z →
  (∀ P other, DB.agents d !! other = None →
     Credit.getCreditLine P now created_at other d
     = inl (Credit.CreditAgentNotFound other))
  ∧ Credit.getCreditLine 0 now created_at agentId d = inl Credit.InvalidTimeValue
  ∧ ∃ line, Credit.getCreditLine (Qc_of_Z p) now created_at agentId d = inr line
      ∧ Credit.availableCreditUsdc line
        = DB.credit_limit_usdc a - DB.used_credit_usdc a
      ∧ let today := (now / Credit.msPerDay)%Z in
        let due := Credit.repaymentDueDate line in
        (∃ k, due = (k * p * Credit.msPerDay)%Z)
        ∧ (today * Credit.msPerDay ≤ due < (today + p) * Credit.msPerDay)%Z
        ∧ (now - Credit.msPerDay < due < now + p * Credit.msPerDay)%Z
        ∧ (due ≤ now ↔ today mod p = 0)%Z.
Proof.
  intros Ha Hp Hnow Hrange.
  split.
  { intros P other Hnone. unfold Credit.getCreditLine, DB.agentQueries_getById.
    by rewrite Hnone. }
  split.
  { unfold Credit.getCreditLine, DB.agentQueries_getById. rewrite Ha.
    by rewrite decide_True. }
  unfold Credit.getCreditLine, DB.agentQueries_getById. rewrite Ha.
  assert (HD : (0 < Credit.msPerDay)%Z) by reflexivity.
  rewrite Math_floor_div by done.
  rewrite decide_False.
  2:{ rewrite <- Z2Qc_inj_0. intros H. apply Z2Qc_inj in H. lia. }
  rewrite Math_ceil_div by done.
  set (today := (now / Credit.msPerDay)%Z).
  set (k := (- (- today / p))%Z).
  rewrite <- !Z2Qc_inj_mul.
  pose proof (Z.div_mod now Credit.msPerDay ltac:(lia)) as Hdm.
  pose proof (Z.mod_pos_bound now Credit.msPerDay HD) as Hmb.
  fold today in Hdm.
  assert (Htoday : (0 ≤ today)%Z) by (apply Z.div_pos; lia).
  pose proof (Z.div_mod (- today) p ltac:(lia)) as Hkm.
  pose proof (Z.mod_pos_bound (- today) p Hp) as Hkb.
  assert (Hk : (k * p = today + (- today) mod p)%Z) by (subst k; lia).
  assert (Hmod : ((- today) mod p = 0 ↔ today mod p = 0)%Z).
  { rewrite !Z.mod_divide by lia. split; intros [c Hc]; exists (- c)%Z; lia. }
  rewrite Date_of_Z by nia.
  eexists. split; [reflexivity|]. cbn [Credit.availableCreditUsdc Credit.repaymentDueDate].
  split; [done|]. split; [by exists k|].
  split; [nia|]. split; [nia|].
  rewrite <- Hmod. split; [intros Hle; nia|intros Hz; nia].
Qed.

Lemma getCreditLine_due_date_witness :
  ∃ line, Credit.getCreditLine (Qc_of_Z 7) 1700000000000 (λ _, 0%Z) "agent-1"
            Scenario.db_init
          = inr line
    ∧ (1700000000000 - Credit.msPerDay < Credit.repaymentDueDate line
       < 1700000000000 + 7 * Credit.msPerDay)%Z.
Proof.
  destruct (getCreditLine_due_date 7 1700000000000 (λ _, 0%Z) "agent-1" Scenario.db_init
              Scenario.agent1 eq_refl ltac:(lia) ltac:(lia) ltac:(vm_compute; discriminate))
    as (_ & _ & line & Hline & _ & _ & _ & Hdue & _).
  exists line. split; [exact Hline|exact Hdue].
Defined.

(** What a repayment that returns leaves behind. *)
Lemma processRepayment_Returned rid agentId amount txHash d res d' :
  Payment.processRepayment rid agentId amount txHash d = (Returned res, d') →
  ∃ a, DB.agents d !! agentId = Some a
    ∧ let actual := Js.Math_min amount (DB.used_credit_usdc a) in
      0 < actual
      ∧ Payment.repaidUsdc res = actual
      ∧ DB.agents d' = <[agentId := repaid_agent a actual]> (DB.agents d)
      ∧ DB.transactions d' = DB.transactions d
      ∧ DB.repayments d'
        = DB.repayments d ++
            [{| DB.repayment_id := rid; DB.repayment_agent_id := agentId;
                DB.repayment_amount_usdc := actual; DB.repayment_tx_hash := txHash |}].
Proof.
  unfold Payment.processRepayment, DB.agentQueries_getById.
  destruct (DB.agents d !! agentId) as [a|] eqn:Ha; [|done].
  destruct (decide (_ ≤ 0)) as [|Hpos]; [done|].
  unfold DB.repaymentQueries_create.
  destruct (existsb _ _); [done|].
  destruct (negb _); [done|].
  intros Heq. exists a. split; [done|]. cbn zeta.
  split; [by apply Qcnot_le_lt|].
  injection Heq as <- <-. split; [done|].
  unfold repaid_agent.
  destruct (bool_decide _ && bool_decide _); cbn;
    rewrite (alter_lookup_Some _ _ _ _ Ha), ?alter_insert_eq; by destruct (DB.vault d).
Qed.

(** X21.  The credit line after a repayment.  For an agent with fewer
    than 100 recorded repayments, after a [processRepayment] that
    returns, [getCreditLine] reports as used credit the old usage minus
    the amount actually repaid, and as available credit the limit minus
    that; the repayments it sums are the new record together with the
    ones summed before, so [totalRepaid] is their sum in the order the
    query yields them; limit, total borrowed and due date stay as they
    were, and a credit line paid down to 0 is not reported
    delinquent. *)
Theorem getCreditLine_after_repayment (P : Qc) (now : Z) (created_at : string → Z)
    (rid agentId txHash : string) (amount : Qc) (d d' : DB.t)
    (res : Payment.RepaymentResult) (line : Credit.CreditLine) :
  Payment.processRepayment rid agentId amount txHash d = (Returned res, d') →
  (length (filter (λ r, DB.repayment_agent_id r = agentId) (DB.repayments d)) < 100)%nat →
  Credit.getCreditLine P now created_at agentId d = inr line →
  ∃ line', Credit.getCreditLine P now created_at agentId d' = inr line'
    ∧ 0 < Payment.repaidUsdc res
    ∧ Credit.usedCreditUsdc line' = Credit.usedCreditUsdc line - Payment.repaidUsdc res
    ∧ Credit.availableCreditUsdc line'
      = Credit.creditLimitUsdc line
        - (Credit.usedCreditUsdc line - Payment.repaidUsdc res)
    ∧ Credit.repaymentQueries_getByAgent created_at agentId 100 0 d'
      ≡ₚ {| DB.repayment_id := rid; DB.repayment_agent_id := agentId;
            DB.repayment_amount_usdc := Payment.repaidUsdc res;
            DB.repayment_tx_hash := txHash |}
         :: Credit.repaymentQueries_getByAgent created_at agentId 100 0 d
    ∧ Credit.totalRepaid line'
      = fold_left (λ sum r, sum + DB.repayment_amount_usdc r)
          (Credit.repaymentQueries_getByAgent created_at agentId 100 0 d') 0
    ∧ Credit.creditLimitUsdc line' = Credit.creditLimitUsdc line
    ∧ Credit.totalBorrowed line' = Credit.totalBorrowed line
    ∧ Credit.repaymentDueDate line' = Credit.repaymentDueDate line
    ∧ (Credit.usedCreditUsdc line' = 0 → Credit.isDelinquent line' = false).
Proof.
  intros Hcall Hfew Hline.
  destruct (processRepayment_Returned _ _ _ _ _ _ _ Hcall)
    as (a & Ha & Hpos & Hres & Hag & Htx & Hrep).
  cbn zeta in Hpos, Hres, Hag, Hrep.
  set (actual := Js.Math_min amount (DB.used_credit_usdc a)) in *.
  unfold Credit.getCreditLine, DB.agentQueries_getById in Hline |- *.
  rewrite Ha in Hline. rewrite Hag, lookup_insert_eq.
  destruct (decide (P = 0)) as [|HP]; [done|].
  unfold Credit.txQueries_getByAgent in Hline |- *. rewrite Htx.
  destruct (Credit.Date_of _) as [due|]; [|done].
  injection Hline as <-. eexists. split; [reflexivity|].
  cbn [Credit.usedCreditUsdc Credit.totalRepaid Credit.availableCreditUsdc
       Credit.creditLimitUsdc Credit.totalBorrowed Credit.repaymentDueDate
       Credit.isDelinquent].
  assert (Hused : DB.used_credit_usdc (repaid_agent a actual)
                  = DB.used_credit_usdc a - actual).
  { unfold repaid_agent. by destruct (bool_decide _ && bool_decide _). }
  assert (Hlimit : DB.credit_limit_usdc (repaid_agent a actual) = DB.credit_limit_usdc a).
  { unfold repaid_agent. by destruct (bool_decide _ && bool_decide _). }
  rewrite Hused, Hlimit, Hres.
  split; [done|]. split; [done|]. split; [done|]. split.
  { unfold Credit.repaymentQueries_getByAgent, Credit.limit_offset. rewrite Hrep.
    change (Z.to_nat 0) with 0%nat. change (Z.to_nat 100) with 100%nat.
    change (100 <? 0)%Z with false. cbv iota.
    rewrite !drop_0, list.filter_app.
    rewrite filter_cons_True by done. rewrite filter_nil.
    rewrite !take_ge.
    - rewrite !order_by_desc_perm. by rewrite <- Permutation_cons_append.
    - rewrite order_by_desc_length. lia.
    - rewrite order_by_desc_length, length_app. cbn [length]. lia. }
  split; [done|]. split; [done|]. split; [done|]. split; [done|].
  intros Hzero. apply bool_decide_eq_false. unfold repaid_agent.
  rewrite (bool_decide_eq_true_2 (DB.used_credit_usdc a - actual = 0)) by done.
  rewrite andb_true_r. case_bool_decide as Hdel; cbn; [done|exact Hdel].
Qed.

Lemma getCreditLine_after_repayment_witness :
  ∃ res d' line line',
    Payment.processRepayment "rep-1" "agent-1" (Qc_of_Z 100) "0x7e" Scenario.db_owing
    = (Returned res, d')
    ∧ Credit.getCreditLine (Qc_of_Z 7) 1700000000000 (λ _, 0%Z) "agent-1"
        Scenario.db_owing = inr line
    ∧ Credit.getCreditLine (Qc_of_Z 7) 1700000000000 (λ _, 0%Z) "agent-1" d' = inr line'
    ∧ Credit.usedCreditUsdc line' = Credit.usedCreditUsdc line - Payment.repaidUsdc res.
Proof.
  destruct (Payment.processRepayment "rep-1" "agent-1" (Qc_of_Z 100) "0x7e"
              Scenario.db_owing) as [[res|e] d'] eqn:Hcall;
    [|vm_compute in Hcall; discriminate Hcall].
  destruct (Credit.getCreditLine (Qc_of_Z 7) 1700000000000 (λ _, 0%Z) "agent-1"
              Scenario.db_owing)
    as [e|line] eqn:Hline; [vm_compute in Hline; discriminate Hline|].
  destruct (getCreditLine_after_repayment (Qc_of_Z 7) 1700000000000 (λ _, 0%Z)
              "rep-1" "agent-1" "0x7e" (Qc_of_Z 100) Scenario.db_owing d' res line Hcall
              ltac:(cbn; lia) Hline) as (line' & Hline' & _ & Hused & _).
  exists res, d', line, line'. auto.
Defined.

(** ** Scheduled jobs *)

(** A loop that updates one agent row per step, by a function that does
    not read the agents table, updates every listed row once. *)
Lemma fold_agent_updates (f : DB.t → string → DB.AgentRow → DB.AgentRow)
    (l : list (string * DB.AgentRow)) (d : DB.t) :
  (∀ d g, f (DB.with_agents g d) = f d) →
  NoDup l.*1 →
  let d' := fold_left (λ d ia, DB.with_agents (alter (f d ia.1) ia.1) d) l d in
  same_but_agents d d'
  ∧ ∀ i, DB.agents d' !! i
         = if decide (i ∈ l.*1) then f d i <$> DB.agents d !! i else DB.agents d !! i.
Proof.
  intros Hf. revert d. induction l as [|[k a] l IH]; intros d Hnd d'.
  - subst d'. cbn. split; [done|]. intros i. rewrite decide_False; [done|].
    apply not_elem_of_nil.
  - cbn in Hnd. apply list.NoDup_cons in Hnd as [Hk Hnd].
    subst d'. cbn [fold_left fst].
    destruct (IH (DB.with_agents (alter (f d k) k) d) Hnd) as [Hsame Hlook].
    split; [exact Hsame|].
    intros i. rewrite Hlook, Hf. cbn [fmap list_fmap fst DB.agents DB.with_agents].
    destruct (decide (i = k)) as [->|Hne].
    + rewrite (decide_False (P := k ∈ l.*1)) by done.
      rewrite decide_True by apply list_elem_of_here. by rewrite lookup_alter_eq.
    + rewrite lookup_alter_ne by done.
      destruct (decide (i ∈ l.*1)) as [Hin|Hnin].
      * rewrite decide_True; [done|]. by apply list_elem_of_further.
      * rewrite decide_False; [done|]. intros Hin. apply elem_of_cons in Hin as [?|?]; done.
Qed.

(** The score with no delinquency counted and the recipient statistics
    left at 0, as the scheduler calls it. *)
Lemma calculateRiskScore_scheduled (tx rep bor ageDays : Qc) :
  let s := Kya.calculateRiskScore tx rep bor 0 ageDays 0 0 0 in
  (12 ≤ s ≤ 83)%Z ∧ (Qc_of_Z 30 < ageDays → (s ≤ 70)%Z).
Proof.
  unfold Kya.calculateRiskScore. cbv zeta.
  set (s1 := if decide (0 < bor) then _ else _).
  assert (H1 : (30 ≤ s1 ≤ 75)%Z) by (subst s1; repeat destruct (decide _); lia).
  clearbody s1.
  rewrite (decide_True (P := (0 : Qc) = 0)) by done.
  set (s3 := if decide (Qc_of_Z 180 < ageDays) then _ else _).
  assert (H3 : (s1 - 15 ≤ s3 ≤ s1 + 5)%Z ∧ (Qc_of_Z 30 < ageDays → (s3 ≤ s1 - 8)%Z)).
  { subst s3. repeat destruct (decide _); (split; [lia|]); intros H30; try lia; done. }
  clearbody s3.
  rewrite (bool_decide_eq_false_2 ((0 : Qc) < 0)) by (vm_compute; discriminate).
  rewrite andb_false_r.
  rewrite (bool_decide_eq_true_2 ((0 : Qc) ≤ Qc_of_Z 2)) by (vm_compute; discriminate).
  rewrite andb_true_r.
  rewrite (decide_False (P := Qc_of_Z 10 ≤ 0)) by (intros H; by apply H).
  rewrite (decide_False (P := Qc_of_Z 5 ≤ 0)) by (intros H; by apply H).
  assert (H200 : Qc_of_Z 200 < tx → Qc_of_Z 10 < tx).
  { apply Qclt_trans. reflexivity. }
  assert (H50 : Qc_of_Z 50 < tx → Qc_of_Z 10 < tx).
  { apply Qclt_trans. reflexivity. }
  destruct H3 as [H3 H3'].
  destruct (decide (Qc_of_Z 10 < tx)) as [H10|H10].
  - rewrite (bool_decide_eq_true_2 _ H10).
    repeat destruct (decide _); (split; [lia|]); intros H30; specialize (H3' H30); lia.
  - rewrite (bool_decide_eq_false_2 _ H10).
    repeat destruct (decide _); try tauto;
      (split; [lia|]); intros H30; specialize (H3' H30); lia.
Qed.

Lemma NoDup_filter_fst {A} (P : string * A → Prop) `{∀ x, Decision (P x)}
    (l : list (string * A)) :
  NoDup l.*1 → NoDup (filter P l).*1.
Proof.
  induction l as [|[k a] l IH]; [done|].
  intros Hnd. rewrite fmap_cons in Hnd. cbn [fst] in Hnd.
  apply list.NoDup_cons in Hnd as [Hk Hnd].
  destruct (decide (P (k, a))).
  - rewrite filter_cons_True by done. rewrite fmap_cons. cbn [fst].
    apply list.NoDup_cons. split; [|by apply IH].
    intros Hin. apply Hk.
    apply list_elem_of_fmap in Hin as ([k' a'] & -> & Hin).
    apply list_elem_of_filter in Hin as [_ Hin].
    by apply (list_elem_of_fmap_2 fst) in Hin.
  - rewrite filter_cons_False by done. by apply IH.
Qed.

Lemma elem_of_selected (P : string * DB.AgentRow → Prop) `{∀ x, Decision (P x)}
    (m : gmap string DB.AgentRow) (i : string) :
  i ∈ (filter P (map_to_list m)).*1 ↔ ∃ a, m !! i = Some a ∧ P (i, a).
Proof.
  split.
  - intros Hin. apply list_elem_of_fmap in Hin as ([k a] & -> & Hin).
    apply list_elem_of_filter in Hin as [HP Hin].
    apply elem_of_map_to_list in Hin. by exists a.
  - intros (a & Ha & HP). apply (list_elem_of_fmap_2 fst _ (i, a)).
    apply list_elem_of_filter. split; [done|]. by apply elem_of_map_to_list.
Qed.

Lemma fold_left_ext {A B} (f g : A → B → A) (l : list B) (a : A) :
  (∀ a b, f a b = g a b) → fold_left f l a = fold_left g l a.
Proof.
  intros Hfg. revert a. induction l as [|b l IH]; intros a; [done|].
  cbn. by rewrite Hfg, IH.
Qed.

Lemma with_agents_alter_id (k : string) (d : DB.t) :
  DB.with_agents (alter (λ a, a) k) d = d.
Proof.
  destruct d. unfold DB.with_agents. cbn. f_equal. by apply alter_id.
Qed.

(** X22.  What a risk recalculation does.  [recalculateRiskScores]
    touches only the agents table, and there only the risk score of the
    agents that are not closed: limit, usage, status and KYA status of
    every agent stay as they were.  The score it stores lies between
    12 and 83, and for an agent whose account is more than 30 days old
    it is at most 70, however little the agent has repaid, so an active
    agent of that age passes the risk gate afterwards. *)
Theorem recalculateRiskScores_spec (ageDays : string → Qc) (d : DB.t) :
  let d' := Scheduler.recalculateRiskScores ageDays d in
  same_but_agents d d'
  ∧ ∀ id,
      match DB.agents d !! id with
      | None => DB.agents d' !! id = None
      | Some a =>
          if decide (DB.status a = DB.agent_closed)
          then DB.agents d' !! id = Some a
          else
            let s := Scheduler.newScore (ageDays id) id d in
            DB.agents d' !! id = Some (Kya.set_risk_score s a)
            ∧ (12 ≤ s ≤ 83)%Z
            ∧ (Qc_of_Z 30 < ageDays id →
               (s ≤ 70)%Z
               ∧ (DB.status a = DB.agent_active →
                  (Compliance.risk_gate
                     (Payment.mapAgent id (Kya.set_risk_score s a))).1 = true))
      end.
Proof.
  intros d'. subst d'. unfold Scheduler.recalculateRiskScores.
  set (f := λ (d : DB.t) (id : string),
              Kya.set_risk_score (Scheduler.newScore (ageDays id) id d)).
  set (l := filter _ (map_to_list (DB.agents d))).
  destruct (fold_agent_updates f l d) as [Hsame Hlook].
  { done. }
  { apply NoDup_filter_fst, NoDup_fst_map_to_list. }
  split; [exact Hsame|].
  intros id. cbv zeta in Hlook. unfold Kya.agentQueries_updateRiskScore.
  fold f. rewrite Hlook. subst l.
  destruct (DB.agents d !! id) as [a|] eqn:Ha.
  - destruct (decide (DB.status a = DB.agent_closed)) as [Hc|Hc].
    + rewrite decide_False; [done|].
      rewrite elem_of_selected. intros (a' & Ha' & Hne). cbn in Hne.
      rewrite Ha in Ha'. by simplify_eq.
    + rewrite decide_True by (apply elem_of_selected; by exists a).
      cbn [fmap option_fmap option_map]. split; [done|].
      destruct (calculateRiskScore_scheduled
                  (Qc_of_Z (Z.of_nat (length (filter (λ t, DB.tx_agent_id t = id)
                                                     (DB.transactions d)))))
                  (Scheduler.SUM DB.repayment_amount_usdc
                     (filter (λ r, DB.repayment_agent_id r = id) (DB.repayments d)))
                  (Scheduler.SUM DB.amount_usdc
                     (filter (λ t, DB.tx_agent_id t = id ∧ DB.tx_status t = DB.tx_confirmed
                                   ∧ DB.tx_type t ≠ DB.repayment) (DB.transactions d)))
                  (ageDays id)) as [Hb H30].
      fold (Scheduler.newScore (ageDays id) id d) in Hb, H30.
      split; [exact Hb|]. intros Hage. specialize (H30 Hage). split; [exact H30|].
      intros Hact. unfold Compliance.risk_gate. cbn. rewrite Hact.
      rewrite bool_decide_eq_true_2 by done.
      by rewrite (proj2 (Z.leb_le _ _) H30).
  - by destruct (decide _).
Qed.

Lemma recalculateRiskScores_spec_witness :
  DB.agents (Scheduler.recalculateRiskScores (λ _, Qc_of_Z 40) Scenario.db_init)
    !! "agent-1"%string
  = Some (Kya.set_risk_score 42 Scenario.agent1).
Proof.
  pose proof (proj2 (recalculateRiskScores_spec (λ _, Qc_of_Z 40) Scenario.db_init)
                "agent-1"%string) as H.
  change (DB.agents Scenario.db_init !! "agent-1"%string) with (Some Scenario.agent1) in H.
  cbv beta iota in H.
  rewrite decide_False in H by discriminate.
  exact (proj1 H).
Defined.

(** X23.  Delinquency marking and its cure.  [checkDelinquencies]
    touches only the agents table: an active agent with a positive
    balance whose last repayment lies more than one and a half periods
    back becomes delinquent, every other agent is left as it was, and
    no limit or balance changes.  A marked agent fails the risk gate of
    every payment check with the reason "agent status: delinquent", and
    a repayment of at least its whole balance makes it active again
    with a balance of 0. *)
Theorem checkDelinquencies_spec (REPAYMENT_PERIOD_DAYS : Qc)
    (daysSinceRepayment : string → Qc) (d : DB.t) :
  let d' := Scheduler.checkDelinquencies REPAYMENT_PERIOD_DAYS daysSinceRepayment d in
  same_but_agents d d'
  ∧ ∀ id,
      match DB.agents d !! id with
      | None => DB.agents d' !! id = None
      | Some a =>
          if decide (0 < DB.used_credit_usdc a ∧ DB.status a = DB.agent_active
                     ∧ REPAYMENT_PERIOD_DAYS * Q2Qc (15 # 10) < daysSinceRepayment id)
          then
            let marked := DB.set_agent_status DB.agent_delinquent a in
            DB.agents d' !! id = Some marked
            ∧ (∀ recipientAddress amountUsdc merchantId recipientAgentId d0,
                 let verdict :=
                   (Compliance.runPermissionChecks (Payment.mapAgent id marked)
                      recipientAddress amountUsdc merchantId recipientAgentId d0).1 in
                 DB.riskCheck verdict = false ∧ DB.allPassed verdict = false
                 ∧ DB.AgentNotActive DB.agent_delinquent ∈ DB.failureReasons verdict)
            ∧ (∀ rid amount txHash res d'',
                 DB.used_credit_usdc a ≤ amount →
                 Payment.processRepayment rid id amount txHash d' = (Returned res, d'') →
                 Payment.repaidUsdc res = DB.used_credit_usdc a
                 ∧ DB.agents d'' !! id
                   = Some (DB.set_agent_status DB.agent_active
                             (DB.set_used_credit 0 marked)))
          else DB.agents d' !! id = Some a
      end.
Proof.
  intros d'. subst d'. unfold Scheduler.checkDelinquencies.
  set (f := λ (_ : DB.t) (id : string),
              if decide (REPAYMENT_PERIOD_DAYS * Q2Qc (15 # 10) < daysSinceRepayment id)
              then DB.set_agent_status DB.agent_delinquent else λ a, a).
  set (l := filter _ (map_to_list (DB.agents d))).
  rewrite (fold_left_ext _ (λ d ia, DB.with_agents (alter (f d ia.1) ia.1) d)).
  2:{ intros d0 [k a]. subst f. cbn [fst]. destruct (decide _); [done|].
      by rewrite with_agents_alter_id. }
  destruct (fold_agent_updates f l d) as [Hsame Hlook].
  { done. }
  { apply NoDup_filter_fst, NoDup_fst_map_to_list. }
  split; [exact Hsame|].
  intros id. cbv zeta in Hlook.
  set (d' := fold_left _ l d) in *. clearbody d'.
  pose proof (Hlook id) as Hid. clear Hlook.
  destruct (decide (id ∈ l.*1)) as [Hin|Hnin] in Hid.
  - apply elem_of_selected in Hin as (a & Ha & Hused & Hact). cbn [snd] in Hused, Hact.
    rewrite Ha in Hid |- *. subst f. cbn [fmap option_fmap option_map] in Hid.
    destruct (decide (REPAYMENT_PERIOD_DAYS * Q2Qc (15 # 10) < daysSinceRepayment id))
      as [Hlate|Hlate].
    + rewrite decide_True by done.
      split; [exact Hid|]. split.
      * intros recipientAddress amountUsdc merchantId recipientAgentId d0.
        unfold Compliance.runPermissionChecks.
        destruct (Compliance.screenAddress recipientAddress d0) as [s d1].
        cbn [fst DB.riskCheck DB.allPassed DB.failureReasons].
        unfold Compliance.risk_gate. cbn [Payment.mapAgent Compliance.agentStatus
          DB.set_agent_status DB.status].
        rewrite bool_decide_eq_false_2 by done. cbn [andb negb fst snd].
        split; [done|]. split; [by rewrite !andb_false_r|].
        rewrite !elem_of_app. do 4 right. apply list_elem_of_here.
      * intros rid amount txHash res d'' Hle Hcall.
        destruct (processRepayment_Returned _ _ _ _ _ _ _ Hcall)
          as (a' & Ha' & _ & Hres & Hag & _).
        rewrite Hid in Ha'. injection Ha' as <-. cbn zeta in Hres, Hag.
        assert (Hmin : Js.Math_min amount (DB.used_credit_usdc a) = DB.used_credit_usdc a).
        { unfold Js.Math_min. destruct (decide _) as [Hle'|]; [|done].
          by apply Qcle_antisym. }
        cbn [DB.used_credit_usdc DB.set_agent_status] in Hres, Hag.
        rewrite Hmin in Hres, Hag. split; [exact Hres|].
        rewrite Hag, lookup_insert_eq. f_equal. unfold repaid_agent.
        cbn [DB.status DB.set_agent_status DB.used_credit_usdc].
        rewrite bool_decide_eq_true_2 by done.
        rewrite bool_decide_eq_true_2 by ring. cbn [andb].
        f_equal. f_equal. ring.
    + rewrite decide_False; [done|]. by intros (_ & _ & ?).
  - destruct (DB.agents d !! id) as [a|] eqn:Ha; [|done].
    rewrite decide_False; [done|]. intros (Hused & Hact & _). apply Hnin.
    subst l. apply elem_of_selected. by exists a.
Qed.

Lemma checkDelinquencies_spec_witness :
  let d := DB.with_agents
             (λ _, {[ "agent-1"%string := DB.set_used_credit (Qc_of_Z 100) Scenario.agent1 ]})
             Scenario.db_funded in
  DB.agents (Scheduler.checkDelinquencies (Qc_of_Z 7) (λ _, Qc_of_Z 11) d)
    !! "agent-1"%string
  = Some (DB.set_agent_status DB.agent_delinquent
            (DB.set_used_credit (Qc_of_Z 100) Scenario.agent1)).
Proof.
  intros d.
  pose proof (proj2 (checkDelinquencies_spec (Qc_of_Z 7) (λ _, Qc_of_Z 11) d)
                "agent-1"%string) as H.
  change (DB.agents d !! "agent-1"%string)
    with (Some (DB.set_used_credit (Qc_of_Z 100) Scenario.agent1)) in H.
  cbv beta iota in H.
  rewrite decide_True in H by (split; [reflexivity|split; reflexivity]).
  exact (proj1 H).
Defined.

(** ** The read routes of the payments router *)

Lemma elem_of_limit_offset {A} (limit offset : Z) (rows : list A) (x : A) :
  x ∈ Credit.limit_offset limit offset rows → x ∈ rows.
Proof.
  unfold Credit.limit_offset. intros Hin.
  assert (x ∈ drop (Z.to_nat offset) rows) as Hd.
  { destruct (limit <? 0)%Z; [done|].
    apply elem_of_take in Hin as (i & Hi & _). by apply list_elem_of_lookup_2 in Hi. }
  apply list_elem_of_lookup_1 in Hd as (i & Hi). rewrite lookup_drop in Hi.
  by apply list_elem_of_lookup_2 in Hi.
Qed.

Lemma elem_of_history (created_at : string → Z) (agentId : string) (d : DB.t)
    (tx : DB.TxRow) :
  tx ∈ history created_at agentId d
  ↔ tx ∈ DB.transactions d ∧ DB.tx_agent_id tx = agentId.
Proof.
  unfold history. rewrite elem_of_order_by_desc, list_elem_of_filter. tauto.
Qed.

Lemma find_unique (l : list DB.TxRow) (tx : DB.TxRow) :
  NoDup (DB.tx_id <$> l) → tx ∈ l →
  List.find (λ r, bool_decide (DB.tx_id r = DB.tx_id tx)) l = Some tx.
Proof.
  induction l as [|r l IH]; intros Hnd Hin; [by apply not_elem_of_nil in Hin|].
  rewrite fmap_cons in Hnd. apply list.NoDup_cons in Hnd as [Hr Hnd].
  cbn. case_bool_decide as Heq.
  - apply elem_of_cons in Hin as [->|Hin]; [done|].
    destruct Hr. rewrite Heq. by apply (list_elem_of_fmap_2 DB.tx_id).
  - apply elem_of_cons in Hin as [->|Hin]; [done|]. by apply IH.
Qed.

(** X24.  An agent reads its own payments only.  With transaction ids
    unique, [GET /:id] succeeds only with a transaction of the calling
    agent and answers 404 for an unknown id; every item that [GET /]
    lists comes from a transaction of the calling agent, can be fetched
    by that agent with [GET /:id], and is refused with 403 to every
    other agent. *)
Theorem payments_read_access (created_at : string → Z) (reqAgentId : string)
    (queryPage queryPageSize : option Z) (d : DB.t) :
  NoDup (DB.tx_id <$> DB.transactions d) →
  (∀ paramsId code data,
     PaymentsRouter.get_payment reqAgentId paramsId d
     = PaymentsRouter.Success code data →
     code = 200%Z ∧ PaymentsRouter.agentId data = reqAgentId
     ∧ PaymentsRouter.id data = paramsId)
  ∧ (∀ paramsId,
       (∀ tx, tx ∈ DB.transactions d → DB.tx_id tx ≠ paramsId) →
       PaymentsRouter.get_payment reqAgentId paramsId d
       = PaymentsRouter.Failure 404 PaymentsRouter.NOT_FOUND)
  ∧ ∀ item,
      item ∈ (PaymentsRouter.list_payments created_at reqAgentId queryPage
                queryPageSize d).1 →
      ∃ tx, tx ∈ DB.transactions d ∧ DB.tx_agent_id tx = reqAgentId
        ∧ item = PaymentsRouter.list_item tx
        ∧ PaymentsRouter.get_payment reqAgentId (PaymentsRouter.item_id item) d
          = PaymentsRouter.Success 200 (PaymentsRouter.transaction_data tx)
        ∧ ∀ other, other ≠ reqAgentId →
            PaymentsRouter.get_payment other (PaymentsRouter.item_id item) d
            = PaymentsRouter.Failure 403 PaymentsRouter.FORBIDDEN.
Proof.
  intros Hnd. split; [|split].
  - intros paramsId code data. unfold PaymentsRouter.get_payment, DB.txQueries_getById.
    destruct (List.find _ _) as [tx|] eqn:Hfind; [|done].
    apply find_some in Hfind as [_ Hid]. apply bool_decide_eq_true in Hid.
    case_bool_decide as Hag; [|done]. cbn. intros Heq. by simplify_eq.
  - intros paramsId Hno. unfold PaymentsRouter.get_payment, DB.txQueries_getById.
    destruct (List.find _ _) as [tx|] eqn:Hfind; [|done].
    apply find_some in Hfind as [Hin Hid]. apply bool_decide_eq_true in Hid.
    apply list_elem_of_In in Hin. by destruct (Hno tx Hin).
  - intros item Hin. unfold PaymentsRouter.list_payments in Hin. cbn [fst] in Hin.
    apply list_elem_of_fmap in Hin as (tx & -> & Hin).
    unfold Credit.txQueries_getByAgent in Hin.
    apply elem_of_limit_offset in Hin. fold (history created_at reqAgentId d) in Hin.
    apply elem_of_history in Hin as [Hin Hag].
    exists tx. split; [done|]. split; [done|]. split; [done|].
    unfold PaymentsRouter.get_payment, DB.txQueries_getById. cbn [PaymentsRouter.item_id
      PaymentsRouter.list_item].
    rewrite (find_unique _ _ Hnd Hin). split.
    + by rewrite bool_decide_eq_true_2.
    + intros other Hne. rewrite bool_decide_eq_false_2; [done|]. congruence.
Qed.

Lemma spend_then_repay_ids :
  NoDup (DB.tx_id <$> DB.transactions (Api.run spend_then_repay Scenario.db_init)).
Proof. vm_compute. apply NoDup_singleton. Qed.

Lemma payments_read_access_witness :
  let d := Api.run spend_then_repay Scenario.db_init in
  ∃ item, (PaymentsRouter.list_payments (λ _, 0%Z) "agent-1" None None d).1 = [item]
    ∧ PaymentsRouter.item_id item = "tx-1"%string
    ∧ (∃ data, PaymentsRouter.get_payment "agent-1" "tx-1" d
               = PaymentsRouter.Success 200 data)
    ∧ PaymentsRouter.get_payment "agent-2" "tx-1" d
      = PaymentsRouter.Failure 403 PaymentsRouter.FORBIDDEN.
Proof.
  intros d.
  destruct (PaymentsRouter.list_payments (λ _, 0%Z) "agent-1" None None d).1
    as [|item l] eqn:Hl;
    [vm_compute in Hl; discriminate Hl|].
  assert (Hnil : l = []) by (vm_compute in Hl; by injection Hl).
  assert (Hid : PaymentsRouter.item_id item = "tx-1"%string)
    by (vm_compute in Hl; by injection Hl as <- _).
  subst l. exists item. split; [reflexivity|]. split; [exact Hid|].
  destruct (payments_read_access (λ _, 0%Z) "agent-1" None None d spend_then_repay_ids)
    as (_ & _ & Hlist).
  destruct (Hlist item) as (tx & _ & _ & _ & Hget & Hother).
  { rewrite Hl. apply list_elem_of_here. }
  rewrite Hid in Hget, Hother. split; [by eexists|].
  apply Hother. discriminate.
Defined.






(** ** Onboarding and limit adjustment *)

(** The row a registration that returns has written. *)
Lemma registerAgent_Returned E ownerAddress requested d agentId d1 :
  AgentAdmin.registerAgent E ownerAddress requested d = (Returned agentId, d1) →
  let row :=
    {| DB.wallet_address := AgentAdmin.ethAddress (AgentAdmin.mpcKeys E);
       DB.owner_address := Js.toLowerCase ownerAddress;
       DB.credit_limit_usdc :=
         Js.Math_min
           (AgentAdmin.or_default requested (AgentAdmin.DEFAULT_CREDIT_LIMIT_USDC E))
           (AgentAdmin.MAX_CREDIT_LIMIT_USDC E);
       DB.used_credit_usdc := 0; DB.status := DB.agent_active;
       DB.kya_status := DB.kya_pending; DB.risk_score := 50;
       DB.mpc_public_key := AgentAdmin.publicKey (AgentAdmin.mpcKeys E);
       DB.mpc_server_shard_enc := AgentAdmin.serverShard (AgentAdmin.mpcKeys E) |} in
  agentId = AgentAdmin.agentUuid E
  ∧ DB.agents d !! agentId = None
  ∧ DB.agents d1 = <[agentId := row]> (DB.agents d)
  ∧ DB.sanctioned_addresses d1 = DB.sanctioned_addresses d.
Proof.
  intros Hcall row. unfold AgentAdmin.registerAgent, DB.agentQueries_create in Hcall.
  destruct (DB.agentQueries_getByWallet _ d); [done|].
  case_bool_decide as Hid; [done|].
  destruct (bool_decide (map_Exists _ _)); [done|].
  injection Hcall as <- <-.
  split; [done|]. split; [by apply eq_None_not_Some|].
  destruct (AgentAdmin.canFund E); cbn [snd]; [|done].
  unfold Vault.reserveLiquidity, Vault.getVaultState, DB.vaultQueries_get. cbn.
  destruct (DB.vault d); cbn; [|done].
  by destruct (decide (_ < _)).
Qed.

(** X27.  Onboarding.  An agent that [registerAgent] has just written
    is active with KYA pending, risk score 50, no usage and the limit
    min(requested or default, maximum); until the KYA it starts has run,
    every payment check for the agent fails the KYA gate.  The KYA then
    settles the matter by the sanctions lists alone: with owner and
    wallet unsanctioned the agent is approved with a risk score of at
    most 30 and passes both the KYA and the risk gate, otherwise it is
    rejected with risk score 100.  In neither case is the credit limit
    touched: the recommendation of the KYA is not applied to it. *)
Theorem registerAgent_then_KYA (E : AgentAdmin.RegisterEnv) (rpc : string → Kya.Rpc)
    (ownerAddress : string) (requested : option Qc) (d d1 : DB.t) (agentId : string) :
  AgentAdmin.registerAgent E ownerAddress requested d = (Returned agentId, d1) →
  let walletAddress := AgentAdmin.ethAddress (AgentAdmin.mpcKeys E) in
  let limit :=
    Js.Math_min (AgentAdmin.or_default requested (AgentAdmin.DEFAULT_CREDIT_LIMIT_USDC E))
                (AgentAdmin.MAX_CREDIT_LIMIT_USDC E) in
  let kya := Kya.performKYA rpc agentId ownerAddress walletAddress d1 in
  let clean :=
    negb (Compliance.isSanctioned (Compliance.screenAddress ownerAddress d).1)
    && negb (Compliance.isSanctioned (Compliance.screenAddress walletAddress d).1) in
  ∃ row row',
    DB.agents d1 !! agentId = Some row
    ∧ DB.kya_status row = DB.kya_pending ∧ DB.status row = DB.agent_active
    ∧ DB.risk_score row = 50%Z ∧ DB.used_credit_usdc row = 0
    ∧ DB.credit_limit_usdc row = limit
    ∧ (∀ recipientAddress amountUsdc merchantId recipientAgentId d0,
         let verdict :=
           (Compliance.runPermissionChecks (Payment.mapAgent agentId row)
              recipientAddress amountUsdc merchantId recipientAgentId d0).1 in
         DB.kyaCheck verdict = false ∧ DB.allPassed verdict = false)
    ∧ DB.agents kya.2 !! agentId = Some row'
    ∧ DB.credit_limit_usdc row' = limit ∧ DB.used_credit_usdc row' = 0
    ∧ DB.status row' = DB.agent_active
    ∧ (if clean
       then Kya.status kya.1 = DB.kya_approved ∧ DB.kya_status row' = DB.kya_approved
            ∧ (10 ≤ DB.risk_score row' ≤ 30)%Z
            ∧ (Compliance.kya_gate (Payment.mapAgent agentId row')).1 = true
            ∧ (Compliance.risk_gate (Payment.mapAgent agentId row')).1 = true
       else Kya.status kya.1 = DB.kya_rejected ∧ DB.kya_status row' = DB.kya_rejected
            ∧ DB.risk_score row' = 100%Z).
Proof.
  intros Hcall walletAddress limit kya clean.
  destruct (registerAgent_Returned _ _ _ _ _ _ Hcall) as (Hid & Hfresh & Hag & Hsan).
  cbv zeta in Hag. fold walletAddress limit in Hag.
  set (row := {| DB.wallet_address := walletAddress |}) in Hag.
  assert (Hrow : DB.agents d1 !! agentId = Some row) by (by rewrite Hag, lookup_insert_eq).
  assert (Hscreen : ∀ a, (Compliance.screenAddress a d1).1 = (Compliance.screenAddress a d).1
            ∧ DB.agents (Compliance.screenAddress a d1).2 = DB.agents d1).
  { intros a. split; [|by destruct (screenAddress_frame a d1) as (-> & _)].
    unfold Compliance.screenAddress, DB.sanctionsQueries_check. rewrite Hsan.
    destruct (DB.sanctioned_addresses d !! _); [done|].
    by repeat destruct (Compliance.includes _ _). }
  exists row.
  destruct (Compliance.isSanctioned (Compliance.screenAddress ownerAddress d).1) eqn:Ho;
    [|destruct (Compliance.isSanctioned (Compliance.screenAddress walletAddress d).1)
        eqn:Hw]; subst clean; cbn [negb andb].
  - exists (Kya.set_risk_score 100 (Kya.set_kya_status DB.kya_rejected row)).
    do 6 (split; [done|]). split.
    { intros recipientAddress amountUsdc merchantId recipientAgentId d0.
      unfold Compliance.runPermissionChecks.
      destruct (Compliance.screenAddress recipientAddress d0).
      cbn [fst DB.kyaCheck DB.allPassed].
      assert (Hk : (Compliance.kya_gate (Payment.mapAgent agentId row)).1 = false)
        by reflexivity.
      rewrite Hk. by rewrite andb_false_r. }
    subst kya. unfold Kya.performKYA.
    destruct (Hscreen ownerAddress) as [Hv Ha].
    destruct (Compliance.screenAddress ownerAddress d1) as [os d2].
    cbn [fst snd] in Hv, Ha. rewrite Hv, Ho. cbn [fst snd].
    split; [apply updateKYA_lookup; by rewrite Ha|]. done.
  - exists (Kya.set_risk_score 100 (Kya.set_kya_status DB.kya_rejected row)).
    do 6 (split; [done|]). split.
    { intros recipientAddress amountUsdc merchantId recipientAgentId d0.
      unfold Compliance.runPermissionChecks.
      destruct (Compliance.screenAddress recipientAddress d0).
      cbn [fst DB.kyaCheck DB.allPassed].
      assert (Hk : (Compliance.kya_gate (Payment.mapAgent agentId row)).1 = false)
        by reflexivity.
      rewrite Hk. by rewrite andb_false_r. }
    subst kya. unfold Kya.performKYA.
    destruct (Hscreen ownerAddress) as [Hv Ha].
    assert (Hd2 : (Compliance.screenAddress ownerAddress d1).2 = d1).
    { apply screenAddress_clean. by rewrite Hv. }
    destruct (Compliance.screenAddress ownerAddress d1) as [os d2].
    cbn [fst snd] in Hv, Ha, Hd2. subst d2. rewrite Hv, Ho.
    destruct (Hscreen walletAddress) as [Hv' Ha'].
    destruct (Compliance.screenAddress walletAddress d1) as [ws d2].
    cbn [fst snd] in Hv', Ha'. rewrite Hv', Hw. cbn [fst snd].
    split; [apply updateKYA_lookup; by rewrite Ha'|]. done.
  - destruct (performKYA_clean_result rpc agentId ownerAddress walletAddress d1)
      as (sc & tr & cr & checks & flags & reasons & Hkya & Hsc & _).
    { by rewrite (proj1 (Hscreen ownerAddress)). }
    { by rewrite (proj1 (Hscreen walletAddress)). }
    exists (Kya.set_risk_score (100 - sc) (Kya.set_kya_status DB.kya_approved row)).
    do 6 (split; [done|]). split.
    { intros recipientAddress amountUsdc merchantId recipientAgentId d0.
      unfold Compliance.runPermissionChecks.
      destruct (Compliance.screenAddress recipientAddress d0).
      cbn [fst DB.kyaCheck DB.allPassed].
      assert (Hk : (Compliance.kya_gate (Payment.mapAgent agentId row)).1 = false)
        by reflexivity.
      rewrite Hk. by rewrite andb_false_r. }
    subst kya. rewrite Hkya. cbn [fst snd Kya.status].
    split; [by apply updateKYA_lookup|]. do 3 (split; [done|]).
    split; [done|]. split; [done|]. cbn [DB.risk_score Kya.set_risk_score].
    split; [lia|]. split; [done|].
    unfold Compliance.risk_gate. cbn.
    by rewrite (proj2 (Z.leb_le (100 - sc) 70)) by lia.
Qed.

Lemma registerAgent_then_KYA_witness :
  let E := {| AgentAdmin.mpcKeys :=
                {| AgentAdmin.publicKey := "02cd"; AgentAdmin.serverShard := "00:aa";
                   AgentAdmin.ethAddress := "0xcccccccccccccccccccccccccccccccccccccccc" |};
              AgentAdmin.agentUuid := "agent-2";
              AgentAdmin.DEFAULT_CREDIT_LIMIT_USDC := Qc_of_Z 1000;
              AgentAdmin.MAX_CREDIT_LIMIT_USDC := Qc_of_Z 100000;
              AgentAdmin.canFund := false |} in
  let rpc := λ _ : string,
    {| Kya.viem := false; Kya.getCode := None; Kya.getBalance := None;
       Kya.balanceOf := None; Kya.getTransactionCount := None |} in
  ∃ d1 row',
    AgentAdmin.registerAgent E "0xDDDDDDDDDDDDDDDDDDDDDDDDDDDDDDDDDDDDDDDD" None
      Scenario.db_init = (Returned "agent-2"%string, d1)
    ∧ DB.agents
        (Kya.performKYA rpc "agent-2" "0xDDDDDDDDDDDDDDDDDDDDDDDDDDDDDDDDDDDDDDDD"
           "0xcccccccccccccccccccccccccccccccccccccccc" d1).2 !! "agent-2"%string
      = Some row'
    ∧ DB.kya_status row' = DB.kya_approved
    ∧ DB.credit_limit_usdc row' = Qc_of_Z 1000.
Proof.
  intros E rpc.
  destruct (AgentAdmin.registerAgent E "0xDDDDDDDDDDDDDDDDDDDDDDDDDDDDDDDDDDDDDDDD" None
              Scenario.db_init) as [[agentId|e] d1] eqn:Hcall;
    [|vm_compute in Hcall; discriminate Hcall].
  assert (agentId = "agent-2"%string) as -> by (vm_compute in Hcall; by injection Hcall).
  destruct (registerAgent_then_KYA E rpc "0xDDDDDDDDDDDDDDDDDDDDDDDDDDDDDDDDDDDDDDDD"
              None Scenario.db_init d1 "agent-2" Hcall)
    as (row & row' & _ & _ & _ & _ & _ & _ & _ & Hrow' & Hlimit & _ & _ & Hclean).
  exists d1, row'. split; [reflexivity|]. split; [exact Hrow'|].
  split; [exact (proj1 (proj2 Hclean))|].
  rewrite Hlimit. apply Qc_is_canon. reflexivity.
Defined.

(** X28.  Adjusting a credit limit.  [adjustCreditLimit] throws, and
    leaves the store untouched, for an unknown agent, for a limit below
    the agent's current usage and for a limit above the configured
    maximum.  Otherwise it returns the agent with the new limit, the
    usage unchanged and the difference available; only the limit of
    this agent's row changes, and a payment of the agent then passes
    the credit gate exactly when its amount is at most the new limit
    less the usage. *)
Theorem adjustCreditLimit_spec (MAX : Qc) (agentId : string) (newLimitUsdc : Qc)
    (d : DB.t) :
  let r := AgentAdmin.adjustCreditLimit MAX agentId newLimitUsdc d in
  match DB.agents d !! agentId with
  | None => r = (Threw (AgentNotFound agentId), d)
  | Some a =>
      (newLimitUsdc < DB.used_credit_usdc a →
       r = (Threw (LimitBelowUsage (DB.used_credit_usdc a)), d))
      ∧ (DB.used_credit_usdc a ≤ newLimitUsdc → MAX < newLimitUsdc →
         r = (Threw (LimitAboveMax MAX), d))
      ∧ (DB.used_credit_usdc a ≤ newLimitUsdc → newLimitUsdc ≤ MAX →
         ∃ agent,
           r = (Returned agent,
                DB.with_agents (insert agentId (DB.set_credit_limit newLimitUsdc a)) d)
           ∧ agent = Payment.mapAgent agentId (DB.set_credit_limit newLimitUsdc a)
           ∧ Compliance.creditLimitUsdc agent = newLimitUsdc
           ∧ Compliance.usedCreditUsdc agent = DB.used_credit_usdc a
           ∧ Compliance.availableCreditUsdc agent = newLimitUsdc - DB.used_credit_usdc a
           ∧ 0 ≤ Compliance.availableCreditUsdc agent
           ∧ ∀ amountUsdc,
               (Compliance.credit_gate agent amountUsdc).1 = true
               ↔ amountUsdc ≤ newLimitUsdc - DB.used_credit_usdc a)
  end.
Proof.
  intros r. subst r. unfold AgentAdmin.adjustCreditLimit, DB.agentQueries_getById.
  destruct (DB.agents d !! agentId) as [a|] eqn:Ha; [|done].
  split; [|split].
  - intros Hlt. by rewrite decide_True.
  - intros Hge Hmax. rewrite decide_False by (by apply Qcle_not_lt).
    by rewrite decide_True.
  - intros Hge Hmax. rewrite decide_False by (by apply Qcle_not_lt).
    rewrite decide_False by (by apply Qcle_not_lt).
    assert (Hl : DB.agents (DB.agents_updateLimit newLimitUsdc agentId d) !! agentId
                 = Some (DB.set_credit_limit newLimitUsdc a)).
    { cbn. by rewrite (alter_lookup_Some _ _ _ _ Ha), lookup_insert_eq. }
    rewrite Hl. eexists. split.
    { f_equal. unfold DB.agents_updateLimit, DB.with_agents. f_equal.
      apply (alter_lookup_Some _ _ _ _ Ha). }
    split; [done|]. cbn. do 3 (split; [done|]). split.
    + unfold Qcminus. rewrite <- (Qcplus_opp_r (DB.used_credit_usdc a)).
      by apply Qcplus_le_compat.
    + intros amountUsdc. unfold Compliance.credit_gate. cbn.
      destruct (decide _) as [Hle|Hnle]; cbn; [done|]. split; [done|]. intros. done.
Qed.

Lemma adjustCreditLimit_spec_witness :
  ∃ agent d',
    AgentAdmin.adjustCreditLimit (Qc_of_Z 100000) "agent-1" (Qc_of_Z 2000) Scenario.db_init
    = (Returned agent, d')
    ∧ Compliance.creditLimitUsdc agent = Qc_of_Z 2000.
Proof.
  pose proof (adjustCreditLimit_spec (Qc_of_Z 100000) "agent-1" (Qc_of_Z 2000)
                Scenario.db_init) as H.
  cbv zeta in H.
  change (DB.agents Scenario.db_init !! "agent-1"%string) with (Some Scenario.agent1) in H.
  destruct H as (_ & _ & H).
  destruct H as (agent & Hr & _ & Hl & _); [vm_compute; discriminate..|].
  eexists agent, _. split; [exact Hr|exact Hl].
Defined.

(** ** The amounts as doubles *)

(** The gates of [runPermissionChecks] other than the credit check read
    neither the amount nor the credit columns of the agent.  For an
    active agent with KYA approved and a risk score of at most 70, and
    a direct payment to an address that is not screened as sanctioned,
    they all pass and the verdict is that of the credit check: the
    course that [DoublesScenario.course] takes. *)
Lemma gates_besides_credit (agent : Compliance.Agent) (recipientAddress : string)
    (amountUsdc : Qc) (d : DB.t) :
  Compliance.agentStatus agent = DB.agent_active →
  Compliance.kyaStatus agent = DB.kya_approved →
  (Compliance.riskScore agent ≤ 70)%Z →
  Compliance.isSanctioned (Compliance.screenAddress recipientAddress d).1 = false →
  let verdict :=
    (Compliance.runPermissionChecks agent recipientAddress amountUsdc None None d).1 in
  DB.sanctionsCheck verdict = true ∧ DB.merchantCheck verdict = true
  ∧ DB.kyaCheck verdict = true ∧ DB.riskCheck verdict = true
  ∧ DB.allPassed verdict = DB.creditCheck verdict.
Proof.
  intros Hactive Hkya Hrisk Hclean. unfold Compliance.runPermissionChecks.
  destruct (Compliance.screenAddress recipientAddress d) as [screening d1].
  cbn [fst] in Hclean. cbn zeta. cbn [fst DB.sanctionsCheck DB.merchantCheck
    DB.kyaCheck DB.riskCheck DB.allPassed DB.creditCheck].
  unfold Compliance.sanctions_gate, Compliance.kya_gate, Compliance.risk_gate.
  rewrite Hclean, Hactive, Hkya. cbn [negb fst].
  rewrite !bool_decide_eq_true_2 by done.
  rewrite (proj2 (Z.leb_le _ _) Hrisk). cbn.
  by rewrite !andb_true_r.
Qed.

(** C1 (the code at two spends that use up the limit).  An agent with
    the credit limit 99.99 and nothing used, over a vault funded with
    50000, spends 25.15 and then 74.84 at 150 bps without yet supplying
    its shard.  Both requests pass the credit check, 74.84 being not
    above 99.99 - 25.15 as doubles, and are answered "signing"; the
    debit stores 25.15 + 74.84, which as a double is
    99.99000000000001: [usedCredit] ends above [creditLimit]. *)
Theorem credit_invariant_broken :
  let d0 := DoublesScenario.db_funded (Doubles.dec 9999 2) (Doubles.dec 50000 0) in
  let course := DoublesScenario.course Doubles.AwaitsShard in
  ∃ r1 d1 r2 d2 a0 a2,
    Doubles.agents d0 !! "agent-1"%string = Some a0
    ∧ PrimFloat.leb PrimFloat.zero (Doubles.used_credit_usdc a0) = true
    ∧ PrimFloat.leb (Doubles.used_credit_usdc a0) (Doubles.credit_limit_usdc a0) = true
    ∧ Doubles.processPayment course (DoublesScenario.spend (Doubles.dec 2515 2)) d0
      = (Doubles.Returned r1, d1)
    ∧ Doubles.status r1 = Doubles.signing ∧ Doubles.creditCheck r1 = true
    ∧ Doubles.processPayment course (DoublesScenario.spend (Doubles.dec 7484 2)) d1
      = (Doubles.Returned r2, d2)
    ∧ Doubles.status r2 = Doubles.signing ∧ Doubles.creditCheck r2 = true
    ∧ Doubles.agents d2 !! "agent-1"%string = Some a2
    ∧ Doubles.credit_limit_usdc a2 = Doubles.dec 9999 2
    ∧ Doubles.used_credit_usdc a2
      = PrimFloat.add (PrimFloat.add PrimFloat.zero (Doubles.dec 2515 2))
          (Doubles.dec 7484 2)
    ∧ PrimFloat.ltb (Doubles.credit_limit_usdc a2) (Doubles.used_credit_usdc a2) = true.
Proof.
  intros d0 course. subst d0 course.
  eexists _, _, _, _, _, _.
  split; [vm_compute; reflexivity|].
  split; [vm_compute; reflexivity|].
  split; [vm_compute; reflexivity|].
  split; [vm_compute; reflexivity|].
  split; [reflexivity|]. split; [reflexivity|].
  split; [vm_compute; reflexivity|].
  split; [reflexivity|]. split; [reflexivity|].
  split; [vm_compute; reflexivity|].
  split; [vm_compute; reflexivity|].
  split; vm_compute; reflexivity.
Qed.

(** C3 (the code at a failed settlement after an earlier spend).  An
    agent with the limit 1000, over a vault funded with 50000, has
    spent 10 at 150 bps, so that 9.85 is lent out.  Its next spend, of
    100, reserves 98.5 and debits 100, and then fails before the fee is
    processed (the broadcast is not confirmed): the error is thrown and
    the usage is written back to what it was, 10; but
    [returnLiquidity] leaves [total_lent_usdc] at
    (9.85 + 98.5) - 98.5, which as a double is 9.849999999999994 and
    not the 9.85 from before the request: the vault is not restored
    exactly. *)
Theorem rollback_misses_vault :
  let d0 := DoublesScenario.db_funded (Doubles.dec 1000 0) (Doubles.dec 50000 0) in
  ∃ r1 d1 d2 a1 a2 v1 v2,
    Doubles.processPayment (DoublesScenario.course Doubles.AwaitsShard)
      (DoublesScenario.spend (Doubles.dec 10 0)) d0
    = (Doubles.Returned r1, d1)
    ∧ Doubles.agents d1 !! "agent-1"%string = Some a1
    ∧ Doubles.vault d1 = Some v1
    ∧ Doubles.total_lent_usdc v1 = Doubles.dec 985 2
    ∧ Doubles.processPayment (DoublesScenario.course Doubles.FailsBeforeFee)
        (DoublesScenario.spend (Doubles.dec 100 0)) d1
      = (Doubles.Threw Doubles.SettlementError, d2)
    ∧ Doubles.agents d2 !! "agent-1"%string = Some a2
    ∧ a2 = a1
    ∧ Doubles.vault d2 = Some v2
    ∧ Doubles.total_lent_usdc v2
      = PrimFloat.sub (PrimFloat.add (Doubles.dec 985 2) (Doubles.dec 985 1))
          (Doubles.dec 985 1)
    ∧ PrimFloat.eqb (Doubles.total_lent_usdc v2) (Doubles.total_lent_usdc v1) = false
    ∧ PrimFloat.ltb (Doubles.total_lent_usdc v2) (Doubles.total_lent_usdc v1) = true
    ∧ Doubles.total_deposits_usdc v2 = Doubles.total_deposits_usdc v1.
Proof.
  intros d0. subst d0.
  eexists _, _, _, _, _, _, _.
  split; [vm_compute; reflexivity|].
  split; [vm_compute; reflexivity|].
  split; [vm_compute; reflexivity|].
  split; [vm_compute; reflexivity|].
  split; [vm_compute; reflexivity|].
  split; [vm_compute; reflexivity|].
  split; [reflexivity|].
  split; [vm_compute; reflexivity|].
  split; [vm_compute; reflexivity|].
  split; [vm_compute; reflexivity|].
  split; vm_compute; reflexivity.
Qed.

(** C7 (the code at a deposit of 10000 and a fee of 1.5).  On the empty
    vault, at price 1, a deposit of 10000 issues exactly 10000 shares,
    and after a fee of 1.5 the share price is (10000 + 1.5) / 10000.
    Withdrawing the 10000 shares asks for 10000 times that price, which
    as a double is 10001.500000000002, more than the 10001.5 the vault
    holds: [processWithdrawal] throws the liquidity error and pays
    nothing.  With a deposit of 100 and the same fee the withdrawal
    returns, and pays 101.49999999999999, less than the 101.5 of
    deposit and fee. *)
Theorem full_withdrawal_misses_yield :
  let d0 := DoublesScenario.db_init (Doubles.dec 1000 0) in
  Doubles.getSharePrice d0 = Doubles.Returned PrimFloat.one
  ∧ (∃ pos d1 d2,
       Doubles.processDeposit "pos-1" "0xC0FFEE" (Doubles.dec 10000 0) "0xd1" d0
       = (Doubles.Returned pos, d1)
       ∧ Doubles.shares_owned pos = Doubles.dec 10000 0
       ∧ Doubles.processFeeIntoVault (Doubles.dec 15 1) d1 = (Doubles.Returned (), d2)
       ∧ Doubles.getSharePrice d2
         = Doubles.Returned
             (PrimFloat.div (PrimFloat.add (Doubles.dec 10000 0) (Doubles.dec 15 1))
                (Doubles.dec 10000 0))
       ∧ ∃ wanted available,
           (∀ created_at,
              Doubles.processWithdrawal created_at "0xC0FFEE" (Doubles.dec 10000 0) d2
              = (Doubles.Threw (Doubles.InsufficientVaultLiquidity wanted available), d2))
           ∧ available = PrimFloat.add (Doubles.dec 10000 0) (Doubles.dec 15 1)
           ∧ PrimFloat.ltb available wanted = true)
  ∧ ∃ pos d1 d2 paid,
      Doubles.processDeposit "pos-1" "0xC0FFEE" (Doubles.dec 100 0) "0xd1" d0
      = (Doubles.Returned pos, d1)
      ∧ Doubles.shares_owned pos = Doubles.dec 100 0
      ∧ Doubles.processFeeIntoVault (Doubles.dec 15 1) d1 = (Doubles.Returned (), d2)
      ∧ (∀ created_at,
           ∃ d3, Doubles.processWithdrawal created_at "0xC0FFEE" (Doubles.dec 100 0) d2
                 = (Doubles.Returned paid, d3))
      ∧ PrimFloat.ltb (Doubles.amountUsdc paid)
          (PrimFloat.add (Doubles.dec 100 0) (Doubles.dec 15 1)) = true.
Proof.
  intros d0. subst d0.
  split; [vm_compute; reflexivity|]. split.
  - eexists _, _, _.
    split; [vm_compute; reflexivity|].
    split; [vm_compute; reflexivity|].
    split; [vm_compute; reflexivity|].
    split; [vm_compute; reflexivity|].
    eexists _, _. split; [intros created_at; vm_compute; reflexivity|].
    split; vm_compute; reflexivity.
  - eexists _, _, _, _.
    split; [vm_compute; reflexivity|].
    split; [vm_compute; reflexivity|].
    split; [vm_compute; reflexivity|].
    split; [intros created_at; eexists; vm_compute; reflexivity|].
    vm_compute. reflexivity.
Qed.
